(** * Kidnapped-Vehicle particle filter: a shallow embedding of
      [src/particle_filter.cpp] and the properties of its filter cycle.

    Conventions of the embedding.
    - A C++ [double] (and the [float] coordinates of a map landmark) is a
      real number of [R]; [sin], [cos], [exp], [sqrt] are those of the
      Standard Library's reals.  Rounding, overflow and NaN are outside the
      model: every statement below is about the arithmetic the code writes,
      read over the reals.
    - An [int] is a [Z]; a [std::vector] is a [list], indexed with stdpp's
      lookup [l !! i] and written with [<[i:=v]> l].  [operator[]] outside
      the vector is undefined behaviour in C++: the embedding returns [None]
      there, so every function that indexes is in the [option] monad.
    - The pseudo-random engine and the two distributions of [<random>] are
      not code of this repository: they are the fields of a [RandomLib]
      record the filter operations are parametrised by. *)

From Stdlib Require Import Reals Lra Lia ZArith List.
From Stdlib Require Ascii String DecimalString DecimalPos DecimalZ.
From stdpp Require Import base option list.

Open Scope R_scope.

(** ** Data model *)

(** [struct Particle] of particle_filter.h. *)
Record Particle : Type := mkParticle {
  p_id : Z;
  p_x : R;
  p_y : R;
  p_theta : R;
  p_weight : R;
  p_associations : list Z;
  p_sense_x : list R;
  p_sense_y : list R
}.

(** [struct LandmarkObs] of helper_functions.h: an identity and a point. *)
Record LandmarkObs : Type := mkLandmarkObs {
  o_id : Z;
  o_x : R;
  o_y : R
}.

(** [Map::single_landmark_s] of map.h. *)
Record single_landmark_s : Type := mkLandmark {
  id_i : Z;
  x_f : R;
  y_f : R
}.

(** [class Map]: the ordered landmark list. *)
Record Map : Type := mkMap {
  landmark_list : list single_landmark_s
}.

(** The data members of [class ParticleFilter]. *)
Record ParticleFilter : Type := mkFilter {
  num_particles : Z;
  is_initialized : bool;
  particles : list Particle
}.

(** Field updates, one per assignment form used by the source. *)
Definition set_obs_id (o : LandmarkObs) (i : Z) : LandmarkObs :=
  {| o_id := i; o_x := o_x o; o_y := o_y o |}.

Definition set_pose (p : Particle) (x y th : R) : Particle :=
  {| p_id := p_id p; p_x := x; p_y := y; p_theta := th;
     p_weight := p_weight p; p_associations := p_associations p;
     p_sense_x := p_sense_x p; p_sense_y := p_sense_y p |}.

Definition set_weight (p : Particle) (w : R) : Particle :=
  {| p_id := p_id p; p_x := p_x p; p_y := p_y p; p_theta := p_theta p;
     p_weight := w; p_associations := p_associations p;
     p_sense_x := p_sense_x p; p_sense_y := p_sense_y p |}.

Definition set_sensed (p : Particle) (a : list Z) (sx sy : list R) : Particle :=
  {| p_id := p_id p; p_x := p_x p; p_y := p_y p; p_theta := p_theta p;
     p_weight := p_weight p; p_associations := a;
     p_sense_x := sx; p_sense_y := sy |}.

Definition set_particles (pf : ParticleFilter) (ps : list Particle) : ParticleFilter :=
  {| num_particles := num_particles pf; is_initialized := is_initialized pf;
     particles := ps |}.

(** ** Geometry and likelihood utilities (helper_functions.h) *)

(** Modelled from the spec: [dist] of helper_functions.h, which is not under
    src/; "Euclidean distance between two 2-D points". *)
Definition dist (x1 y1 x2 y2 : R) : R :=
  sqrt ((x2 - x1) * (x2 - x1) + (y2 - y1) * (y2 - y1)).

(** Modelled from the spec: [multiv_prob] of helper_functions.h, which is not
    under src/; the density of an axis-aligned bivariate normal,
    [exp(-((obs_x-mu_x)^2/(2*sigma_x^2) + (obs_y-mu_y)^2/(2*sigma_y^2)))
     / (2*pi*sigma_x*sigma_y)]. *)
Definition multiv_prob (sig_x sig_y x_obs y_obs mu_x mu_y : R) : R :=
  exp (- ((x_obs - mu_x) * (x_obs - mu_x) / (2 * (sig_x * sig_x))
          + (y_obs - mu_y) * (y_obs - mu_y) / (2 * (sig_y * sig_y))))
  / (2 * PI * sig_x * sig_y).

(** ** Counted loops *)

(** [for (int n = 0; n < count; n++) body(n)] over a state [S], where the
    body may hit undefined behaviour ([None]). *)
Definition for_upto {S : Type} (count : nat) (body : nat -> S -> option S)
    (s : S) : option S :=
  fold_left (fun acc n => acc ≫= body n) (seq 0 count) (Some s).

(** The trip count of [for (int n = 0; n < num_particles; n++)]. *)
Definition trips (pf : ParticleFilter) : nat := Z.to_nat (num_particles pf).

(** ** The association resolver *)

Section Association.

(** The content of a default-initialised [LandmarkObs] local
    ([LandmarkObs bestFit;], [LandmarkObs pred_LM_match;]): the struct has
    no initialiser, so the value the code reads when such a local was never
    assigned is whatever this parameter holds.  Reading it is undefined
    behaviour in C++, and nothing makes two such reads agree: a property
    below either holds for every value of the parameter, or is stated for
    two values [unset1], [unset2] under a hypothesis that keeps the local
    from being read. *)
Variable unset : LandmarkObs.

(** The sentinel [double minDist = 9.9e50; // large number]. *)
Definition minDist0 : R := 9.9e50.

(** One trip of [for (auto pred : predicted)]: the pair is
    [(minDist, bestFit)]. *)
Definition scan_step (obs : LandmarkObs) (st : R * LandmarkObs)
    (pred : LandmarkObs) : R * LandmarkObs :=
  let d := dist (o_x pred) (o_y pred) (o_x obs) (o_y obs) in
  if Rlt_dec d (fst st) then (d, pred) else st.

(** The inner loop, from given values of [minDist] and [bestFit]. *)
Definition scan (obs : LandmarkObs) (predicted : list LandmarkObs)
    (st : R * LandmarkObs) : R * LandmarkObs :=
  fold_left (scan_step obs) predicted st.

(** The body of [for (auto& obs : observations)]. *)
Definition associate (predicted : list LandmarkObs) (obs : LandmarkObs)
    : LandmarkObs :=
  let bestFit := snd (scan obs predicted (minDist0, unset)) in
  set_obs_id obs (o_id bestFit).

(** [ParticleFilter::dataAssociation]; [predicted] is a by-value parameter,
    [observations] is the vector mutated in place, returned here. *)
Definition dataAssociation (predicted observations : list LandmarkObs)
    : list LandmarkObs :=
  map (associate predicted) observations.

End Association.

(** ** The pseudo-random library *)

(** What the filter uses of [<random>].  [default_engine] is the state of a
    default-constructed [std::default_random_engine]: the C++ library fixes
    its seed, so it is one value.  [std_normal] is one standard normal
    deviate of a [std::normal_distribution], which keeps a state of its own
    between draws; [canonical] is one uniform deviate of
    [std::generate_canonical]. *)
Record RandomLib : Type := mkRandomLib {
  Engine : Type;
  default_engine : Engine;
  NormalState : Type;
  normal_fresh : NormalState;
  std_normal : NormalState -> Engine -> R * NormalState * Engine;
  canonical : Engine -> R * Engine
}.

(** [generate_canonical] returns a value of [[0, 1)]. *)
Definition canonical_unit (L : RandomLib) : Prop :=
  forall e : Engine L, 0 <= fst (canonical L e) < 1.

(** A [std::normal_distribution<double>] object: its two parameters and its
    saved state. *)
Record NormalDist (L : RandomLib) : Type := mkNormalDist {
  nd_mean : R;
  nd_stddev : R;
  nd_state : NormalState L
}.
Arguments mkNormalDist {L} _ _ _.
Arguments nd_mean {L} _.
Arguments nd_stddev {L} _.
Arguments nd_state {L} _.

(** [normal_distribution<double> d(mean, stddev);] *)
Definition normal_distribution {L : RandomLib} (mean stddev : R) : NormalDist L :=
  mkNormalDist mean stddev (normal_fresh L).

(** [d(randGen)]: the deviate times [stddev] plus [mean], as libstdc++ and
    libc++ compute it; the distribution and the engine both advance. *)
Definition draw {L : RandomLib} (d : NormalDist L) (e : Engine L)
    : R * NormalDist L * Engine L :=
  let '(z, s, e') := std_normal L (nd_state d) e in
  (z * nd_stddev d + nd_mean d, mkNormalDist (nd_mean d) (nd_stddev d) s, e').

(** The three distributions and the engine a call of [init] or [prediction]
    declares. *)
Record Noise (L : RandomLib) : Type := mkNoise {
  randGen : Engine L;
  dist_x : NormalDist L;
  dist_y : NormalDist L;
  dist_theta : NormalDist L
}.
Arguments mkNoise {L} _ _ _ _.
Arguments randGen {L} _.
Arguments dist_x {L} _.
Arguments dist_y {L} _.
Arguments dist_theta {L} _.

(** [dist_x(randGen)], [dist_y(randGen)], [dist_theta(randGen)] in this
    order: the three values and the advanced objects. *)
Definition draw3 {L : RandomLib} (ns : Noise L) : (R * R * R) * Noise L :=
  let '(nx, dx, e1) := draw (dist_x ns) (randGen ns) in
  let '(ny, dy, e2) := draw (dist_y ns) e1 in
  let '(nt, dt, e3) := draw (dist_theta ns) e2 in
  ((nx, ny, nt), mkNoise e3 dx dy dt).

(** The declarations that open [init] and [prediction]. *)
Definition fresh_noise {L : RandomLib} (mx my mt : R) (sx sy st : R) : Noise L :=
  mkNoise (default_engine L) (normal_distribution mx sx)
          (normal_distribution my sy) (normal_distribution mt st).

(** [std::discrete_distribution<int>(first, last)]: the cumulative
    probabilities, each partial sum of the weights over their total. *)
Fixpoint cumulative (total acc : R) (ws : list R) : list R :=
  match ws with
  | [] => []
  | w :: ws' => (acc + w) / total :: cumulative total (acc + w) ws'
  end.

Definition sum_list (ws : list R) : R := fold_right Rplus 0 ws.

(** The index of the first cumulative probability above [u]
    ([std::upper_bound] over the cumulative probabilities). *)
Fixpoint upper_bound (u : R) (cp : list R) : nat :=
  match cp with
  | [] => O
  | c :: cp' => if Rlt_dec u c then O else S (upper_bound u cp')
  end.

(** [particleDistr(gen)]: one uniform deviate, inverted through the
    cumulative probabilities. *)
Definition discrete_draw {L : RandomLib} (ws : list R) (e : Engine L)
    : nat * Engine L :=
  let '(u, e') := canonical L e in
  (upper_bound u (cumulative (sum_list ws) 0 ws), e').

(** ** The filter engine *)

Section Engine.

Context {L : RandomLib}.

(** One trip of the loop of [init]: a new particle from three draws, with
    weight 1 and identity [n], pushed at the back.  A default-constructed
    [Particle] has empty vectors. *)
Definition init_body (n : nat) (st : list Particle * Noise L)
    : option (list Particle * Noise L) :=
  let '((nx, ny, nt), ns) := draw3 (snd st) in
  let newParticle :=
    {| p_id := Z.of_nat n; p_x := nx; p_y := ny; p_theta := nt;
       p_weight := 1; p_associations := []; p_sense_x := [];
       p_sense_y := [] |} in
  Some (fst st ++ [newParticle], ns).

(** [ParticleFilter::init(x, y, theta, std)]. *)
Definition init (x y theta : R) (std : list R) (pf : ParticleFilter)
    : option ParticleFilter :=
  let num := 100%Z in
  s0 ← std !! 0%nat; s1 ← std !! 1%nat; s2 ← std !! 2%nat;
  st ← for_upto (Z.to_nat num) init_body
         (particles pf, fresh_noise x y theta s0 s1 s2);
  Some {| num_particles := num; is_initialized := true;
          particles := fst st |}.

(** The motion model of [prediction] on one particle, given the three noise
    values in the order they are drawn.  [abs(yaw_rate)] is the [double]
    overload that [<math.h>] declares in C++, the absolute value. *)
Definition move (delta_t velocity yaw_rate : R) (nz : R * R * R)
    (p : Particle) : Particle :=
  let '(nx, ny, nt) := nz in
  if Rgt_dec (Rabs yaw_rate) 0.0001 then
    set_pose p
      (p_x p + (velocity / yaw_rate
                * (sin (p_theta p + yaw_rate * delta_t) - sin (p_theta p))
                + nx))
      (p_y p + (velocity / yaw_rate
                * (- cos (p_theta p + yaw_rate * delta_t) + cos (p_theta p))
                + ny))
      (p_theta p + (yaw_rate * delta_t + nt))
  else
    set_pose p
      (p_x p + (velocity * cos (p_theta p) * delta_t + nx))
      (p_y p + (velocity * sin (p_theta p) * delta_t + ny))
      (p_theta p + (yaw_rate * delta_t + nt)).

(** One trip of the loop of [prediction]: [particles[n]] is read and
    written back. *)
Definition prediction_body (delta_t velocity yaw_rate : R) (n : nat)
    (st : list Particle * Noise L) : option (list Particle * Noise L) :=
  p ← fst st !! n;
  let '(nz, ns) := draw3 (snd st) in
  Some (<[n := move delta_t velocity yaw_rate nz p]> (fst st), ns).

(** [ParticleFilter::prediction(delta_t, std_pos, velocity, yaw_rate)]. *)
Definition prediction (delta_t : R) (std_pos : list R) (velocity yaw_rate : R)
    (pf : ParticleFilter) : option ParticleFilter :=
  s0 ← std_pos !! 0%nat; s1 ← std_pos !! 1%nat; s2 ← std_pos !! 2%nat;
  st ← for_upto (trips pf) (prediction_body delta_t velocity yaw_rate)
         (particles pf, fresh_noise 0 0 0 s0 s1 s2);
  Some (set_particles pf (fst st)).

(** The first loop of [resample]: the weights of the first [num_particles]
    particles. *)
Definition weights_body (ps : list Particle) (n : nat) (weights : list R)
    : option (list R) :=
  p ← ps !! n; Some (weights ++ [p_weight p]).

(** The second loop of [resample]: one index drawn, that particle copied to
    the back of [newParticles]. *)
Definition resample_body (ps : list Particle) (weights : list R) (n : nat)
    (st : list Particle * Engine L) : option (list Particle * Engine L) :=
  let '(pIdx, gen) := discrete_draw weights (snd st) in
  p ← ps !! pIdx;
  Some (fst st ++ [p], gen).

(** [ParticleFilter::resample()]. *)
Definition resample (pf : ParticleFilter) : option ParticleFilter :=
  weights ← for_upto (trips pf) (weights_body (particles pf)) [];
  st ← for_upto (trips pf) (resample_body (particles pf) weights)
         ([], default_engine L);
  Some (set_particles pf (fst st)).

End Engine.

Arguments init : clear implicits.
Arguments prediction : clear implicits.
Arguments resample : clear implicits.

(** ** Weighting *)

Section Weights.

Variable unset : LandmarkObs.

(** The search [for (auto pred_LM : predictedLandMarks)] with its [break]:
    the first entry with identity [lmId], or the local as it was. *)
Fixpoint find_match (lmId : Z) (predictedLandMarks : list LandmarkObs)
    (pred_LM_match : LandmarkObs) : LandmarkObs :=
  match predictedLandMarks with
  | [] => pred_LM_match
  | pred_LM :: rest =>
      if Z.eqb lmId (o_id pred_LM) then pred_LM
      else find_match lmId rest pred_LM_match
  end.

(** One trip of the loop of [CalculateParticleWeight]. *)
Definition weight_body (particle : Particle) (std_landmark : list R)
    (predictedLandMarks : list LandmarkObs) (n : nat) (weight : R)
    : option R :=
  lmId ← p_associations particle !! n;
  let pred_LM_match := find_match lmId predictedLandMarks unset in
  s0 ← std_landmark !! 0%nat; s1 ← std_landmark !! 1%nat;
  sx ← p_sense_x particle !! n;
  sy ← p_sense_y particle !! n;
  Some (weight * multiv_prob s0 s1 sx sy (o_x pred_LM_match) (o_y pred_LM_match)).

(** [ParticleFilter::CalculateParticleWeight]. *)
Definition CalculateParticleWeight (particle : Particle)
    (std_landmark : list R) (predictedLandMarks : list LandmarkObs)
    : option Particle :=
  weight ← for_upto (length (p_associations particle))
             (weight_body particle std_landmark predictedLandMarks) 1;
  Some (set_weight particle weight).

(** The observation loop of [updateWeights]: one observation rotated by the
    particle's heading and translated by its position, pushed at the back. *)
Definition to_map (p : Particle) (acc : list LandmarkObs) (obs : LandmarkObs)
    : list LandmarkObs :=
  acc ++ [ {| o_id := o_id obs;
              o_x := p_x p + cos (p_theta p) * o_x obs - sin (p_theta p) * o_y obs;
              o_y := p_y p + sin (p_theta p) * o_x obs + cos (p_theta p) * o_y obs |} ].

Definition observations_mapCoordinates (p : Particle)
    (observations : list LandmarkObs) : list LandmarkObs :=
  fold_left (to_map p) observations [].

(** The landmark loop of [updateWeights]: a landmark is pushed when its
    distance to the particle is below [sensor_range]. *)
Definition in_range (sensor_range : R) (p : Particle)
    (acc : list LandmarkObs) (landmark : single_landmark_s)
    : list LandmarkObs :=
  let lm := {| o_id := id_i landmark; o_x := x_f landmark;
               o_y := y_f landmark |} in
  let d := dist (o_x lm) (o_y lm) (p_x p) (p_y p) in
  if Rlt_dec d sensor_range then acc ++ [lm] else acc.

Definition predictedLMs (sensor_range : R) (p : Particle)
    (map_landmarks : Map) : list LandmarkObs :=
  fold_left (in_range sensor_range p) (landmark_list map_landmarks) [].

(** The copy loop of [updateWeights], after the three [clear()]. *)
Definition copy_obs (p : Particle) (obs : LandmarkObs) : Particle :=
  set_sensed p (p_associations p ++ [o_id obs])
    (p_sense_x p ++ [o_x obs]) (p_sense_y p ++ [o_y obs]).

Definition record_obs (p : Particle) (obs : list LandmarkObs) : Particle :=
  fold_left copy_obs obs (set_sensed p [] [] []).

(** One trip of the particle loop of [updateWeights]. *)
Definition score_body (sensor_range : R) (std_landmark : list R)
    (observations : list LandmarkObs) (map_landmarks : Map) (n : nat)
    (ps : list Particle) : option (list Particle) :=
  p ← ps !! n;
  let obs_map := observations_mapCoordinates p observations in
  let preds := predictedLMs sensor_range p map_landmarks in
  let obs_map := dataAssociation unset preds obs_map in
  let p := record_obs p obs_map in
  p ← CalculateParticleWeight p std_landmark preds;
  Some (<[n := p]> ps).

(** The summation loop of the normalisation. *)
Definition sum_body (ps : list Particle) (n : nat) (sum : R) : option R :=
  p ← ps !! n; Some (sum + p_weight p).

(** The division loop of the normalisation. *)
Definition divide_body (sum : R) (n : nat) (ps : list Particle)
    : option (list Particle) :=
  p ← ps !! n; Some (<[n := set_weight p (p_weight p / sum)]> ps).

(** The tail of [updateWeights], from [// Normalize weights]. *)
Definition normalize (count : nat) (ps : list Particle)
    : option (list Particle) :=
  sum ← for_upto count (sum_body ps) 0;
  if Rgt_dec sum 1e-5 then for_upto count (divide_body sum) ps
  else Some ps.

(** The particle loop of [updateWeights], before the normalisation. *)
Definition score_all (sensor_range : R) (std_landmark : list R)
    (observations : list LandmarkObs) (map_landmarks : Map)
    (pf : ParticleFilter) : option (list Particle) :=
  for_upto (trips pf)
    (score_body sensor_range std_landmark observations map_landmarks)
    (particles pf).

(** [ParticleFilter::updateWeights(sensor_range, std_landmark, observations,
    map_landmarks)]. *)
Definition updateWeights (sensor_range : R) (std_landmark : list R)
    (observations : list LandmarkObs) (map_landmarks : Map)
    (pf : ParticleFilter) : option ParticleFilter :=
  ps ← score_all sensor_range std_landmark observations map_landmarks pf;
  ps ← normalize (trips pf) ps;
  Some (set_particles pf ps).

End Weights.

(** ** A concrete random library *)

(** An instance to run the operations on: the recurrence of [minstd_rand0]
    (the default engine of libstdc++) from its default seed 1, one engine
    word per deviate.  The stand-in for the normal deviate is the uniform
    word rescaled to [[-1, 1)]. *)
Definition lehmer (e : Z) : Z := (16807 * e) mod 2147483647.

Definition unit_of (e : Z) : R := IZR (e mod 2147483647) / 2147483647.

Definition lehmer_lib : RandomLib :=
  {| Engine := Z;
     default_engine := 1%Z;
     NormalState := unit;
     normal_fresh := tt;
     std_normal := fun _ e => (2 * unit_of (lehmer e) - 1, tt, lehmer e);
     canonical := fun e => (unit_of (lehmer e), lehmer e) |}.

(** ** What the specification says, as predicates *)

(** The distance the resolver compares: from a predicted entry to an
    observation. *)
Definition dto (obs pred : LandmarkObs) : R :=
  dist (o_x pred) (o_y pred) (o_x obs) (o_y obs).

(** [p], at index [i] of [predicted], is the first entry at the least
    distance to [obs]. *)
Definition first_nearest (predicted : list LandmarkObs) (obs : LandmarkObs)
    (i : nat) (p : LandmarkObs) : Prop :=
  predicted !! i = Some p /\
  (forall q, q ∈ predicted -> dto obs p <= dto obs q) /\
  (forall j q, (j < i)%nat -> predicted !! j = Some q -> dto obs p < dto obs q).

(** Every observation leaves the resolver with its coordinates and with the
    identity of the first nearest predicted entry. *)
Definition assigns_nearest (unset : LandmarkObs)
    (predicted observations : list LandmarkObs) : Prop :=
  forall k obs, observations !! k = Some obs ->
    exists i p, first_nearest predicted obs i p /\
      dataAssociation unset predicted observations !! k
        = Some (set_obs_id obs (o_id p)).

(** C1 as the specification states it, the count being the only one a caller can
    set, the filter's [num_particles]: from an empty population [init]
    leaves [N] particles of weight 1 with identities [0 .. N-1]. *)
Definition init_yields_count (L : RandomLib) (N : Z) : Prop :=
  forall x y theta std pf pf',
    num_particles pf = N -> particles pf = [] ->
    init L x y theta std pf = Some pf' ->
    length (particles pf') = Z.to_nat N /\
    forall i p, particles pf' !! i = Some p ->
      p_id p = Z.of_nat i /\ p_weight p = 1.

(** The filter's count is the size of its population, as [init] leaves a
    fresh filter. *)
Definition population_ok (pf : ParticleFilter) : Prop :=
  trips pf = length (particles pf).

(** A map landmark as a [LandmarkObs], and the range test, as a boolean. *)
Definition landmark_obs (landmark : single_landmark_s) : LandmarkObs :=
  {| o_id := id_i landmark; o_x := x_f landmark; o_y := y_f landmark |}.

Definition within (sensor_range : R) (p : Particle) (lm : LandmarkObs) : bool :=
  if Rlt_dec (dist (o_x lm) (o_y lm) (p_x p) (p_y p)) sensor_range
  then true else false.

(** C3 in the spec's words: the rotation by [theta] with matrix
    [[cos, -sin], [sin, cos]], then the translation by [(x, y)]. *)
Definition rotate (th : R) (v : R * R) : R * R :=
  (cos th * fst v - sin th * snd v, sin th * fst v + cos th * snd v).

Definition translate (t : R * R) (v : R * R) : R * R :=
  (fst t + fst v, snd t + snd v).

Definition local_to_map (p : Particle) (obs : LandmarkObs) : R * R :=
  translate (p_x p, p_y p) (rotate (p_theta p) (o_x obs, o_y obs)).

(** One trip of the particle loop of [updateWeights], as a function of the
    particle it reads: change of frame, candidates, association, copy,
    weight. *)
Definition scored (unset : LandmarkObs) (sensor_range : R)
    (std_landmark : list R) (observations : list LandmarkObs)
    (map_landmarks : Map) (p : Particle) : option Particle :=
  let preds := predictedLMs sensor_range p map_landmarks in
  CalculateParticleWeight unset
    (record_obs p
       (dataAssociation unset preds (observations_mapCoordinates p observations)))
    std_landmark preds.

(** The sum the normalisation computes over the first [count] particles, in
    the order of its loop. *)
Definition weight_sum (count : nat) (ps : list Particle) : R :=
  fold_left Rplus (map p_weight (take count ps)) 0.

(** The division of the normalisation on one particle. *)
Definition scaled (sum : R) (p : Particle) : Particle :=
  set_weight p (p_weight p / sum).

(** C4 in the spec's words: the noise-free kinematic model on one particle,
    the curved path above the threshold on the yaw rate, the straight line
    at or below it. *)
Definition kinematic (delta_t velocity yaw_rate : R) (p : Particle) : Particle :=
  if Rgt_dec (Rabs yaw_rate) 0.0001 then
    set_pose p
      (p_x p + velocity / yaw_rate
               * (sin (p_theta p + yaw_rate * delta_t) - sin (p_theta p)))
      (p_y p + velocity / yaw_rate
               * (- cos (p_theta p + yaw_rate * delta_t) + cos (p_theta p)))
      (p_theta p + yaw_rate * delta_t)
  else
    set_pose p
      (p_x p + velocity * cos (p_theta p) * delta_t)
      (p_y p + velocity * sin (p_theta p) * delta_t)
      (p_theta p + yaw_rate * delta_t).

(** The three distributions have mean 0 and standard deviation 0. *)
Definition zero_noise {L : RandomLib} (ns : Noise L) : Prop :=
  (nd_mean (dist_x ns) = 0 /\ nd_stddev (dist_x ns) = 0) /\
  (nd_mean (dist_y ns) = 0 /\ nd_stddev (dist_y ns) = 0) /\
  (nd_mean (dist_theta ns) = 0 /\ nd_stddev (dist_theta ns) = 0).

(** The distributions and engine of a call after [k] trips of its loop, and
    the three noise values of trip [n]: functions of the library and of the
    standard deviations alone. *)
Fixpoint noise_after {L : RandomLib} (k : nat) (ns : Noise L) : Noise L :=
  match k with
  | O => ns
  | S k' => snd (draw3 (noise_after k' ns))
  end.

Definition prediction_noise (L : RandomLib) (std_pos : list R) (n : nat)
    : R * R * R :=
  fst (draw3 (noise_after n
         (@fresh_noise L 0 0 0 (nth 0 std_pos 0) (nth 1 std_pos 0)
            (nth 2 std_pos 0)))).

(** The engine of a call of [resample] after [k] draws, the uniform deviate
    of draw [n], and the index it selects among the weights [ws]. *)
Fixpoint engine_after (L : RandomLib) (k : nat) : Engine L :=
  match k with
  | O => default_engine L
  | S k' => snd (canonical L (engine_after L k'))
  end.

Definition uniform_at (L : RandomLib) (n : nat) : R :=
  fst (canonical L (engine_after L n)).

Definition drawn_index (L : RandomLib) (ws : list R) (n : nat) : nat :=
  upper_bound (uniform_at L n) (cumulative (sum_list ws) 0 ws).

(** The weight [CalculateParticleWeight] computes, as a product over the
    three parallel vectors in loop order: each association contributes the
    density of its sensed point against the candidate [find_match]
    returns for it. *)
Fixpoint weight_product (unset : LandmarkObs) (s0 s1 : R)
    (predictedLandMarks : list LandmarkObs) (associations : list Z)
    (sense_x sense_y : list R) (weight : R) : R :=
  match associations, sense_x, sense_y with
  | lmId :: associations', sx :: sense_x', sy :: sense_y' =>
      let m := find_match lmId predictedLandMarks unset in
      weight_product unset s0 s1 predictedLandMarks associations' sense_x'
        sense_y' (weight * multiv_prob s0 s1 sx sy (o_x m) (o_y m))
  | _, _, _ => weight
  end.

(** The identities [updateWeights] records in a particle: those the
    resolver gives the observations taken to the particle's map frame. *)
Definition associations_of (unset : LandmarkObs) (sensor_range : R)
    (observations : list LandmarkObs) (map_landmarks : Map) (p : Particle)
    : list Z :=
  map o_id
    (dataAssociation unset (predictedLMs sensor_range p map_landmarks)
       (observations_mapCoordinates p observations)).

(** What [prediction] writes and [updateWeights] reads of a particle, and
    what [updateWeights] writes. *)
Definition pose (p : Particle) : R * R * R := (p_x p, p_y p, p_theta p).

Definition bookkeeping (p : Particle) : R * list Z * list R * list R :=
  (p_weight p, p_associations p, p_sense_x p, p_sense_y p).

(** The population [updateWeights] leaves, given the one its particle loop
    left. *)
Definition normalized (count : nat) (ps : list Particle) : list Particle :=
  if Rgt_dec (weight_sum count ps) 1e-5
  then map (scaled (weight_sum count ps)) ps else ps.

(** ** Reporting accessors *)

(** [ParticleFilter::SetAssociations]: the three vectors of the particle
    are overwritten with the given ones; nothing is checked. *)
Definition SetAssociations (particle : Particle) (associations : list Z)
    (sense_x sense_y : list R) : Particle :=
  set_sensed particle associations sense_x sense_y.

Module Reporting.

Import Ascii String.
Local Open Scope string_scope.

(** [ss << i] for an [int], with the default flags: the decimal digits,
    a minus sign before a negative number. *)
Definition show_int (i : Z) : string :=
  DecimalString.NilZero.string_of_int (Z.to_int i).

(** [copy(v.begin(), v.end(), std::ostream_iterator<T>(ss, " "))] on an
    empty stream: every element, each followed by one space. *)
Definition stream {A : Type} (show : A -> string) (v : list A) : string :=
  fold_left (fun ss a => ss ++ show a ++ " ") v "".

(** [s.substr(0, count)]: the first [count] characters, all of them when
    [count] exceeds the size. *)
Definition substr0 (s : string) (count : Z) : string :=
  substring 0 (Z.to_nat (Z.min count (Z.of_nat (String.length s)))) s.

(** [s.substr(0, s.length()-1)]: [length()] is a 64-bit [size_t], so the
    subtraction wraps around on the empty string. *)
Definition drop_trailing (s : string) : string :=
  substr0 s ((Z.of_nat (String.length s) - 1) mod 2 ^ 64).

(** [ParticleFilter::getAssociations]. *)
Definition getAssociations (best : Particle) : string :=
  drop_trailing (stream show_int (p_associations best)).

(** [ParticleFilter::getSenseCoord]; [show_float] is [ss << f] for the
    [float] every coordinate is converted to, which the C++ library
    formats. *)
Definition getSenseCoord (show_float : R -> string) (best : Particle)
    (coord : string) : string :=
  let v := if String.eqb coord "X" then p_sense_x best else p_sense_y best in
  drop_trailing (stream show_float v).

(** A string without a space character. *)
Fixpoint space_free (s : string) : Prop :=
  match s with
  | EmptyString => True
  | String c s' => c <> " "%char /\ space_free s'
  end.

End Reporting.

(** * Properties *)

(** ** Counted loops *)

Lemma for_upto_0 {S : Type} (body : nat -> S -> option S) (s : S) :
  for_upto 0 body s = Some s.
Proof. reflexivity. Qed.

Lemma for_upto_S {S : Type} (n : nat) (body : nat -> S -> option S) (s : S) :
  for_upto (Datatypes.S n) body s = for_upto n body s ≫= body n.
Proof.
  unfold for_upto. rewrite seq_S, fold_left_app. reflexivity.
Qed.

(** ** The association resolver *)

Lemma dist_horizontal (x1 x2 y : R) : dist x1 y x2 y = Rabs (x2 - x1).
Proof.
  unfold dist.
  replace ((x2 - x1) * (x2 - x1) + (y - y) * (y - y)) with (Rsqr (x2 - x1))
    by (unfold Rsqr; ring).
  apply sqrt_Rsqr_abs.
Qed.

(** The inner loop either keeps the values it started from, when no entry
    is below the starting [minDist], or ends on the first nearest entry. *)
Lemma scan_spec (obs : LandmarkObs) (predicted : list LandmarkObs) :
  forall st : R * LandmarkObs,
    (scan obs predicted st = st /\
     forall q, q ∈ predicted -> fst st <= dto obs q)
    \/
    (exists i p, first_nearest predicted obs i p /\ dto obs p < fst st /\
       scan obs predicted st = (dto obs p, p)).
Proof.
  induction predicted as [|a l IH]; intros st.
  - left. split; [reflexivity|]. intros q Hq. inversion Hq.
  - unfold scan in *. cbn [fold_left].
    change (scan_step obs st a)
      with (if Rlt_dec (dto obs a) (fst st) then (dto obs a, a) else st).
    destruct (Rlt_dec (dto obs a) (fst st)) as [Hlt|Hge].
    + right. destruct (IH (dto obs a, a)) as [[Heq Hall]|(i & p & Hfn & Hd & Heq)].
      * exists 0%nat, a. cbn [fst] in Hall. split; [|split; [exact Hlt|exact Heq]].
        split; [reflexivity|]. split.
        -- intros q Hq. apply elem_of_cons in Hq as [->|Hq]; [lra|auto].
        -- intros j q Hj. lia.
      * cbn [fst] in Hd. destruct Hfn as (Hi & Hmin & Hfirst).
        exists (S i), p. split; [|split; [lra|exact Heq]].
        split; [exact Hi|]. split.
        -- intros q Hq. apply elem_of_cons in Hq as [->|Hq]; [lra|auto].
        -- intros [|j] q Hj Hq; cbn in Hq.
           ++ injection Hq as <-. exact Hd.
           ++ apply (Hfirst j); [lia|exact Hq].
    + destruct (IH st) as [[Heq Hall]|(i & p & Hfn & Hd & Heq)].
      * left. split; [exact Heq|].
        intros q Hq. apply elem_of_cons in Hq as [->|Hq]; [lra|auto].
      * right. destruct Hfn as (Hi & Hmin & Hfirst).
        exists (S i), p. split; [|split; [exact Hd|exact Heq]].
        split; [exact Hi|]. split.
        -- intros q Hq. apply elem_of_cons in Hq as [->|Hq]; [lra|auto].
        -- intros [|j] q Hj Hq; cbn in Hq.
           ++ injection Hq as <-. lra.
           ++ apply (Hfirst j); [lia|exact Hq].
Qed.

Lemma dataAssociation_lookup (unset : LandmarkObs)
    (predicted observations : list LandmarkObs) (k : nat) :
  dataAssociation unset predicted observations !! k
  = associate unset predicted <$> observations !! k.
Proof. unfold dataAssociation. apply list_lookup_fmap. Qed.

(** When some predicted entry lies below the sentinel distance 9.9e50 of
    every observation, each observation leaves
    [dataAssociation] with the identity of the predicted entry at the least
    distance to it, the first such entry in scan order when several are at
    that distance; its coordinates are unchanged and the list keeps its
    length. *)
Theorem dataAssociation_first_nearest (unset : LandmarkObs)
    (predicted observations : list LandmarkObs) :
  (forall obs, obs ∈ observations ->
     exists q, q ∈ predicted /\ dto obs q < minDist0) ->
  assigns_nearest unset predicted observations /\
  length (dataAssociation unset predicted observations) = length observations.
Proof.
  intros Hnear. split.
  - intros k obs Hk.
    destruct (Hnear obs) as (q & Hq & Hlt).
    { apply list_elem_of_lookup. eauto. }
    rewrite dataAssociation_lookup, Hk. cbn. unfold associate.
    destruct (scan_spec obs predicted (minDist0, unset))
      as [[_ Hall]|(i & p & Hfn & _ & Heq)].
    + specialize (Hall q Hq). cbn [fst] in Hall. lra.
    + exists i, p. split; [exact Hfn|]. rewrite Heq. reflexivity.
  - unfold dataAssociation. apply length_map.
Qed.

(** Not every non-empty predicted set is scanned to its nearest entry:
    a single predicted entry 1e51 away
    is never selected, and the observation gets the identity of the local
    that was never assigned. *)
Lemma dataAssociation_far_entry_missed :
  ~ (forall unset predicted observations,
       predicted <> [] -> assigns_nearest unset predicted observations).
Proof.
  intros H.
  pose (junk := mkLandmarkObs (-1) 0 0).
  pose (far := mkLandmarkObs 7 1e51 0).
  pose (origin := mkLandmarkObs 0 0 0).
  assert (Hd : dto origin far = 1e51).
  { unfold dto, far, origin. cbn [o_x o_y].
    rewrite dist_horizontal, Rabs_left by lra. lra. }
  assert (Ha : associate junk [far] origin = set_obs_id origin (-1)).
  { unfold associate, scan. cbn [fold_left].
    change (scan_step origin (minDist0, junk) far)
      with (if Rlt_dec (dto origin far) minDist0
            then (dto origin far, far) else (minDist0, junk)).
    rewrite Hd. unfold minDist0.
    destruct (Rlt_dec 1e51 9.9e50) as [Hlt|_]; [lra|reflexivity]. }
  destruct (H junk [far] [origin] ltac:(discriminate) 0%nat origin eq_refl)
    as (i & p & (Hi & _ & _) & Hres).
  destruct i as [|i]; [|discriminate Hi].
  injection Hi as <-.
  rewrite dataAssociation_lookup in Hres.
  change ([origin] !! 0%nat) with (Some origin) in Hres.
  cbn [fmap option_fmap option_map] in Hres. rewrite Ha in Hres.
  discriminate Hres.
Qed.

(** With an empty predicted set [dataAssociation] returns, and every
    observation leaves it with its coordinates and with the identity of the
    never-assigned [bestFit]. *)
Theorem dataAssociation_empty (unset : LandmarkObs)
    (observations : list LandmarkObs) :
  dataAssociation unset [] observations
  = map (fun obs => set_obs_id obs (o_id unset)) observations.
Proof.
  unfold dataAssociation. apply map_ext. intros obs. reflexivity.
Qed.

(** A tie: two predicted entries at distance 1 on either side of the
    observation; the first scanned one gives its identity. *)
Lemma dataAssociation_first_nearest_witness :
  dataAssociation (mkLandmarkObs (-1) 0 0)
    [mkLandmarkObs 1 1 0; mkLandmarkObs 2 (-1) 0] [mkLandmarkObs 0 0 0]
    !! 0%nat
  = Some (set_obs_id (mkLandmarkObs 0 0 0) 1).
Proof.
  pose (junk := mkLandmarkObs (-1) 0 0).
  pose (east := mkLandmarkObs 1 1 0).
  pose (west := mkLandmarkObs 2 (-1) 0).
  pose (origin := mkLandmarkObs 0 0 0).
  assert (He : dto origin east = 1).
  { unfold dto, east, origin. cbn [o_x o_y].
    rewrite dist_horizontal, Rabs_left by lra. lra. }
  assert (Hw : dto origin west = 1).
  { unfold dto, west, origin. cbn [o_x o_y].
    rewrite dist_horizontal, Rabs_right by lra. lra. }
  destruct (dataAssociation_first_nearest junk [east; west] [origin])
    as [Hn _].
  { intros obs Hobs. apply list_elem_of_singleton in Hobs as ->.
    exists east. split; [left|]. rewrite He. unfold minDist0. lra. }
  destruct (Hn 0%nat origin eq_refl) as (i & p & (Hi & _ & Hfirst) & Hres).
  destruct i as [|[|i]].
  - injection Hi as <-. exact Hres.
  - injection Hi as <-.
    specialize (Hfirst 0%nat east ltac:(lia) eq_refl). lra.
  - discriminate Hi.
Defined.

(** ** A loop rule *)

(** A counted loop whose body preserves an invariant indexed by the trip
    number returns, and its final state satisfies the invariant at the trip
    count. *)
Lemma for_upto_inv {S : Type} (I : nat -> S -> Prop) (count : nat)
    (body : nat -> S -> option S) (s : S) :
  I 0%nat s ->
  (forall k st, (k < count)%nat -> I k st ->
     exists st', body k st = Some st' /\ I (Datatypes.S k) st') ->
  exists st', for_upto count body s = Some st' /\ I count st'.
Proof.
  intros H0 Hstep. induction count as [|n IH].
  - exists s. split; [reflexivity|exact H0].
  - destruct IH as (st & Hrun & Hst).
    { intros k st Hk. apply Hstep. lia. }
    destruct (Hstep n st ltac:(lia) Hst) as (st' & Hbody & Hst').
    exists st'. split; [|exact Hst'].
    rewrite for_upto_S, Hrun. exact Hbody.
Qed.

(** ** Initialisation *)

Section InitProperties.

Context {L : RandomLib}.

(** After [k] trips the loop of [init] has pushed [k] particles of weight 1
    whose identities are their positions. *)
Lemma init_loop (k : nat) (ps0 : list Particle) (ns0 : Noise L) :
  exists st, for_upto k init_body (ps0, ns0) = Some st /\
    exists news, fst st = ps0 ++ news /\ length news = k /\
      forall i p, news !! i = Some p ->
        p_id p = Z.of_nat i /\ p_weight p = 1.
Proof.
  apply (for_upto_inv
    (fun k (st : list Particle * Noise L) =>
       exists news, fst st = ps0 ++ news /\ length news = k /\
         forall i p, news !! i = Some p ->
           p_id p = Z.of_nat i /\ p_weight p = 1)).
  - exists []. rewrite app_nil_r. split; [reflexivity|].
    split; [reflexivity|]. intros i p Hi. destruct i; discriminate Hi.
  - intros n st _ (news & Hfst & Hlen & Hall).
    unfold init_body.
    destruct (draw3 (snd st)) as [[[nx ny] nt] ns].
    eexists. split; [reflexivity|].
    exists (news ++ [mkParticle (Z.of_nat n) nx ny nt 1 [] [] []]).
    cbn [fst]. rewrite Hfst, <- app_assoc. split; [reflexivity|].
    split; [rewrite length_app; cbn; lia|].
    intros i p Hi.
    destruct (Nat.lt_ge_cases i (length news)) as [Hlt|Hge].
    + rewrite lookup_app_l in Hi by exact Hlt. apply Hall, Hi.
    + rewrite lookup_app_r in Hi by exact Hge.
      destruct (i - length news)%nat as [|j] eqn:Hj; [|destruct j; discriminate Hi].
      injection Hi as <-. cbn. split; [f_equal; lia|reflexivity].
Qed.

(** What a call of [init] does, whatever the population it starts from. *)
Lemma init_appends (x y theta : R) (std : list R) (pf : ParticleFilter) :
  (3 <= length std)%nat ->
  exists pf', init L x y theta std pf = Some pf' /\
    num_particles pf' = 100%Z /\ is_initialized pf' = true /\
    exists news, particles pf' = particles pf ++ news /\
      length news = 100%nat /\
      forall i p, news !! i = Some p ->
        p_id p = Z.of_nat i /\ p_weight p = 1.
Proof.
  intros Hstd.
  destruct std as [|s0 [|s1 [|s2 rest]]]; cbn in Hstd; try lia.
  unfold init. cbn [lookup list_lookup mbind option_bind].
  destruct (init_loop (Z.to_nat 100) (particles pf)
              (fresh_noise x y theta s0 s1 s2)) as (st & Hrun & Hnews).
  rewrite Hrun. cbn [mbind option_bind].
  eexists. split; [reflexivity|]. cbn [num_particles is_initialized particles].
  split; [reflexivity|]. split; [reflexivity|exact Hnews].
Qed.

End InitProperties.

(** C1, as the code has it: [init] takes no particle count; given the three
    standard deviations it returns, sets the count to 100 and, from an empty
    population, leaves exactly 100 particles, each of weight 1, the particle
    at position [i] with identity [i]; the filter is then initialised. *)
Theorem init_hundred_particles (L : RandomLib) (x y theta : R)
    (std : list R) (pf : ParticleFilter) :
  (3 <= length std)%nat -> particles pf = [] ->
  exists pf', init L x y theta std pf = Some pf' /\
    num_particles pf' = 100%Z /\ is_initialized pf' = true /\
    length (particles pf') = 100%nat /\
    forall i p, particles pf' !! i = Some p ->
      p_id p = Z.of_nat i /\ p_weight p = 1.
Proof.
  intros Hstd Hempty.
  destruct (@init_appends L x y theta std pf Hstd)
    as (pf' & Hrun & Hnum & Hinit & news & Hps & Hlen & Hall).
  exists pf'. rewrite Hempty in Hps. cbn in Hps. rewrite Hps.
  repeat split; try assumption; apply (Hall i p); assumption.
Qed.

(** C1 on a fresh filter, with the concrete engine. *)
Lemma init_hundred_particles_witness :
  exists pf', init lehmer_lib 4 5 0 [2; 2; 0.05] (mkFilter 0 false [])
              = Some pf' /\
    num_particles pf' = 100%Z /\ is_initialized pf' = true /\
    length (particles pf') = 100%nat /\
    forall i p, particles pf' !! i = Some p ->
      p_id p = Z.of_nat i /\ p_weight p = 1.
Proof.
  apply (init_hundred_particles lehmer_lib 4 5 0 [2; 2; 0.05]
           (mkFilter 0 false [])).
  - cbn. lia.
  - reflexivity.
Defined.

(** C1, as the specification states it, fails: a filter whose count is 5 comes out
    of [init] with 100 particles. *)
Lemma init_ignores_count :
  ~ (forall N : Z, (0 < N)%Z -> init_yields_count lehmer_lib N).
Proof.
  intros H.
  destruct (@init_appends lehmer_lib 0 0 0 [1; 1; 1] (mkFilter 5 false []))
    as (pf' & Hrun & _ & _ & news & Hps & Hlen & _).
  { cbn. lia. }
  destruct (H 5%Z ltac:(lia) 0 0 0 [1; 1; 1] (mkFilter 5 false []) pf'
              eq_refl eq_refl Hrun) as [Hfive _].
  rewrite Hps in Hfive. cbn [particles app] in Hfive.
  rewrite Hlen in Hfive. discriminate Hfive.
Qed.

(** ** Candidate landmarks and the change of frame *)

Lemma in_range_fold (sensor_range : R) (p : Particle)
    (landmarks : list single_landmark_s) :
  forall acc,
    fold_left (in_range sensor_range p) landmarks acc
    = acc ++ List.filter (within sensor_range p) (map landmark_obs landmarks).
Proof.
  induction landmarks as [|a l IH]; intros acc; cbn [fold_left map List.filter].
  - symmetry. apply app_nil_r.
  - rewrite IH. unfold in_range, within. fold (landmark_obs a).
    destruct (Rlt_dec _ sensor_range); [rewrite <- app_assoc|]; reflexivity.
Qed.

(** C9: the candidate set of a particle is the map's landmark list, in its
    order, restricted to the landmarks whose distance to the particle is
    strictly below [sensor_range]; a landmark at exactly [sensor_range] is
    not in it. *)
Theorem predictedLMs_strictly_in_range (sensor_range : R) (p : Particle)
    (map_landmarks : Map) :
  predictedLMs sensor_range p map_landmarks
  = List.filter (within sensor_range p)
      (map landmark_obs (landmark_list map_landmarks))
  /\ (forall lm, lm ∈ predictedLMs sensor_range p map_landmarks <->
        lm ∈ map landmark_obs (landmark_list map_landmarks) /\
        dist (o_x lm) (o_y lm) (p_x p) (p_y p) < sensor_range)
  /\ (forall landmark,
        dist (x_f landmark) (y_f landmark) (p_x p) (p_y p) = sensor_range ->
        landmark_obs landmark ∉ predictedLMs sensor_range p map_landmarks).
Proof.
  assert (Heq : predictedLMs sensor_range p map_landmarks
                = List.filter (within sensor_range p)
                    (map landmark_obs (landmark_list map_landmarks))).
  { unfold predictedLMs. apply in_range_fold. }
  assert (Hmem : forall lm, lm ∈ predictedLMs sensor_range p map_landmarks <->
        lm ∈ map landmark_obs (landmark_list map_landmarks) /\
        dist (o_x lm) (o_y lm) (p_x p) (p_y p) < sensor_range).
  { intros lm. rewrite Heq, !list_elem_of_In, filter_In. unfold within.
    destruct (Rlt_dec _ sensor_range); intuition discriminate. }
  split; [exact Heq|]. split; [exact Hmem|].
  intros landmark Hd Hin. apply Hmem in Hin as [_ Hlt].
  cbn [landmark_obs o_x o_y] in Hlt. lra.
Qed.

Lemma to_map_fold (p : Particle) (observations : list LandmarkObs) :
  forall acc,
    fold_left (to_map p) observations acc
    = acc ++ map (fun obs => {| o_id := o_id obs;
                                o_x := fst (local_to_map p obs);
                                o_y := snd (local_to_map p obs) |})
               observations.
Proof.
  induction observations as [|a l IH]; intros acc; cbn [fold_left map].
  - symmetry. apply app_nil_r.
  - rewrite IH. unfold to_map. rewrite <- app_assoc. cbn [app].
    f_equal. f_equal. unfold local_to_map, translate, rotate. cbn [fst snd].
    f_equal; ring.
Qed.

Lemma copy_obs_fold (obs : list LandmarkObs) :
  forall p,
    fold_left copy_obs obs p
    = set_sensed p (p_associations p ++ map o_id obs)
        (p_sense_x p ++ map o_x obs) (p_sense_y p ++ map o_y obs).
Proof.
  induction obs as [|a l IH]; intros p; cbn [fold_left map].
  - rewrite !app_nil_r. destruct p. reflexivity.
  - rewrite IH. unfold copy_obs, set_sensed.
    cbn [p_id p_x p_y p_theta p_weight p_associations p_sense_x p_sense_y].
    rewrite <- !app_assoc. reflexivity.
Qed.

Lemma record_obs_eq (p : Particle) (obs : list LandmarkObs) :
  record_obs p obs = set_sensed p (map o_id obs) (map o_x obs) (map o_y obs).
Proof. unfold record_obs. rewrite copy_obs_fold. reflexivity. Qed.

(** ** Loops that rewrite the population in place *)

(** A loop that reads element [n], transforms it and writes it back has
    transformed the first [count] elements and left the others. *)
Lemma update_loop {A : Type} (f : A -> option A)
    (body : nat -> list A -> option (list A)) (count : nat) (l : list A) :
  (forall n l', body n l' = a ← l' !! n; a' ← f a; Some (<[n := a']> l')) ->
  (count <= length l)%nat ->
  (forall a, a ∈ l -> is_Some (f a)) ->
  exists l', for_upto count body l = Some l' /\
    length l' = length l /\
    forall j, l' !! j = if decide (j < count)%nat then l !! j ≫= f else l !! j.
Proof.
  intros Hbody Hcount Hf.
  pose (Inv := fun (k : nat) (l' : list A) =>
       length l' = length l /\
       forall j, l' !! j = if decide (j < k)%nat then l !! j ≫= f else l !! j).
  destruct (for_upto_inv Inv count body l) as (l' & Hrun & Hinv);
    [| |exists l'; split; [exact Hrun|exact Hinv]].
  - split; [reflexivity|]. intros j. destruct (decide (j < 0)%nat); [lia|reflexivity].
  - intros k l' Hk [Hlen Hget].
    destruct (lookup_lt_is_Some_2 l k ltac:(lia)) as [a Ha].
    destruct (Hf a) as [a' Ha'].
    { apply list_elem_of_lookup. eauto. }
    assert (Hk' : l' !! k = Some a).
    { rewrite Hget. destruct (decide (k < k)%nat); [lia|exact Ha]. }
    exists (<[k := a']> l'). split.
    { rewrite Hbody, Hk'. cbn. rewrite Ha'. reflexivity. }
    split; [rewrite length_insert; exact Hlen|].
    intros j. destruct (decide (j = k)) as [->|Hne].
    + rewrite list_lookup_insert_eq by lia.
      destruct (decide (k < S k)%nat); [|lia]. rewrite Ha. cbn. symmetry. exact Ha'.
    + rewrite list_lookup_insert_ne by congruence. rewrite Hget.
      destruct (decide (j < k)%nat), (decide (j < S k)%nat); try lia; reflexivity.
Qed.

(** ** Weighting *)

Section WeightProperties.

Variable unset : LandmarkObs.

Lemma dataAssociation_coordinates (predicted observations : list LandmarkObs) :
  map o_x (dataAssociation unset predicted observations) = map o_x observations
  /\ map o_y (dataAssociation unset predicted observations) = map o_y observations.
Proof.
  unfold dataAssociation. rewrite !map_map. split; apply map_ext; reflexivity.
Qed.

(** [CalculateParticleWeight] returns when the particle's three vectors have
    one length and both standard deviations are given; only the weight
    changes. *)
Lemma CalculateParticleWeight_total (particle : Particle)
    (std_landmark : list R) (predictedLandMarks : list LandmarkObs) :
  (2 <= length std_landmark)%nat ->
  length (p_sense_x particle) = length (p_associations particle) ->
  length (p_sense_y particle) = length (p_associations particle) ->
  exists w, CalculateParticleWeight unset particle std_landmark predictedLandMarks
            = Some (set_weight particle w).
Proof.
  intros Hstd Hx Hy. unfold CalculateParticleWeight.
  destruct (for_upto_inv (fun _ (_ : R) => True)
              (length (p_associations particle))
              (weight_body unset particle std_landmark predictedLandMarks) 1 I)
    as (w & Hrun & _).
  - intros k w Hk _. unfold weight_body.
    destruct (lookup_lt_is_Some_2 (p_associations particle) k Hk) as [a ->].
    destruct (lookup_lt_is_Some_2 (p_sense_x particle) k ltac:(lia)) as [sx ->].
    destruct (lookup_lt_is_Some_2 (p_sense_y particle) k ltac:(lia)) as [sy ->].
    destruct std_landmark as [|s0 [|s1 rest]]; cbn in Hstd; try lia.
    cbn. eauto.
  - exists w. rewrite Hrun. reflexivity.
Qed.

(** One trip of the particle loop returns; the particle keeps its pose and
    identity, its sensed coordinates are the observations in the map frame
    of the particle. *)
Lemma scored_total (sensor_range : R) (std_landmark : list R)
    (observations : list LandmarkObs) (map_landmarks : Map) (p : Particle) :
  (2 <= length std_landmark)%nat ->
  exists a w,
    scored unset sensor_range std_landmark observations map_landmarks p
    = Some (set_weight
              (set_sensed p a
                 (map (fun obs => fst (local_to_map p obs)) observations)
                 (map (fun obs => snd (local_to_map p obs)) observations))
              w).
Proof.
  intros Hstd. unfold scored. rewrite record_obs_eq.
  destruct (dataAssociation_coordinates
              (predictedLMs sensor_range p map_landmarks)
              (observations_mapCoordinates p observations)) as [-> ->].
  unfold observations_mapCoordinates at 2 3. rewrite to_map_fold.
  cbn [app]. rewrite !map_map. cbn [o_x o_y].
  match goal with
  | |- context [CalculateParticleWeight unset ?q _ _] =>
      destruct (CalculateParticleWeight_total q std_landmark
                  (predictedLMs sensor_range p map_landmarks) Hstd)
        as [w Hw]
  end.
  - cbn. unfold dataAssociation, observations_mapCoordinates.
    rewrite to_map_fold. cbn [app]. rewrite !length_map. reflexivity.
  - cbn. unfold dataAssociation, observations_mapCoordinates.
    rewrite to_map_fold. cbn [app]. rewrite !length_map. reflexivity.
  - eauto.
Qed.

End WeightProperties.

Section UpdateProperties.

Variable unset : LandmarkObs.
Variables (sensor_range : R) (std_landmark : list R).
Variables (observations : list LandmarkObs) (map_landmarks : Map).

(** The particle loop returns: each of the first [num_particles] particles
    is replaced by its scored version. *)
Lemma score_all_total (pf : ParticleFilter) :
  (trips pf <= length (particles pf))%nat ->
  (2 <= length std_landmark)%nat ->
  exists ps,
    score_all unset sensor_range std_landmark observations map_landmarks pf
    = Some ps /\
    length ps = length (particles pf) /\
    forall j, ps !! j =
      if decide (j < trips pf)%nat
      then particles pf !! j
           ≫= scored unset sensor_range std_landmark observations map_landmarks
      else particles pf !! j.
Proof.
  intros Hcount Hstd. unfold score_all. apply update_loop.
  - intros n l'. reflexivity.
  - exact Hcount.
  - intros p _.
    destruct (scored_total unset sensor_range std_landmark observations
                map_landmarks p Hstd) as (a & w & ->).
    eauto.
Qed.

Lemma sum_loop (count : nat) (ps : list Particle) :
  (count <= length ps)%nat ->
  for_upto count (sum_body ps) 0 = Some (weight_sum count ps).
Proof.
  intros Hcount.
  pose (Inv := fun (k : nat) (s : R) => s = weight_sum k ps).
  destruct (for_upto_inv Inv count (sum_body ps) 0) as (s & Hrun & Hs).
  - reflexivity.
  - intros k s Hk ->.
    destruct (lookup_lt_is_Some_2 ps k ltac:(lia)) as [p Hp].
    exists (weight_sum k ps + p_weight p). split.
    + unfold sum_body. rewrite Hp. reflexivity.
    + unfold Inv, weight_sum. rewrite (take_S_r ps k p Hp), map_app, fold_left_app.
      reflexivity.
  - rewrite Hrun, Hs. reflexivity.
Qed.

Lemma divide_loop (sum : R) (count : nat) (ps : list Particle) :
  (count <= length ps)%nat ->
  exists ps', for_upto count (divide_body sum) ps = Some ps' /\
    length ps' = length ps /\
    forall j, ps' !! j =
      if decide (j < count)%nat then scaled sum <$> ps !! j else ps !! j.
Proof.
  intros Hcount.
  destruct (update_loop (fun p => Some (scaled sum p)) (divide_body sum)
              count ps) as (ps' & Hrun & Hlen & Hget).
  - intros n l'. unfold divide_body. destruct (l' !! n); reflexivity.
  - exact Hcount.
  - intros p _. eauto.
  - exists ps'. split; [exact Hrun|]. split; [exact Hlen|].
    intros j. rewrite Hget. destruct (ps !! j); reflexivity.
Qed.

Lemma fold_plus_scaled (sum : R) (ws : list R) :
  forall acc,
    fold_left Rplus (map (fun w => w / sum) ws) (acc / sum)
    = fold_left Rplus ws acc / sum.
Proof.
  induction ws as [|w l IH]; intros acc; cbn [map fold_left]; [reflexivity|].
  replace (acc / sum + w / sum) with ((acc + w) / sum) by (unfold Rdiv; ring).
  apply IH.
Qed.

(** Dividing every weight of a population by the non-zero sum of its
    weights leaves weights of sum 1. *)
Lemma weight_sum_scaled (ps : list Particle) :
  weight_sum (length ps) ps <> 0 ->
  weight_sum (length ps) (map (scaled (weight_sum (length ps) ps)) ps) = 1.
Proof.
  intros Hnz.
  assert (Hs : weight_sum (length ps) ps = fold_left Rplus (map p_weight ps) 0).
  { unfold weight_sum. rewrite take_ge by lia. reflexivity. }
  rewrite Hs in *. set (s := fold_left Rplus (map p_weight ps) 0) in *.
  unfold weight_sum. rewrite take_ge by (rewrite length_map; lia).
  rewrite map_map.
  change (map (fun p => p_weight (scaled s p)) ps)
    with (map (fun p => (fun w => w / s) (p_weight p)) ps).
  rewrite <- (map_map p_weight (fun w => w / s)).
  replace 0 with (0 / s) by (unfold Rdiv; ring).
  rewrite fold_plus_scaled. fold s. field. exact Hnz.
Qed.

(** A whole call of [updateWeights] on a filter whose count is the size of
    its population. *)
Lemma updateWeights_run (pf : ParticleFilter) :
  population_ok pf ->
  (2 <= length std_landmark)%nat ->
  exists ps pf',
    score_all unset sensor_range std_landmark observations map_landmarks pf
    = Some ps /\
    length ps = length (particles pf) /\
    (forall j p, particles pf !! j = Some p ->
       ps !! j
       = scored unset sensor_range std_landmark observations map_landmarks p) /\
    updateWeights unset sensor_range std_landmark observations map_landmarks pf
    = Some pf' /\
    num_particles pf' = num_particles pf /\
    (weight_sum (trips pf) ps > 1e-5 ->
       particles pf' = map (scaled (weight_sum (trips pf) ps)) ps) /\
    (weight_sum (trips pf) ps <= 1e-5 -> particles pf' = ps).
Proof.
  intros Hok Hstd. unfold population_ok in Hok.
  destruct (score_all_total pf ltac:(lia) Hstd) as (ps & Hscore & Hlen & Hget).
  assert (Hget' : forall j p, particles pf !! j = Some p ->
            ps !! j = scored unset sensor_range std_landmark observations
                        map_landmarks p).
  { intros j p Hj. rewrite Hget, Hj.
    destruct (decide (j < trips pf)%nat) as [_|Hge]; [reflexivity|].
    apply lookup_lt_Some in Hj. lia. }
  unfold updateWeights. rewrite Hscore. cbn [mbind option_bind].
  unfold normalize. rewrite sum_loop by lia. cbn [mbind option_bind].
  destruct (Rgt_dec (weight_sum (trips pf) ps) 1e-5) as [Hgt|Hle].
  - destruct (divide_loop (weight_sum (trips pf) ps) (trips pf) ps ltac:(lia))
      as (ps' & Hrun & Hlen' & Hdiv).
    rewrite Hrun. cbn [mbind option_bind].
    exists ps, (set_particles pf ps').
    repeat split; try assumption; try reflexivity.
    + intros _. cbn [particles set_particles].
      apply list_eq. intros j. rewrite Hdiv, list_lookup_fmap.
      destruct (decide (j < trips pf)%nat) as [_|Hge]; [reflexivity|].
      rewrite (lookup_ge_None_2 ps j) by lia. reflexivity.
    + intros Hcontra. lra.
  - cbn [mbind option_bind].
    exists ps, (set_particles pf ps).
    repeat split; try assumption; try reflexivity.
    intros Hcontra. lra.
Qed.

End UpdateProperties.

(** C3: a call of [updateWeights] on a well-formed filter returns, and
    leaves in every particle's [sense_x], [sense_y] the observations taken
    from the local frame to the map frame with the particle's own pose:
    [x + cos theta * obs_x - sin theta * obs_y] and
    [y + sin theta * obs_x + cos theta * obs_y], which is the rotation by
    [theta] followed by the translation by [(x, y)]; the pose is unchanged. *)
Theorem updateWeights_map_frame (unset : LandmarkObs) (sensor_range : R)
    (std_landmark : list R) (observations : list LandmarkObs)
    (map_landmarks : Map) (pf : ParticleFilter) :
  population_ok pf ->
  (2 <= length std_landmark)%nat ->
  exists pf',
    updateWeights unset sensor_range std_landmark observations map_landmarks pf
    = Some pf' /\
    forall n p, particles pf !! n = Some p ->
      exists p', particles pf' !! n = Some p' /\
        (p_x p', p_y p', p_theta p') = (p_x p, p_y p, p_theta p) /\
        p_sense_x p'
        = map (fun obs => p_x p + cos (p_theta p) * o_x obs
                          - sin (p_theta p) * o_y obs) observations /\
        p_sense_y p'
        = map (fun obs => p_y p + sin (p_theta p) * o_x obs
                          + cos (p_theta p) * o_y obs) observations /\
        forall obs,
          translate (p_x p, p_y p) (rotate (p_theta p) (o_x obs, o_y obs))
          = (p_x p + cos (p_theta p) * o_x obs - sin (p_theta p) * o_y obs,
             p_y p + sin (p_theta p) * o_x obs + cos (p_theta p) * o_y obs).
Proof.
  intros Hok Hstd.
  destruct (updateWeights_run unset sensor_range std_landmark observations
              map_landmarks pf Hok Hstd)
    as (ps & pf' & _ & _ & Hget & Hrun & _ & Hgt & Hle).
  exists pf'. split; [exact Hrun|].
  intros n p Hn.
  destruct (scored_total unset sensor_range std_landmark observations
              map_landmarks p Hstd) as (a & w & Hsc).
  specialize (Hget n p Hn). rewrite Hsc in Hget.
  assert (Hxy : forall obs,
            translate (p_x p, p_y p) (rotate (p_theta p) (o_x obs, o_y obs))
            = (p_x p + cos (p_theta p) * o_x obs - sin (p_theta p) * o_y obs,
               p_y p + sin (p_theta p) * o_x obs + cos (p_theta p) * o_y obs)).
  { intros obs. unfold translate, rotate. cbn [fst snd]. f_equal; ring. }
  assert (Hsx : map (fun obs => fst (local_to_map p obs)) observations
                = map (fun obs => p_x p + cos (p_theta p) * o_x obs
                                  - sin (p_theta p) * o_y obs) observations).
  { apply map_ext. intros obs. unfold local_to_map. rewrite Hxy. reflexivity. }
  assert (Hsy : map (fun obs => snd (local_to_map p obs)) observations
                = map (fun obs => p_y p + sin (p_theta p) * o_x obs
                                  + cos (p_theta p) * o_y obs) observations).
  { apply map_ext. intros obs. unfold local_to_map. rewrite Hxy. reflexivity. }
  destruct (Rgt_dec (weight_sum (trips pf) ps) 1e-5) as [H|H].
  - rewrite (Hgt H), list_lookup_fmap, Hget. cbn [fmap option_fmap option_map].
    eexists. split; [reflexivity|].
    cbn [p_x p_y p_theta p_sense_x p_sense_y set_weight set_sensed scaled].
    rewrite Hsx, Hsy. auto.
  - rewrite (Hle ltac:(lra)), Hget.
    eexists. split; [reflexivity|].
    cbn [p_x p_y p_theta p_sense_x p_sense_y set_weight set_sensed scaled].
    rewrite Hsx, Hsy. auto.
Qed.

(** C3 on one particle at (4, 5) heading 0 and one landmark. *)
Lemma updateWeights_map_frame_witness :
  exists pf',
    updateWeights (mkLandmarkObs (-1) 0 0) 50 [0.3; 0.3]
      [mkLandmarkObs 0 2 2] (mkMap [mkLandmark 1 6 7])
      (mkFilter 1 true [mkParticle 0 4 5 0 1 [] [] []])
    = Some pf' /\
    forall n p, [mkParticle 0 4 5 0 1 [] [] []] !! n = Some p ->
      exists p', particles pf' !! n = Some p' /\
        (p_x p', p_y p', p_theta p') = (p_x p, p_y p, p_theta p) /\
        p_sense_x p'
        = map (fun obs => p_x p + cos (p_theta p) * o_x obs
                          - sin (p_theta p) * o_y obs) [mkLandmarkObs 0 2 2] /\
        p_sense_y p'
        = map (fun obs => p_y p + sin (p_theta p) * o_x obs
                          + cos (p_theta p) * o_y obs) [mkLandmarkObs 0 2 2] /\
        forall obs,
          translate (p_x p, p_y p) (rotate (p_theta p) (o_x obs, o_y obs))
          = (p_x p + cos (p_theta p) * o_x obs - sin (p_theta p) * o_y obs,
             p_y p + sin (p_theta p) * o_x obs + cos (p_theta p) * o_y obs).
Proof.
  apply (updateWeights_map_frame (mkLandmarkObs (-1) 0 0) 50 [0.3; 0.3]
           [mkLandmarkObs 0 2 2] (mkMap [mkLandmark 1 6 7])
           (mkFilter 1 true [mkParticle 0 4 5 0 1 [] [] []])).
  - reflexivity.
  - cbn. lia.
Defined.

(** C5: a call of [updateWeights] on a well-formed filter returns; when the
    sum of the weights the particle loop left exceeds 1e-5, every weight is
    that weight divided by the sum and the weights then sum to 1; otherwise
    the population is the one the particle loop left. *)
Theorem updateWeights_normalizes (unset : LandmarkObs) (sensor_range : R)
    (std_landmark : list R) (observations : list LandmarkObs)
    (map_landmarks : Map) (pf : ParticleFilter) :
  population_ok pf ->
  (2 <= length std_landmark)%nat ->
  exists ps pf',
    score_all unset sensor_range std_landmark observations map_landmarks pf
    = Some ps /\
    updateWeights unset sensor_range std_landmark observations map_landmarks pf
    = Some pf' /\
    (weight_sum (trips pf) ps > 1e-5 ->
       particles pf' = map (scaled (weight_sum (trips pf) ps)) ps /\
       (forall n p, ps !! n = Some p ->
          exists p', particles pf' !! n = Some p' /\
            p_weight p' = p_weight p / weight_sum (trips pf) ps) /\
       weight_sum (trips pf) (particles pf') = 1) /\
    (weight_sum (trips pf) ps <= 1e-5 -> particles pf' = ps).
Proof.
  intros Hok Hstd.
  destruct (updateWeights_run unset sensor_range std_landmark observations
              map_landmarks pf Hok Hstd)
    as (ps & pf' & Hscore & Hlen & _ & Hrun & _ & Hgt & Hle).
  exists ps, pf'. split; [exact Hscore|]. split; [exact Hrun|].
  split; [|exact Hle].
  intros H. rewrite (Hgt H). split; [reflexivity|]. split.
  - intros n p Hn. rewrite list_lookup_fmap, Hn.
    eexists. split; [reflexivity|reflexivity].
  - unfold population_ok in Hok. rewrite Hok, <- Hlen.
    rewrite Hok, <- Hlen in H.
    apply weight_sum_scaled. lra.
Qed.

(** C5 on one particle at (4, 5) heading 0 and one landmark. *)
Lemma updateWeights_normalizes_witness :
  exists ps pf',
    score_all (mkLandmarkObs (-1) 0 0) 50 [0.3; 0.3]
      [mkLandmarkObs 0 2 2] (mkMap [mkLandmark 1 6 7])
      (mkFilter 1 true [mkParticle 0 4 5 0 1 [] [] []])
    = Some ps /\
    updateWeights (mkLandmarkObs (-1) 0 0) 50 [0.3; 0.3]
      [mkLandmarkObs 0 2 2] (mkMap [mkLandmark 1 6 7])
      (mkFilter 1 true [mkParticle 0 4 5 0 1 [] [] []])
    = Some pf' /\
    (weight_sum 1 ps > 1e-5 ->
       particles pf' = map (scaled (weight_sum 1 ps)) ps /\
       (forall n p, ps !! n = Some p ->
          exists p', particles pf' !! n = Some p' /\
            p_weight p' = p_weight p / weight_sum 1 ps) /\
       weight_sum 1 (particles pf') = 1) /\
    (weight_sum 1 ps <= 1e-5 -> particles pf' = ps).
Proof.
  apply (updateWeights_normalizes (mkLandmarkObs (-1) 0 0) 50 [0.3; 0.3]
           [mkLandmarkObs 0 2 2] (mkMap [mkLandmark 1 6 7])
           (mkFilter 1 true [mkParticle 0 4 5 0 1 [] [] []])).
  - reflexivity.
  - cbn. lia.
Defined.

(** ** An association that no candidate carries *)

Lemma multiv_prob_unit_below_1 (x_obs y_obs mu_x mu_y : R) :
  multiv_prob 1 1 x_obs y_obs mu_x mu_y < 1.
Proof.
  unfold multiv_prob.
  set (q := (x_obs - mu_x) * (x_obs - mu_x) / (2 * (1 * 1))
            + (y_obs - mu_y) * (y_obs - mu_y) / (2 * (1 * 1))).
  assert (Hq : 0 <= q).
  { unfold q. pose proof (Rle_0_sqr (x_obs - mu_x)) as Hx.
    pose proof (Rle_0_sqr (y_obs - mu_y)) as Hy. unfold Rsqr in Hx, Hy. lra. }
  assert (He : exp (- q) <= 1).
  { rewrite <- exp_0. destruct Hq as [Hpos|<-].
    - left. apply exp_increasing. lra.
    - right. f_equal. ring. }
  pose proof (exp_pos (- q)) as He0.
  pose proof PI2_3_2 as Hpi.
  apply (Rmult_lt_reg_r (2 * PI * 1 * 1)); [lra|].
  unfold Rdiv. rewrite Rmult_assoc, Rinv_l by lra. lra.
Qed.

(** C8, on the code: a particle whose one association, 42, is carried by no
    candidate still gets a factor, the density against the coordinates of
    the never-assigned [pred_LM_match]; whatever those are, the weight ends
    below the empty product 1. *)
Theorem CalculateParticleWeight_unmatched_factor (unset : LandmarkObs) :
  CalculateParticleWeight unset (mkParticle 0 0 0 0 1 [42%Z] [1] [2])
    [1; 1] [mkLandmarkObs 7 3 3]
  = Some (set_weight (mkParticle 0 0 0 0 1 [42%Z] [1] [2])
            (1 * multiv_prob 1 1 1 2 (o_x unset) (o_y unset)))
  /\ 1 * multiv_prob 1 1 1 2 (o_x unset) (o_y unset) < 1.
Proof.
  split; [reflexivity|].
  pose proof (multiv_prob_unit_below_1 1 2 (o_x unset) (o_y unset)). lra.
Qed.

(** ** Prediction *)

Section PredictionProperties.

Context {L : RandomLib}.

Lemma draw_zero (d : NormalDist L) (e : Engine L) :
  nd_mean d = 0 /\ nd_stddev d = 0 ->
  exists d' e', draw d e = (0, d', e') /\
    (nd_mean d' = 0 /\ nd_stddev d' = 0).
Proof.
  intros [Hm Hs]. unfold draw.
  destruct (std_normal L (nd_state d) e) as [[z s] e'].
  exists (mkNormalDist (nd_mean d) (nd_stddev d) s), e'.
  split; [|split; assumption].
  f_equal. f_equal. rewrite Hm, Hs. ring.
Qed.

Lemma draw3_zero (ns : Noise L) :
  zero_noise ns ->
  exists ns', draw3 ns = ((0, 0, 0), ns') /\ zero_noise ns'.
Proof.
  intros (Hx & Hy & Ht). unfold draw3.
  destruct (draw_zero (dist_x ns) (randGen ns) Hx) as (dx & e1 & -> & Hx').
  destruct (draw_zero (dist_y ns) e1 Hy) as (dy & e2 & -> & Hy').
  destruct (draw_zero (dist_theta ns) e2 Ht) as (dt & e3 & -> & Ht').
  exists (mkNoise e3 dx dy dt). split; [reflexivity|].
  repeat split; cbn; tauto.
Qed.

Lemma move_zero (delta_t velocity yaw_rate : R) (p : Particle) :
  move delta_t velocity yaw_rate (0, 0, 0) p
  = kinematic delta_t velocity yaw_rate p.
Proof.
  unfold move, kinematic.
  destruct (Rgt_dec (Rabs yaw_rate) 0.0001); unfold set_pose; f_equal; ring.
Qed.

(** With zero standard deviations the loop of [prediction] applies the
    kinematic model to the first [count] particles. *)
Lemma prediction_loop_zero (delta_t velocity yaw_rate : R) (count : nat)
    (ps : list Particle) (ns : Noise L) :
  (count <= length ps)%nat -> zero_noise ns ->
  exists st,
    for_upto count (prediction_body delta_t velocity yaw_rate) (ps, ns)
    = Some st /\
    length (fst st) = length ps /\
    forall j, fst st !! j =
      if decide (j < count)%nat
      then kinematic delta_t velocity yaw_rate <$> ps !! j else ps !! j.
Proof.
  intros Hcount Hns.
  pose (Inv := fun (k : nat) (st : list Particle * Noise L) =>
    zero_noise (snd st) /\ length (fst st) = length ps /\
    forall j, fst st !! j =
      if decide (j < k)%nat
      then kinematic delta_t velocity yaw_rate <$> ps !! j else ps !! j).
  destruct (for_upto_inv Inv count
              (prediction_body delta_t velocity yaw_rate) (ps, ns))
    as (st & Hrun & _ & Hlen & Hget);
    [| |exists st; split; [exact Hrun|split; [exact Hlen|exact Hget]]].
  - split; [exact Hns|]. split; [reflexivity|].
    intros j. destruct (decide (j < 0)%nat); [lia|reflexivity].
  - intros k [ps' ns'] Hk (Hz & Hlen & Hget). cbn [fst snd] in *.
    destruct (lookup_lt_is_Some_2 ps k ltac:(lia)) as [p Hp].
    assert (Hk' : ps' !! k = Some p).
    { rewrite Hget. destruct (decide (k < k)%nat); [lia|exact Hp]. }
    destruct (draw3_zero ns' Hz) as (ns'' & Hdraw & Hz').
    exists (<[k := kinematic delta_t velocity yaw_rate p]> ps', ns'').
    split.
    { unfold prediction_body. cbn [fst snd]. rewrite Hk'. cbn [mbind option_bind].
      rewrite Hdraw, move_zero. reflexivity. }
    split; [exact Hz'|]. cbn [fst snd].
    split; [rewrite length_insert; exact Hlen|].
    intros j. destruct (decide (j = k)) as [->|Hne].
    + rewrite list_lookup_insert_eq by lia.
      destruct (decide (k < S k)%nat); [|lia]. rewrite Hp. reflexivity.
    + rewrite list_lookup_insert_ne by congruence. rewrite Hget.
      destruct (decide (j < k)%nat), (decide (j < S k)%nat); try lia; reflexivity.
Qed.

End PredictionProperties.

(** C4: with the three noise standard deviations at zero, [prediction] on a
    well-formed filter returns, and every particle has moved by the
    kinematic model exactly: the curved path when [|yaw_rate| > 0.0001], the
    straight line otherwise, the heading advanced by [yaw_rate * delta_t] in
    both. *)
Theorem prediction_noise_free (L : RandomLib) (delta_t velocity yaw_rate : R)
    (pf : ParticleFilter) :
  population_ok pf ->
  exists pf',
    prediction L delta_t [0; 0; 0] velocity yaw_rate pf = Some pf' /\
    num_particles pf' = num_particles pf /\
    particles pf' = map (kinematic delta_t velocity yaw_rate) (particles pf).
Proof.
  intros Hok. unfold population_ok in Hok.
  unfold prediction. cbn [lookup list_lookup mbind option_bind].
  destruct (@prediction_loop_zero L delta_t velocity yaw_rate (trips pf)
              (particles pf) (fresh_noise 0 0 0 0 0 0))
    as (st & Hrun & Hlen & Hget).
  - lia.
  - repeat split; reflexivity.
  - rewrite Hrun. cbn [mbind option_bind].
    eexists. split; [reflexivity|]. split; [reflexivity|].
    cbn [particles set_particles]. apply list_eq. intros j.
    rewrite Hget, list_lookup_fmap.
    destruct (decide (j < trips pf)%nat) as [_|Hge]; [reflexivity|].
    rewrite (lookup_ge_None_2 (particles pf) j) by lia. reflexivity.
Qed.

(** C4 on the spec's example: from pose (0, 0, 0) with velocity 1, one
    second and yaw rate 0, the noise-free pose is (1, 0, 0). *)
Lemma prediction_noise_free_witness :
  exists pf',
    prediction lehmer_lib 1 [0; 0; 0] 1 0
      (mkFilter 1 true [mkParticle 0 0 0 0 1 [] [] []]) = Some pf' /\
    particles pf' = [mkParticle 0 1 0 0 1 [] [] []].
Proof.
  destruct (prediction_noise_free lehmer_lib 1 1 0
              (mkFilter 1 true [mkParticle 0 0 0 0 1 [] [] []]))
    as (pf' & Hrun & _ & Hps).
  - reflexivity.
  - exists pf'. split; [exact Hrun|]. rewrite Hps.
    cbn [particles map]. unfold kinematic.
    destruct (Rgt_dec (Rabs 0) 0.0001) as [Hgt|_].
    + rewrite Rabs_R0 in Hgt. lra.
    + unfold set_pose.
      cbn [p_id p_x p_y p_theta p_weight p_associations p_sense_x p_sense_y].
      rewrite cos_0, sin_0. do 2 f_equal; ring.
Defined.

(** ** The fresh engine of every call *)

Section FreshEngine.

Context {L : RandomLib}.

(** Whatever the standard deviations, trip [n] of the loop of [prediction]
    adds to particle [n] the noise the library yields at draw [n] from its
    default state. *)
Lemma prediction_loop (delta_t velocity yaw_rate : R) (count : nat)
    (ps : list Particle) (ns : Noise L) :
  (count <= length ps)%nat ->
  exists st,
    for_upto count (prediction_body delta_t velocity yaw_rate) (ps, ns)
    = Some st /\
    forall j, fst st !! j =
      if decide (j < count)%nat
      then move delta_t velocity yaw_rate (fst (draw3 (noise_after j ns)))
             <$> ps !! j
      else ps !! j.
Proof.
  intros Hcount.
  pose (Inv := fun (k : nat) (st : list Particle * Noise L) =>
    snd st = noise_after k ns /\ length (fst st) = length ps /\
    forall j, fst st !! j =
      if decide (j < k)%nat
      then move delta_t velocity yaw_rate (fst (draw3 (noise_after j ns)))
             <$> ps !! j
      else ps !! j).
  destruct (for_upto_inv Inv count
              (prediction_body delta_t velocity yaw_rate) (ps, ns))
    as (st & Hrun & _ & _ & Hget);
    [| |exists st; split; [exact Hrun|exact Hget]].
  - split; [reflexivity|]. split; [reflexivity|].
    intros j. destruct (decide (j < 0)%nat); [lia|reflexivity].
  - intros k [ps' ns'] Hk (Hns & Hlen & Hget). cbn [fst snd] in *.
    destruct (lookup_lt_is_Some_2 ps k ltac:(lia)) as [p Hp].
    assert (Hk' : ps' !! k = Some p).
    { rewrite Hget. destruct (decide (k < k)%nat); [lia|exact Hp]. }
    exists (<[k := move delta_t velocity yaw_rate
                     (fst (draw3 (noise_after k ns))) p]> ps',
            noise_after (S k) ns).
    split.
    { unfold prediction_body. cbn [fst snd noise_after].
      rewrite Hk', Hns. cbn [mbind option_bind].
      destruct (draw3 (noise_after k ns)) as [nz ns'']. reflexivity. }
    split; [reflexivity|]. cbn [fst snd].
    split; [rewrite length_insert; exact Hlen|].
    intros j. destruct (decide (j = k)) as [->|Hne].
    + rewrite list_lookup_insert_eq by lia.
      destruct (decide (k < S k)%nat); [|lia]. rewrite Hp. reflexivity.
    + rewrite list_lookup_insert_ne by congruence. rewrite Hget.
      destruct (decide (j < k)%nat), (decide (j < S k)%nat); try lia; reflexivity.
Qed.

Lemma prediction_fixed_noise (delta_t velocity yaw_rate : R)
    (std_pos : list R) (pf : ParticleFilter) :
  population_ok pf -> (3 <= length std_pos)%nat ->
  exists pf',
    prediction L delta_t std_pos velocity yaw_rate pf = Some pf' /\
    num_particles pf' = num_particles pf /\
    particles pf'
    = imap (fun n => move delta_t velocity yaw_rate
                       (prediction_noise L std_pos n)) (particles pf).
Proof.
  intros Hok Hstd. unfold population_ok in Hok.
  destruct std_pos as [|s0 [|s1 [|s2 rest]]]; cbn in Hstd; try lia.
  unfold prediction. cbn [lookup list_lookup mbind option_bind].
  destruct (prediction_loop delta_t velocity yaw_rate (trips pf)
              (particles pf) (fresh_noise 0 0 0 s0 s1 s2))
    as (st & Hrun & Hget); [lia|].
  rewrite Hrun. cbn [mbind option_bind].
  eexists. split; [reflexivity|]. split; [reflexivity|].
  cbn [particles set_particles]. apply list_eq. intros j.
  rewrite Hget, list_lookup_imap.
  destruct (decide (j < trips pf)%nat) as [_|Hge]; [reflexivity|].
  rewrite (lookup_ge_None_2 (particles pf) j) by lia. reflexivity.
Qed.

End FreshEngine.

(** ** Resampling *)

Lemma lehmer_unit : canonical_unit lehmer_lib.
Proof.
  intros e. cbn [canonical lehmer_lib fst]. unfold unit_of.
  pose proof (Z.mod_pos_bound (lehmer e) 2147483647 ltac:(lia)) as [Hlo Hhi].
  apply IZR_le in Hlo. apply IZR_lt in Hhi.
  split.
  - apply Rmult_le_reg_r with 2147483647; [lra|].
    unfold Rdiv. rewrite Rmult_assoc, Rinv_l by lra. lra.
  - apply Rmult_lt_reg_r with 2147483647; [lra|].
    unfold Rdiv. rewrite Rmult_assoc, Rinv_l by lra. lra.
Qed.

(** The index the inversion selects is in range, and the deviate lies in
    the interval the weight at that index occupies among the cumulative
    weights. *)
Lemma upper_bound_interval (total u : R) (ws : list R) :
  forall acc,
    acc / total <= u -> u < (acc + sum_list ws) / total ->
    exists w,
      ws !! upper_bound u (cumulative total acc ws) = Some w /\
      (acc + sum_list (take (upper_bound u (cumulative total acc ws)) ws))
        / total <= u
      < (acc + sum_list (take (upper_bound u (cumulative total acc ws)) ws) + w)
        / total.
Proof.
  induction ws as [|w l IH]; intros acc Hlo Hhi.
  - cbn in Hhi. rewrite Rplus_0_r in Hhi. lra.
  - cbn [cumulative upper_bound].
    destruct (Rlt_dec u ((acc + w) / total)) as [Hlt|Hge].
    + exists w. split; [reflexivity|].
      cbn [take sum_list fold_right]. rewrite Rplus_0_r. lra.
    + destruct (IH (acc + w)) as (w' & Hw' & Hin).
      * lra.
      * cbn [sum_list fold_right] in Hhi. fold (sum_list l) in Hhi.
        replace (acc + w + sum_list l) with (acc + (w + sum_list l)) by ring.
        exact Hhi.
      * exists w'. split; [exact Hw'|].
        cbn [take sum_list fold_right].
        fold (sum_list (take (upper_bound u (cumulative total (acc + w) l)) l)).
        replace (acc + (w + sum_list (take (upper_bound u
                   (cumulative total (acc + w) l)) l)))
          with (acc + w + sum_list (take (upper_bound u
                   (cumulative total (acc + w) l)) l)) by ring.
        exact Hin.
Qed.

Section ResampleProperties.

Context {L : RandomLib}.

Lemma weights_loop (count : nat) (ps : list Particle) :
  (count <= length ps)%nat ->
  for_upto count (weights_body ps) [] = Some (map p_weight (take count ps)).
Proof.
  intros Hcount.
  pose (Inv := fun (k : nat) (ws : list R) => ws = map p_weight (take k ps)).
  destruct (for_upto_inv Inv count (weights_body ps) []) as (ws & Hrun & Hws).
  - reflexivity.
  - intros k ws Hk ->.
    destruct (lookup_lt_is_Some_2 ps k ltac:(lia)) as [p Hp].
    exists (map p_weight (take k ps) ++ [p_weight p]). split.
    + unfold weights_body. rewrite Hp. reflexivity.
    + unfold Inv. rewrite (take_S_r ps k p Hp), map_app. reflexivity.
  - rewrite Hrun, Hws. reflexivity.
Qed.

(** Trip [n] of the second loop of [resample] pushes the particle at the
    index draw [n] selects. *)
Lemma resample_loop (ps : list Particle) (ws : list R) (count : nat) :
  (forall n, is_Some (ps !! drawn_index L ws n)) ->
  exists st,
    for_upto count (resample_body ps ws) ([], default_engine L) = Some st /\
    length (fst st) = count /\
    forall n, (n < count)%nat -> fst st !! n = ps !! drawn_index L ws n.
Proof.
  intros Hidx.
  pose (Inv := fun (k : nat) (st : list Particle * Engine L) =>
    snd st = engine_after L k /\ length (fst st) = k /\
    forall n, (n < k)%nat -> fst st !! n = ps !! drawn_index L ws n).
  destruct (for_upto_inv Inv count (resample_body ps ws)
              ([], default_engine L))
    as (st & Hrun & _ & Hlen & Hget);
    [| |exists st; split; [exact Hrun|split; [exact Hlen|exact Hget]]].
  - split; [reflexivity|]. split; [reflexivity|]. intros n Hn. lia.
  - intros k [new gen] Hk (Hgen & Hlen & Hget). cbn [fst snd] in *.
    destruct (Hidx k) as [p Hp].
    exists (new ++ [p], engine_after L (S k)). split.
    { unfold resample_body, discrete_draw. cbn [fst snd]. rewrite Hgen.
      unfold drawn_index, uniform_at in Hp. cbn [engine_after].
      destruct (canonical L (engine_after L k)) as [u e'].
      cbn [fst snd] in *. rewrite Hp. reflexivity. }
    split; [reflexivity|]. cbn [fst snd].
    split; [rewrite length_app; cbn; lia|].
    intros n Hn. destruct (decide (n = k)) as [->|Hne].
    + rewrite lookup_app_r by lia. rewrite Hlen, Nat.sub_diag, Hp. reflexivity.
    + rewrite lookup_app_l by lia. apply Hget. lia.
Qed.

(** The deviate of every draw falls in the interval of the particle the
    draw selects. *)
Lemma drawn_index_interval (ps : list Particle) :
  canonical_unit L ->
  0 < sum_list (map p_weight ps) ->
  forall n, exists p,
    ps !! drawn_index L (map p_weight ps) n = Some p /\
    sum_list (take (drawn_index L (map p_weight ps) n) (map p_weight ps))
      / sum_list (map p_weight ps)
    <= uniform_at L n
    < (sum_list (take (drawn_index L (map p_weight ps) n) (map p_weight ps))
       + p_weight p) / sum_list (map p_weight ps).
Proof.
  intros Hunit Hsum n. set (ws := map p_weight ps) in *.
  pose proof (Hunit (engine_after L n)) as Hu.
  fold (uniform_at L n) in Hu.
  destruct (upper_bound_interval (sum_list ws) (uniform_at L n) ws 0)
    as (w & Hw & Hin).
  - unfold Rdiv. rewrite Rmult_0_l. lra.
  - rewrite Rplus_0_l. unfold Rdiv. rewrite Rinv_r by lra. lra.
  - fold (drawn_index L ws n) in Hw, Hin. rewrite !Rplus_0_l in Hin.
    assert (Hw' : p_weight <$> ps !! drawn_index L ws n = Some w)
      by (rewrite <- list_lookup_fmap; exact Hw).
    destruct (ps !! drawn_index L ws n) as [p|] eqn:Hp; [|discriminate Hw'].
    injection Hw' as <-. exists p. split; [reflexivity|exact Hin].
Qed.

(** A whole call of [resample] on a filter whose count is the size of its
    population, when every draw selects an index of the population. *)
Lemma resample_run (pf : ParticleFilter) :
  population_ok pf ->
  (forall n, is_Some (particles pf
                        !! drawn_index L (map p_weight (particles pf)) n)) ->
  exists pf',
    resample L pf = Some pf' /\
    num_particles pf' = num_particles pf /\
    length (particles pf') = length (particles pf) /\
    forall n, (n < length (particles pf))%nat ->
      particles pf' !! n
      = particles pf !! drawn_index L (map p_weight (particles pf)) n.
Proof.
  intros Hok Hidx. unfold population_ok in Hok.
  destruct (resample_loop (particles pf) (map p_weight (particles pf))
              (trips pf) Hidx) as (st & Hrun & Hlen & Hget).
  exists (set_particles pf (fst st)). split.
  { unfold resample. rewrite weights_loop by lia.
    cbn [mbind option_bind].
    rewrite (take_ge (particles pf) (trips pf)) by lia.
    rewrite Hrun. reflexivity. }
  split; [reflexivity|]. cbn [particles set_particles].
  split; [lia|]. intros n Hn. apply Hget. lia.
Qed.

End ResampleProperties.

(** C6: on a well-formed filter with non-negative weights of positive sum,
    [resample] returns a population of the same size [N]; its particle [n]
    is a copy of the current particle at the index that the uniform deviate
    of draw [n], a value of [[0, 1)], selects by inversion: the deviate lies
    in the interval of length weight / sum that this particle occupies among
    the cumulative weights, so indices are hit in proportion to weight.
    When one particle has weight 1 and all others weight 0, the new
    population is [N] copies of it. *)
Theorem resample_by_weight (L : RandomLib) (pf : ParticleFilter) :
  population_ok pf ->
  canonical_unit L ->
  (forall p, p ∈ particles pf -> 0 <= p_weight p) ->
  0 < sum_list (map p_weight (particles pf)) ->
  exists pf',
    resample L pf = Some pf' /\
    num_particles pf' = num_particles pf /\
    length (particles pf') = length (particles pf) /\
    (forall n, (n < length (particles pf))%nat ->
       exists i p,
         particles pf !! i = Some p /\ particles pf' !! n = Some p /\
         0 <= uniform_at L n < 1 /\
         sum_list (take i (map p_weight (particles pf)))
           / sum_list (map p_weight (particles pf))
         <= uniform_at L n
         < (sum_list (take i (map p_weight (particles pf))) + p_weight p)
           / sum_list (map p_weight (particles pf))) /\
    (forall k p,
       particles pf !! k = Some p -> p_weight p = 1 ->
       (forall j q, j <> k -> particles pf !! j = Some q -> p_weight q = 0) ->
       particles pf' = replicate (length (particles pf)) p).
Proof.
  intros Hok Hunit _ Hsum.
  pose proof (@drawn_index_interval L (particles pf) Hunit Hsum) as Hpick.
  destruct (@resample_run L pf Hok) as (pf' & Hrun & Hnum & Hlen & Hget).
  { intros n. destruct (Hpick n) as (p & Hp & _). eauto. }
  exists pf'. split; [exact Hrun|]. split; [exact Hnum|].
  split; [exact Hlen|]. split.
  - intros n Hn. destruct (Hpick n) as (p & Hp & Hin).
    exists (drawn_index L (map p_weight (particles pf)) n), p.
    split; [exact Hp|].
    split; [rewrite Hget by exact Hn; exact Hp|].
    split; [apply (Hunit (engine_after L n))|exact Hin].
  - intros k p Hk Hone Hzero. apply list_eq. intros n.
    destruct (Nat.lt_ge_cases n (length (particles pf))) as [Hlt|Hge].
    + rewrite lookup_replicate_2 by exact Hlt.
      rewrite Hget by exact Hlt.
      destruct (Hpick n) as (q & Hq & Hin). rewrite Hq. f_equal.
      destruct (decide (drawn_index L (map p_weight (particles pf)) n = k))
        as [Heq|Hne].
      * rewrite Heq in Hq. congruence.
      * rewrite (Hzero _ q Hne Hq) in Hin. lra.
    + rewrite lookup_ge_None_2 by lia.
      symmetry. apply lookup_replicate_None. lia.
Qed.

(** C6 on a population of two: the second particle holds all the weight,
    and both draws of the concrete engine copy it. *)
Lemma resample_by_weight_witness :
  exists pf',
    resample lehmer_lib
      (mkFilter 2 true [mkParticle 0 1 1 0 0 [] [] [];
                        mkParticle 1 4 5 0 1 [] [] []]) = Some pf' /\
    particles pf' = [mkParticle 1 4 5 0 1 [] [] [];
                     mkParticle 1 4 5 0 1 [] [] []].
Proof.
  destruct (resample_by_weight lehmer_lib
              (mkFilter 2 true [mkParticle 0 1 1 0 0 [] [] [];
                                mkParticle 1 4 5 0 1 [] [] []]))
    as (pf' & Hrun & _ & _ & _ & Hone).
  - reflexivity.
  - exact lehmer_unit.
  - intros p Hp. cbn [particles] in Hp.
    apply elem_of_cons in Hp as [->|Hp]; [cbn; lra|].
    apply list_elem_of_singleton in Hp as ->. cbn. lra.
  - cbn. lra.
  - exists pf'. split; [exact Hrun|].
    apply (Hone 1%nat (mkParticle 1 4 5 0 1 [] [] []) eq_refl eq_refl).
    intros [|[|j]] q Hj Hq; [|congruence|discriminate Hq].
    injection Hq as <-. reflexivity.
Defined.

(** ** The filter stays well formed *)

(** [init] on a fresh filter leaves the count at the size of the
    population, and the three other operations keep it there. *)
Lemma init_population_ok (L : RandomLib) (x y theta : R) (std : list R)
    (pf : ParticleFilter) :
  (3 <= length std)%nat -> particles pf = [] ->
  exists pf', init L x y theta std pf = Some pf' /\ population_ok pf'.
Proof.
  intros Hstd Hempty.
  destruct (@init_appends L x y theta std pf Hstd)
    as (pf' & Hrun & Hnum & _ & news & Hps & Hlen & _).
  exists pf'. split; [exact Hrun|].
  unfold population_ok, trips. rewrite Hnum, Hps, Hempty. cbn [app].
  rewrite Hlen. reflexivity.
Qed.

Lemma prediction_population_ok (L : RandomLib) (delta_t : R)
    (std_pos : list R) (velocity yaw_rate : R) (pf : ParticleFilter) :
  population_ok pf -> (3 <= length std_pos)%nat ->
  exists pf', prediction L delta_t std_pos velocity yaw_rate pf = Some pf' /\
    population_ok pf'.
Proof.
  intros Hok Hstd.
  destruct (@prediction_fixed_noise L delta_t velocity yaw_rate std_pos pf
              Hok Hstd) as (pf' & Hrun & Hnum & Hps).
  exists pf'. split; [exact Hrun|].
  unfold population_ok, trips in *. rewrite Hnum, Hps, length_imap. exact Hok.
Qed.

Lemma updateWeights_population_ok (unset : LandmarkObs) (sensor_range : R)
    (std_landmark : list R) (observations : list LandmarkObs)
    (map_landmarks : Map) (pf : ParticleFilter) :
  population_ok pf -> (2 <= length std_landmark)%nat ->
  exists pf',
    updateWeights unset sensor_range std_landmark observations map_landmarks pf
    = Some pf' /\ population_ok pf'.
Proof.
  intros Hok Hstd.
  destruct (updateWeights_run unset sensor_range std_landmark observations
              map_landmarks pf Hok Hstd)
    as (ps & pf' & _ & Hlen & _ & Hrun & Hnum & Hgt & Hle).
  exists pf'. split; [exact Hrun|].
  unfold population_ok, trips in *. rewrite Hnum.
  destruct (Rgt_dec (weight_sum (Z.to_nat (num_particles pf)) ps) 1e-5) as [H|H].
  - rewrite (Hgt H), length_map. lia.
  - rewrite (Hle ltac:(lra)). lia.
Qed.

Lemma resample_population_ok (L : RandomLib) (pf : ParticleFilter) :
  population_ok pf -> canonical_unit L ->
  0 < sum_list (map p_weight (particles pf)) ->
  exists pf', resample L pf = Some pf' /\ population_ok pf'.
Proof.
  intros Hok Hunit Hsum.
  destruct (@resample_run L pf Hok) as (pf' & Hrun & Hnum & Hlen & _).
  { intros n.
    destruct (@drawn_index_interval L (particles pf) Hunit Hsum n)
      as (p & Hp & _). eauto. }
  exists pf'. split; [exact Hrun|].
  unfold population_ok, trips in *. rewrite Hnum, Hlen. exact Hok.
Qed.

(** * Further properties of the filter operations *)

Lemma for_upto_ext {S : Type} (count : nat)
    (body1 body2 : nat -> S -> option S) (s : S) :
  (forall k st, body1 k st = body2 k st) ->
  for_upto count body1 s = for_upto count body2 s.
Proof.
  intros Hext. induction count as [|n IH]; [reflexivity|].
  rewrite !for_upto_S, IH.
  destruct (for_upto n body2 s); [apply Hext|reflexivity].
Qed.

(** ** Initialisation, again *)

(** X1: [init] does not clear the population.  Whatever the filter holds, it
    returns, sets the count to 100 and pushes its 100 new particles
    (identities 0..99, weight 1) behind the particles already there, which
    keep their positions; on a filter that was initialised before, the
    population then has 100 more particles than the count. *)
Theorem init_keeps_existing (L : RandomLib) (x y theta : R) (std : list R)
    (pf : ParticleFilter) :
  (3 <= length std)%nat ->
  exists pf', init L x y theta std pf = Some pf' /\
    num_particles pf' = 100%Z /\
    length (particles pf') = (length (particles pf) + 100)%nat /\
    (forall i p, particles pf !! i = Some p -> particles pf' !! i = Some p) /\
    (forall i p,
       particles pf' !! (length (particles pf) + i)%nat = Some p ->
       p_id p = Z.of_nat i /\ p_weight p = 1).
Proof.
  intros Hstd.
  destruct (@init_appends L x y theta std pf Hstd)
    as (pf' & Hrun & Hnum & _ & news & Hps & Hlen & Hall).
  exists pf'. split; [exact Hrun|]. split; [exact Hnum|].
  rewrite Hps. split; [rewrite length_app, Hlen; reflexivity|]. split.
  - intros i p Hi. apply lookup_app_l_Some. exact Hi.
  - intros i p Hi. rewrite lookup_app_r in Hi by lia.
    replace (length (particles pf) + i - length (particles pf))%nat with i
      in Hi by lia.
    apply Hall, Hi.
Qed.

(** X1 on a filter that holds one particle of identity 7. *)
Lemma init_keeps_existing_witness :
  exists pf',
    init lehmer_lib 4 5 0 [2; 2; 0.05]
      (mkFilter 1 true [mkParticle 7 1 1 0 0.5 [] [] []]) = Some pf' /\
    num_particles pf' = 100%Z /\
    length (particles pf') = 101%nat /\
    particles pf' !! 0%nat = Some (mkParticle 7 1 1 0 0.5 [] [] []).
Proof.
  destruct (init_keeps_existing lehmer_lib 4 5 0 [2; 2; 0.05]
              (mkFilter 1 true [mkParticle 7 1 1 0 0.5 [] [] []]))
    as (pf' & Hrun & Hnum & Hlen & Hold & _).
  - cbn. lia.
  - exists pf'. split; [exact Hrun|]. split; [exact Hnum|].
    split; [exact Hlen|]. apply Hold. reflexivity.
Defined.

Section InitNoiseFree.

Context {L : RandomLib}.

Lemma draw_pinned (d : NormalDist L) (e : Engine L) :
  nd_stddev d = 0 ->
  exists d' e', draw d e = (nd_mean d, d', e') /\
    nd_mean d' = nd_mean d /\ nd_stddev d' = 0.
Proof.
  intros Hs. unfold draw.
  destruct (std_normal L (nd_state d) e) as [[z s] e'].
  exists (mkNormalDist (nd_mean d) (nd_stddev d) s), e'.
  split; [|split; [reflexivity|exact Hs]].
  f_equal. f_equal. rewrite Hs. ring.
Qed.

(** With zero standard deviations every trip of the loop of [init] pushes
    a particle at the means of the three distributions. *)
Lemma init_loop_pinned (x y theta : R) (k : nat) (ps0 : list Particle) :
  exists st,
    for_upto k init_body (ps0, @fresh_noise L x y theta 0 0 0) = Some st /\
    exists news, fst st = ps0 ++ news /\ length news = k /\
      forall p, p ∈ news -> (p_x p, p_y p, p_theta p) = (x, y, theta).
Proof.
  pose (Inv := fun (k : nat) (st : list Particle * Noise L) =>
    ((nd_mean (dist_x (snd st)) = x /\ nd_stddev (dist_x (snd st)) = 0) /\
     (nd_mean (dist_y (snd st)) = y /\ nd_stddev (dist_y (snd st)) = 0) /\
     (nd_mean (dist_theta (snd st)) = theta
      /\ nd_stddev (dist_theta (snd st)) = 0)) /\
    exists news, fst st = ps0 ++ news /\ length news = k /\
      forall p, p ∈ news -> (p_x p, p_y p, p_theta p) = (x, y, theta)).
  destruct (for_upto_inv Inv k init_body (ps0, fresh_noise x y theta 0 0 0))
    as (st & Hrun & _ & Hnews); [| |exists st; split; assumption].
  - split; [repeat split; reflexivity|].
    exists []. rewrite app_nil_r. split; [reflexivity|].
    split; [reflexivity|]. intros p Hp. inversion Hp.
  - intros n [ps ns] _ (((Hmx & Hsx) & (Hmy & Hsy) & (Hmt & Hst))
                        & news & Hfst & Hlen & Hall).
    cbn [fst snd] in *. unfold init_body, draw3. cbn [fst snd].
    destruct (draw_pinned (dist_x ns) (randGen ns) Hsx)
      as (dx & e1 & -> & Hmx' & Hsx').
    destruct (draw_pinned (dist_y ns) e1 Hsy) as (dy & e2 & -> & Hmy' & Hsy').
    destruct (draw_pinned (dist_theta ns) e2 Hst)
      as (dt & e3 & -> & Hmt' & Hst').
    eexists. split; [reflexivity|].
    unfold Inv. cbn [fst snd dist_x dist_y dist_theta].
    split; [repeat split; congruence|].
    eexists. split; [rewrite Hfst, <- app_assoc; reflexivity|].
    split; [rewrite length_app; cbn; lia|].
    intros p Hp. apply elem_of_app in Hp as [Hp|Hp]; [apply Hall, Hp|].
    apply list_elem_of_singleton in Hp as ->. cbn. congruence.
Qed.

End InitNoiseFree.

(** X2: with the three standard deviations at zero, [init] returns and
    every particle it pushes sits exactly at the given pose
    [(x, y, theta)]. *)
Theorem init_noise_free (L : RandomLib) (x y theta : R) (pf : ParticleFilter) :
  exists pf', init L x y theta [0; 0; 0] pf = Some pf' /\
    forall i p,
      particles pf' !! (length (particles pf) + i)%nat = Some p ->
      (p_x p, p_y p, p_theta p) = (x, y, theta).
Proof.
  unfold init. cbn [lookup list_lookup mbind option_bind].
  destruct (@init_loop_pinned L x y theta (Z.to_nat 100) (particles pf))
    as (st & Hrun & news & Hfst & _ & Hall).
  rewrite Hrun. cbn [mbind option_bind].
  eexists. split; [reflexivity|]. cbn [particles]. rewrite Hfst.
  intros i p Hi. rewrite lookup_app_r in Hi by lia.
  apply Hall. apply list_elem_of_lookup. eauto.
Qed.

(** ** Prediction, again *)

Lemma move_keeps (delta_t velocity yaw_rate : R) (nz : R * R * R)
    (p : Particle) :
  p_id (move delta_t velocity yaw_rate nz p) = p_id p /\
  p_weight (move delta_t velocity yaw_rate nz p) = p_weight p /\
  p_associations (move delta_t velocity yaw_rate nz p) = p_associations p /\
  p_sense_x (move delta_t velocity yaw_rate nz p) = p_sense_x p /\
  p_sense_y (move delta_t velocity yaw_rate nz p) = p_sense_y p /\
  p_theta (move delta_t velocity yaw_rate nz p)
  = p_theta p + (yaw_rate * delta_t + snd nz).
Proof.
  destruct nz as [[nx ny] nt]. unfold move.
  destruct (Rgt_dec (Rabs yaw_rate) 0.0001); cbn; repeat split; reflexivity.
Qed.

(** X3: [prediction] on a well-formed filter returns and changes poses
    only: the count, the size of the population and each particle's
    identity, weight, associations and sensed coordinates are kept, and on
    either branch of the motion model the heading advances by
    [yaw_rate * delta_t] plus its noise, without being wrapped. *)
Theorem prediction_changes_pose_only (L : RandomLib) (delta_t : R)
    (std_pos : list R) (velocity yaw_rate : R) (pf : ParticleFilter) :
  population_ok pf -> (3 <= length std_pos)%nat ->
  exists pf',
    prediction L delta_t std_pos velocity yaw_rate pf = Some pf' /\
    num_particles pf' = num_particles pf /\
    length (particles pf') = length (particles pf) /\
    forall n p, particles pf !! n = Some p ->
      exists p', particles pf' !! n = Some p' /\
        p_id p' = p_id p /\ p_weight p' = p_weight p /\
        p_associations p' = p_associations p /\
        p_sense_x p' = p_sense_x p /\ p_sense_y p' = p_sense_y p /\
        p_theta p'
        = p_theta p + (yaw_rate * delta_t
                       + snd (prediction_noise L std_pos n)).
Proof.
  intros Hok Hstd.
  destruct (@prediction_fixed_noise L delta_t velocity yaw_rate std_pos pf
              Hok Hstd) as (pf' & Hrun & Hnum & Hps).
  exists pf'. split; [exact Hrun|]. split; [exact Hnum|].
  rewrite Hps. split; [apply length_imap|].
  intros n p Hn. rewrite list_lookup_imap, Hn.
  eexists. split; [reflexivity|]. apply move_keeps.
Qed.

(** X3 on one particle that carries bookkeeping of an earlier cycle. *)
Lemma prediction_changes_pose_only_witness :
  exists pf',
    prediction lehmer_lib 0.1 [0.3; 0.3; 0.01] 2 0.5
      (mkFilter 1 true [mkParticle 3 4 5 0 0.25 [8%Z] [6] [7]]) = Some pf' /\
    exists p', particles pf' !! 0%nat = Some p' /\
      p_id p' = 3%Z /\ p_weight p' = 0.25 /\ p_associations p' = [8%Z] /\
      p_sense_x p' = [6] /\ p_sense_y p' = [7].
Proof.
  destruct (prediction_changes_pose_only lehmer_lib 0.1 [0.3; 0.3; 0.01] 2 0.5
              (mkFilter 1 true [mkParticle 3 4 5 0 0.25 [8%Z] [6] [7]]))
    as (pf' & Hrun & _ & _ & Hkeep).
  - reflexivity.
  - cbn. lia.
  - exists pf'. split; [exact Hrun|].
    destruct (Hkeep 0%nat (mkParticle 3 4 5 0 0.25 [8%Z] [6] [7]) eq_refl)
      as (p' & Hp' & Hid & Hw & Ha & Hx & Hy & _).
    exists p'. repeat split; assumption.
Defined.

(** A whole noise-free call of [prediction] on a well-formed filter. *)
Lemma prediction_zero_run (L : RandomLib) (delta_t velocity yaw_rate : R)
    (pf : ParticleFilter) :
  population_ok pf ->
  prediction L delta_t [0; 0; 0] velocity yaw_rate pf
  = Some (set_particles pf
            (map (kinematic delta_t velocity yaw_rate) (particles pf))).
Proof.
  intros Hok. unfold population_ok in Hok.
  unfold prediction. cbn [lookup list_lookup mbind option_bind].
  destruct (@prediction_loop_zero L delta_t velocity yaw_rate (trips pf)
              (particles pf) (fresh_noise 0 0 0 0 0 0))
    as (st & Hrun & Hlen & Hget).
  - lia.
  - repeat split; reflexivity.
  - rewrite Hrun. cbn [mbind option_bind]. do 2 f_equal.
    apply list_eq. intros j. rewrite Hget, list_lookup_fmap.
    destruct (decide (j < trips pf)%nat) as [_|Hge]; [reflexivity|].
    rewrite (lookup_ge_None_2 (particles pf) j) by lia. reflexivity.
Qed.

Lemma kinematic_composes (dt1 dt2 velocity yaw_rate : R) (p : Particle) :
  Rabs yaw_rate > 0.0001 \/ yaw_rate = 0 ->
  kinematic dt2 velocity yaw_rate (kinematic dt1 velocity yaw_rate p)
  = kinematic (dt1 + dt2) velocity yaw_rate p.
Proof.
  intros Hw. unfold kinematic.
  destruct (Rgt_dec (Rabs yaw_rate) 0.0001) as [Hgt|Hle].
  - unfold set_pose.
    cbn [p_id p_x p_y p_theta p_weight p_associations p_sense_x p_sense_y].
    replace (p_theta p + yaw_rate * dt1 + yaw_rate * dt2)
      with (p_theta p + yaw_rate * (dt1 + dt2)) by ring.
    f_equal; ring.
  - destruct Hw as [Hgt| ->]; [contradiction|].
    unfold set_pose.
    cbn [p_id p_x p_y p_theta p_weight p_associations p_sense_x p_sense_y].
    replace (p_theta p + 0 * dt1) with (p_theta p) by ring.
    f_equal; ring.
Qed.

(** X4: noise-free prediction composes over time.  When the yaw rate is
    above the threshold, or exactly zero, two calls with [dt1] then [dt2]
    leave the filter one call with [dt1 + dt2] leaves. *)
Theorem prediction_noise_free_composes (L : RandomLib)
    (dt1 dt2 velocity yaw_rate : R) (pf : ParticleFilter) :
  population_ok pf ->
  Rabs yaw_rate > 0.0001 \/ yaw_rate = 0 ->
  exists pf1 pf2,
    prediction L dt1 [0; 0; 0] velocity yaw_rate pf = Some pf1 /\
    prediction L dt2 [0; 0; 0] velocity yaw_rate pf1 = Some pf2 /\
    prediction L (dt1 + dt2) [0; 0; 0] velocity yaw_rate pf = Some pf2.
Proof.
  intros Hok Hw.
  pose (pf1 := set_particles pf
                 (map (kinematic dt1 velocity yaw_rate) (particles pf))).
  assert (Hok1 : population_ok pf1).
  { unfold population_ok, trips, pf1 in *. cbn. rewrite length_map. exact Hok. }
  exists pf1, (set_particles pf1
                 (map (kinematic dt2 velocity yaw_rate) (particles pf1))).
  split; [apply prediction_zero_run, Hok|].
  split; [apply prediction_zero_run, Hok1|].
  rewrite (prediction_zero_run L (dt1 + dt2) velocity yaw_rate pf Hok).
  unfold pf1, set_particles. cbn [num_particles is_initialized particles].
  do 2 f_equal. rewrite map_map. apply map_ext.
  intros p. symmetry. apply kinematic_composes, Hw.
Qed.

(** X4 on a turn: half a second twice is one second. *)
Lemma prediction_noise_free_composes_witness :
  exists pf1 pf2,
    prediction lehmer_lib 0.5 [0; 0; 0] 2 1
      (mkFilter 1 true [mkParticle 0 4 5 0 1 [] [] []]) = Some pf1 /\
    prediction lehmer_lib 0.5 [0; 0; 0] 2 1 pf1 = Some pf2 /\
    prediction lehmer_lib (0.5 + 0.5) [0; 0; 0] 2 1
      (mkFilter 1 true [mkParticle 0 4 5 0 1 [] [] []]) = Some pf2.
Proof.
  apply (prediction_noise_free_composes lehmer_lib 0.5 0.5 2 1
           (mkFilter 1 true [mkParticle 0 4 5 0 1 [] [] []])).
  - reflexivity.
  - left. rewrite Rabs_R1. lra.
Defined.

(** X5: on the straight-line branch, a noise-free call of [prediction]
    moves every particle by exactly [|velocity * delta_t|]. *)
Theorem prediction_straight_step_length (L : RandomLib)
    (delta_t velocity yaw_rate : R) (pf : ParticleFilter) :
  population_ok pf ->
  Rabs yaw_rate <= 0.0001 ->
  exists pf',
    prediction L delta_t [0; 0; 0] velocity yaw_rate pf = Some pf' /\
    forall n p, particles pf !! n = Some p ->
      exists p', particles pf' !! n = Some p' /\
        dist (p_x p) (p_y p) (p_x p') (p_y p') = Rabs (velocity * delta_t).
Proof.
  intros Hok Hw. eexists. split; [apply prediction_zero_run, Hok|].
  intros n p Hn. cbn [particles set_particles].
  rewrite list_lookup_fmap, Hn. eexists. split; [reflexivity|].
  unfold kinematic. destruct (Rgt_dec (Rabs yaw_rate) 0.0001) as [Hgt|_]; [lra|].
  unfold dist.
  cbn [set_pose p_id p_x p_y p_theta p_weight p_associations p_sense_x p_sense_y].
  pose proof (sin2_cos2 (p_theta p)) as Hsc. unfold Rsqr in Hsc.
  replace ((p_x p + velocity * cos (p_theta p) * delta_t - p_x p)
           * (p_x p + velocity * cos (p_theta p) * delta_t - p_x p)
           + (p_y p + velocity * sin (p_theta p) * delta_t - p_y p)
             * (p_y p + velocity * sin (p_theta p) * delta_t - p_y p))
    with (Rsqr (velocity * delta_t)).
  - apply sqrt_Rsqr_abs.
  - unfold Rsqr.
    transitivity (velocity * delta_t * (velocity * delta_t)
                  * (sin (p_theta p) * sin (p_theta p)
                     + cos (p_theta p) * cos (p_theta p))).
    + rewrite Hsc. ring.
    + ring.
Qed.

(** X5 at yaw rate zero: speed 2 for a quarter second is half a unit. *)
Lemma prediction_straight_step_length_witness :
  exists pf',
    prediction lehmer_lib 0.25 [0; 0; 0] 2 0
      (mkFilter 1 true [mkParticle 0 4 5 1 1 [] [] []]) = Some pf' /\
    forall n p, [mkParticle 0 4 5 1 1 [] [] []] !! n = Some p ->
      exists p', particles pf' !! n = Some p' /\
        dist (p_x p) (p_y p) (p_x p') (p_y p') = Rabs (2 * 0.25).
Proof.
  apply (prediction_straight_step_length lehmer_lib 0.25 2 0
           (mkFilter 1 true [mkParticle 0 4 5 1 1 [] [] []])).
  - reflexivity.
  - rewrite Rabs_R0. lra.
Defined.

(** X6: on the curved branch, a noise-free call of [prediction] keeps the
    turning centre of every particle,
    [(x - v/w * sin theta, y + v/w * cos theta)]: the particle moves on a
    circle around it. *)
Theorem prediction_turning_centre (L : RandomLib)
    (delta_t velocity yaw_rate : R) (pf : ParticleFilter) :
  population_ok pf ->
  Rabs yaw_rate > 0.0001 ->
  exists pf',
    prediction L delta_t [0; 0; 0] velocity yaw_rate pf = Some pf' /\
    forall n p, particles pf !! n = Some p ->
      exists p', particles pf' !! n = Some p' /\
        p_x p' - velocity / yaw_rate * sin (p_theta p')
        = p_x p - velocity / yaw_rate * sin (p_theta p) /\
        p_y p' + velocity / yaw_rate * cos (p_theta p')
        = p_y p + velocity / yaw_rate * cos (p_theta p).
Proof.
  intros Hok Hw. eexists. split; [apply prediction_zero_run, Hok|].
  intros n p Hn. cbn [particles set_particles].
  rewrite list_lookup_fmap, Hn. eexists. split; [reflexivity|].
  unfold kinematic. destruct (Rgt_dec (Rabs yaw_rate) 0.0001) as [_|Hle]; [|lra].
  cbn [set_pose p_id p_x p_y p_theta p_weight p_associations p_sense_x p_sense_y].
  split; ring.
Qed.

(** X6 on a unit yaw rate. *)
Lemma prediction_turning_centre_witness :
  exists pf',
    prediction lehmer_lib 0.25 [0; 0; 0] 2 1
      (mkFilter 1 true [mkParticle 0 4 5 1 1 [] [] []]) = Some pf' /\
    forall n p, [mkParticle 0 4 5 1 1 [] [] []] !! n = Some p ->
      exists p', particles pf' !! n = Some p' /\
        p_x p' - 2 / 1 * sin (p_theta p') = p_x p - 2 / 1 * sin (p_theta p) /\
        p_y p' + 2 / 1 * cos (p_theta p') = p_y p + 2 / 1 * cos (p_theta p).
Proof.
  apply (prediction_turning_centre lehmer_lib 0.25 2 1
           (mkFilter 1 true [mkParticle 0 4 5 1 1 [] [] []])).
  - reflexivity.
  - rewrite Rabs_R1. lra.
Defined.

(** ** The association resolver, again *)

Lemma first_nearest_unique (predicted : list LandmarkObs) (obs : LandmarkObs)
    (i j : nat) (p q : LandmarkObs) :
  first_nearest predicted obs i p -> first_nearest predicted obs j q ->
  i = j /\ p = q.
Proof.
  intros (Hi & Hmini & Hfi) (Hj & Hminj & Hfj).
  assert (Hij : i = j).
  { destruct (Nat.lt_trichotomy i j) as [Hlt|[Heq|Hgt]]; [|exact Heq|].
    - pose proof (Hfj i p Hlt Hi).
      pose proof (Hmini q ltac:(apply list_elem_of_lookup; eauto)). lra.
    - pose proof (Hfi j q Hgt Hj).
      pose proof (Hminj p ltac:(apply list_elem_of_lookup; eauto)). lra. }
  subst j. split; [reflexivity|congruence].
Qed.

(** The body of the observation loop, in both of its cases. *)
Lemma associate_cases (unset : LandmarkObs) (predicted : list LandmarkObs)
    (obs : LandmarkObs) :
  (exists i p, first_nearest predicted obs i p /\ dto obs p < minDist0 /\
     associate unset predicted obs = set_obs_id obs (o_id p))
  \/
  ((forall q, q ∈ predicted -> minDist0 <= dto obs q) /\
   associate unset predicted obs = set_obs_id obs (o_id unset)).
Proof.
  unfold associate.
  destruct (scan_spec obs predicted (minDist0, unset))
    as [[Heq Hall]|(i & p & Hfn & Hlt & Heq)].
  - right. split; [exact Hall|]. rewrite Heq. reflexivity.
  - left. exists i, p. split; [exact Hfn|]. split; [exact Hlt|].
    rewrite Heq. reflexivity.
Qed.

(** X7: what [dataAssociation] gives an observation, on every input.  The
    observation keeps its coordinates; its identity is that of the first
    nearest predicted entry when that entry is closer than 9.9e50, and the
    identity of the never-assigned [bestFit] when no predicted entry is
    closer than 9.9e50 (an empty or a far predicted set). *)
Theorem dataAssociation_cases (unset : LandmarkObs)
    (predicted observations : list LandmarkObs) (k : nat) (obs : LandmarkObs) :
  observations !! k = Some obs ->
  (exists i p, first_nearest predicted obs i p /\ dto obs p < minDist0 /\
     dataAssociation unset predicted observations !! k
     = Some (set_obs_id obs (o_id p)))
  \/
  ((forall q, q ∈ predicted -> minDist0 <= dto obs q) /\
   dataAssociation unset predicted observations !! k
   = Some (set_obs_id obs (o_id unset))).
Proof.
  intros Hk. rewrite dataAssociation_lookup, Hk.
  cbn [fmap option_fmap option_map].
  destruct (associate_cases unset predicted obs)
    as [(i & p & Hfn & Hlt & ->)|[Hall ->]].
  - left. exists i, p. auto.
  - right. auto.
Qed.

(** X7 on an observation at the origin and one predicted entry at (3, 0). *)
Lemma dataAssociation_cases_witness :
  dataAssociation (mkLandmarkObs (-1) 0 0) [mkLandmarkObs 7 3 0]
    [mkLandmarkObs 0 0 0] !! 0%nat
  = Some (set_obs_id (mkLandmarkObs 0 0 0) 7).
Proof.
  pose (junk := mkLandmarkObs (-1) 0 0).
  pose (near := mkLandmarkObs 7 3 0).
  pose (origin := mkLandmarkObs 0 0 0).
  assert (Hd : dto origin near = 3).
  { unfold dto, near, origin. cbn [o_x o_y].
    rewrite dist_horizontal, Rabs_left by lra. lra. }
  destruct (dataAssociation_cases junk [near] [origin] 0%nat origin eq_refl)
    as [(i & p & (Hi & _ & _) & _ & Hres)|[Hall _]].
  - destruct i as [|i]; [|discriminate Hi].
    injection Hi as <-. exact Hres.
  - specialize (Hall near ltac:(left)). rewrite Hd in Hall.
    unfold minDist0 in Hall. lra.
Defined.

(** The resolver does not read the never-assigned [bestFit] on an
    observation that has a predicted entry closer than the sentinel. *)
Lemma associate_any_unset (unset1 unset2 : LandmarkObs)
    (predicted : list LandmarkObs) (obs : LandmarkObs) :
  (exists q, q ∈ predicted /\ dto obs q < minDist0) ->
  associate unset1 predicted obs = associate unset2 predicted obs.
Proof.
  intros (q & Hq & Hlt).
  destruct (associate_cases unset1 predicted obs)
    as [(i1 & p1 & Hfn1 & _ & ->)|[Hfar _]];
    [|specialize (Hfar q Hq); lra].
  destruct (associate_cases unset2 predicted obs)
    as [(i2 & p2 & Hfn2 & _ & ->)|[Hfar _]];
    [|specialize (Hfar q Hq); lra].
  destruct (first_nearest_unique predicted obs i1 i2 p1 p2 Hfn1 Hfn2)
    as [_ ->].
  reflexivity.
Qed.

(** X8: [dataAssociation] reads the coordinates of the observations only.
    When every observation has a predicted entry closer than 9.9e50, the
    identities the observations come with do not matter, and a second
    call on the output of the first changes nothing, whatever the
    never-assigned local of either call holds. *)
Theorem dataAssociation_idempotent (unset1 unset2 : LandmarkObs)
    (predicted observations : list LandmarkObs) :
  (forall obs, obs ∈ observations ->
     exists q, q ∈ predicted /\ dto obs q < minDist0) ->
  (forall ids : LandmarkObs -> Z,
     dataAssociation unset2 predicted
       (map (fun obs => set_obs_id obs (ids obs)) observations)
     = dataAssociation unset1 predicted observations) /\
  dataAssociation unset2 predicted
    (dataAssociation unset1 predicted observations)
  = dataAssociation unset1 predicted observations.
Proof.
  intros Hnear.
  assert (Hids : forall ids : LandmarkObs -> Z,
     dataAssociation unset2 predicted
       (map (fun obs => set_obs_id obs (ids obs)) observations)
     = dataAssociation unset1 predicted observations).
  { intros ids. unfold dataAssociation. rewrite map_map.
    apply list_eq. intros k. rewrite !list_lookup_fmap.
    destruct (observations !! k) as [obs|] eqn:Hk; [|reflexivity].
    cbn [fmap option_fmap option_map]. f_equal.
    transitivity (associate unset2 predicted obs); [reflexivity|].
    apply associate_any_unset, Hnear.
    apply list_elem_of_lookup. eauto. }
  split; [exact Hids|].
  exact (Hids (fun obs => o_id (associate unset1 predicted obs))).
Qed.

(** X8 on one observation at the origin and one predicted entry at
    (3, 0). *)
Lemma dataAssociation_idempotent_witness :
  dataAssociation (mkLandmarkObs 5 100 100) [mkLandmarkObs 7 3 0]
    (dataAssociation (mkLandmarkObs (-1) 0 0) [mkLandmarkObs 7 3 0]
       [mkLandmarkObs 0 0 0])
  = dataAssociation (mkLandmarkObs (-1) 0 0) [mkLandmarkObs 7 3 0]
      [mkLandmarkObs 0 0 0].
Proof.
  apply (dataAssociation_idempotent (mkLandmarkObs (-1) 0 0)
           (mkLandmarkObs 5 100 100) [mkLandmarkObs 7 3 0]
           [mkLandmarkObs 0 0 0]).
  intros obs Hobs. apply list_elem_of_singleton in Hobs as ->.
  exists (mkLandmarkObs 7 3 0). split; [left|].
  unfold dto. cbn [o_x o_y].
  rewrite dist_horizontal, Rabs_left by lra. unfold minDist0. lra.
Defined.

(** ** The weight of one particle *)

(** X9: the search of [CalculateParticleWeight] returns the first candidate
    that carries the identity, whatever follows it in the list, and leaves
    the local as it was when no candidate carries it. *)
Theorem find_match_first_or_untouched (lmId : Z)
    (predictedLandMarks : list LandmarkObs) (pred_LM_match : LandmarkObs) :
  (forall i q,
     predictedLandMarks !! i = Some q -> o_id q = lmId ->
     (forall j q', (j < i)%nat -> predictedLandMarks !! j = Some q' ->
                   o_id q' <> lmId) ->
     find_match lmId predictedLandMarks pred_LM_match = q) /\
  ((forall q, q ∈ predictedLandMarks -> o_id q <> lmId) ->
   find_match lmId predictedLandMarks pred_LM_match = pred_LM_match).
Proof.
  split.
  - induction predictedLandMarks as [|a l IH]; intros i q Hi Hid Hfirst.
    + destruct i; discriminate Hi.
    + cbn [find_match]. destruct i as [|i].
      * injection Hi as ->. rewrite Hid, Z.eqb_refl. reflexivity.
      * destruct (Z.eqb_spec lmId (o_id a)) as [Heq|_].
        -- exfalso. apply (Hfirst 0%nat a); [lia|reflexivity|congruence].
        -- apply (IH i q Hi Hid). intros j q' Hj Hq'.
           apply (Hfirst (S j) q'); [lia|exact Hq'].
  - induction predictedLandMarks as [|a l IH]; intros Hnone; [reflexivity|].
    cbn [find_match]. destruct (Z.eqb_spec lmId (o_id a)) as [Heq|_].
    + exfalso. apply (Hnone a); [left|congruence].
    + apply IH. intros q Hq. apply Hnone. right. exact Hq.
Qed.

Section WeightProduct.

Variable unset : LandmarkObs.
Variables (s0 s1 : R) (predictedLandMarks : list LandmarkObs).

Lemma weight_product_snoc (associations : list Z) :
  forall (sense_x sense_y : list R) (lmId : Z) (sx sy weight : R),
    length sense_x = length associations ->
    length sense_y = length associations ->
    weight_product unset s0 s1 predictedLandMarks (associations ++ [lmId])
      (sense_x ++ [sx]) (sense_y ++ [sy]) weight
    = weight_product unset s0 s1 predictedLandMarks associations sense_x
        sense_y weight
      * multiv_prob s0 s1 sx sy
          (o_x (find_match lmId predictedLandMarks unset))
          (o_y (find_match lmId predictedLandMarks unset)).
Proof.
  induction associations as [|a l IH];
    intros [|x xs] [|y ys] lmId sx sy weight Hx Hy;
    try discriminate Hx; try discriminate Hy.
  - reflexivity.
  - cbn [app weight_product]. apply IH.
    + cbn in Hx. lia.
    + cbn in Hy. lia.
Qed.

(** The loop of [CalculateParticleWeight] on three vectors of one length. *)
Lemma weight_loop (particle : Particle) (rest : list R) :
  length (p_sense_x particle) = length (p_associations particle) ->
  length (p_sense_y particle) = length (p_associations particle) ->
  for_upto (length (p_associations particle))
    (weight_body unset particle (s0 :: s1 :: rest) predictedLandMarks) 1
  = Some (weight_product unset s0 s1 predictedLandMarks
            (p_associations particle) (p_sense_x particle)
            (p_sense_y particle) 1).
Proof.
  intros Hx Hy.
  pose (Inv := fun (k : nat) (w : R) =>
    w = weight_product unset s0 s1 predictedLandMarks
          (take k (p_associations particle)) (take k (p_sense_x particle))
          (take k (p_sense_y particle)) 1).
  destruct (for_upto_inv Inv (length (p_associations particle))
              (weight_body unset particle (s0 :: s1 :: rest)
                 predictedLandMarks) 1) as (w & Hrun & Hw).
  - reflexivity.
  - intros k w Hk ->. unfold weight_body.
    destruct (lookup_lt_is_Some_2 (p_associations particle) k Hk) as [a Ha].
    destruct (lookup_lt_is_Some_2 (p_sense_x particle) k ltac:(lia))
      as [sx Hsx].
    destruct (lookup_lt_is_Some_2 (p_sense_y particle) k ltac:(lia))
      as [sy Hsy].
    rewrite Ha, Hsx, Hsy. cbn [mbind option_bind lookup list_lookup].
    eexists. split; [reflexivity|]. unfold Inv.
    rewrite (take_S_r _ k a Ha), (take_S_r _ k sx Hsx), (take_S_r _ k sy Hsy).
    rewrite weight_product_snoc; [reflexivity| |];
      rewrite !length_take; lia.
  - rewrite Hrun, Hw.
    rewrite !take_ge by lia. reflexivity.
Qed.

End WeightProduct.

(** X10: on a particle whose three vectors have one length,
    [CalculateParticleWeight] returns and replaces the weight by the
    product, over the associations in order, of the density of each sensed
    point against the candidate found for its identity; the weight the
    particle came with is not read, and nothing but the weight changes. *)
Theorem CalculateParticleWeight_product (unset : LandmarkObs)
    (particle : Particle) (s0 s1 : R) (rest : list R)
    (predictedLandMarks : list LandmarkObs) :
  length (p_sense_x particle) = length (p_associations particle) ->
  length (p_sense_y particle) = length (p_associations particle) ->
  CalculateParticleWeight unset particle (s0 :: s1 :: rest) predictedLandMarks
  = Some (set_weight particle
            (weight_product unset s0 s1 predictedLandMarks
               (p_associations particle) (p_sense_x particle)
               (p_sense_y particle) 1)).
Proof.
  intros Hx Hy. unfold CalculateParticleWeight.
  rewrite weight_loop by assumption. reflexivity.
Qed.

(** X10 on two associations against two candidates. *)
Lemma CalculateParticleWeight_product_witness :
  CalculateParticleWeight (mkLandmarkObs (-1) 0 0)
    (mkParticle 0 4 5 0 0.25 [7%Z; 9%Z] [6; 1] [7; 2]) [0.3; 0.3]
    [mkLandmarkObs 9 1 2; mkLandmarkObs 7 6 7]
  = Some (set_weight (mkParticle 0 4 5 0 0.25 [7%Z; 9%Z] [6; 1] [7; 2])
            (1 * multiv_prob 0.3 0.3 6 7 6 7 * multiv_prob 0.3 0.3 1 2 1 2)).
Proof.
  apply (CalculateParticleWeight_product (mkLandmarkObs (-1) 0 0)
           (mkParticle 0 4 5 0 0.25 [7%Z; 9%Z] [6; 1] [7; 2]) 0.3 0.3 []
           [mkLandmarkObs 9 1 2; mkLandmarkObs 7 6 7]).
  - reflexivity.
  - reflexivity.
Defined.

(** ** A whole call of [updateWeights] *)

Section UpdateRun.

Variable unset : LandmarkObs.
Variables (sensor_range : R) (std_landmark : list R).
Variables (observations : list LandmarkObs) (map_landmarks : Map).

(** On a well-formed filter whose particles can all be scored,
    [updateWeights] returns the scored particles, normalised. *)
Lemma updateWeights_run_gen (pf : ParticleFilter) :
  population_ok pf ->
  (forall p, p ∈ particles pf ->
     is_Some (scored unset sensor_range std_landmark observations
                map_landmarks p)) ->
  exists ps,
    length ps = length (particles pf) /\
    (forall j p, particles pf !! j = Some p ->
       ps !! j
       = scored unset sensor_range std_landmark observations map_landmarks p) /\
    updateWeights unset sensor_range std_landmark observations map_landmarks pf
    = Some (set_particles pf (normalized (length (particles pf)) ps)).
Proof.
  intros Hok Hsc. unfold population_ok in Hok.
  destruct (update_loop
              (scored unset sensor_range std_landmark observations
                 map_landmarks)
              (score_body unset sensor_range std_landmark observations
                 map_landmarks)
              (trips pf) (particles pf))
    as (ps & Hrun & Hlen & Hget).
  - intros n l'. reflexivity.
  - lia.
  - exact Hsc.
  - exists ps. split; [exact Hlen|]. split.
    + intros j p Hj. rewrite Hget, Hj.
      destruct (decide (j < trips pf)%nat) as [_|Hge]; [reflexivity|].
      apply lookup_lt_Some in Hj. lia.
    + unfold updateWeights, score_all. rewrite Hrun.
      cbn [mbind option_bind]. unfold normalize.
      rewrite sum_loop by lia. cbn [mbind option_bind].
      unfold normalized. rewrite <- Hok.
      destruct (Rgt_dec (weight_sum (trips pf) ps) 1e-5) as [Hgt|Hle].
      * destruct (divide_loop (weight_sum (trips pf) ps) (trips pf) ps
                    ltac:(lia)) as (ps' & Hdiv & Hlen' & Hget').
        rewrite Hdiv. cbn [mbind option_bind]. do 2 f_equal.
        apply list_eq. intros j. rewrite Hget', list_lookup_fmap.
        destruct (decide (j < trips pf)%nat) as [_|Hge]; [reflexivity|].
        rewrite (lookup_ge_None_2 ps j) by lia. reflexivity.
      * reflexivity.
Qed.

End UpdateRun.

(** One trip of the particle loop, with both deviations given: what it
    records and the weight it computes. *)
Lemma scored_shape (unset : LandmarkObs) (sensor_range s0 s1 : R)
    (rest : list R) (observations : list LandmarkObs) (map_landmarks : Map)
    (p : Particle) :
  scored unset sensor_range (s0 :: s1 :: rest) observations map_landmarks p
  = Some (set_weight
            (set_sensed p
               (associations_of unset sensor_range observations
                  map_landmarks p)
               (map (fun obs => fst (local_to_map p obs)) observations)
               (map (fun obs => snd (local_to_map p obs)) observations))
            (weight_product unset s0 s1
               (predictedLMs sensor_range p map_landmarks)
               (associations_of unset sensor_range observations
                  map_landmarks p)
               (map (fun obs => fst (local_to_map p obs)) observations)
               (map (fun obs => snd (local_to_map p obs)) observations) 1)).
Proof.
  unfold scored. rewrite record_obs_eq.
  destruct (dataAssociation_coordinates unset
              (predictedLMs sensor_range p map_landmarks)
              (observations_mapCoordinates p observations)) as [-> ->].
  unfold observations_mapCoordinates at 2 3. rewrite to_map_fold.
  cbn [app]. rewrite !map_map. cbn [o_x o_y].
  fold (associations_of unset sensor_range observations map_landmarks p).
  assert (Hlen : length (associations_of unset sensor_range observations
                           map_landmarks p) = length observations).
  { unfold associations_of, dataAssociation, observations_mapCoordinates.
    rewrite to_map_fold. cbn [app]. rewrite !length_map. reflexivity. }
  unfold CalculateParticleWeight. rewrite weight_loop.
  - reflexivity.
  - cbn. rewrite length_map, Hlen. reflexivity.
  - cbn. rewrite length_map, Hlen. reflexivity.
Qed.

(** X11: after [updateWeights] the three bookkeeping vectors of every
    particle are parallel: each has one entry per observation, the
    associations being the identities the resolver gave the observations
    in that particle's map frame; identities of particles are kept. *)
Theorem updateWeights_bookkeeping (unset : LandmarkObs) (sensor_range : R)
    (std_landmark : list R) (observations : list LandmarkObs)
    (map_landmarks : Map) (pf : ParticleFilter) :
  population_ok pf ->
  (2 <= length std_landmark)%nat ->
  exists pf',
    updateWeights unset sensor_range std_landmark observations map_landmarks pf
    = Some pf' /\
    num_particles pf' = num_particles pf /\
    length (particles pf') = length (particles pf) /\
    forall n p, particles pf !! n = Some p ->
      exists p', particles pf' !! n = Some p' /\
        p_id p' = p_id p /\
        p_associations p'
        = associations_of unset sensor_range observations map_landmarks p /\
        length (p_associations p') = length observations /\
        length (p_sense_x p') = length observations /\
        length (p_sense_y p') = length observations.
Proof.
  intros Hok Hstd.
  destruct std_landmark as [|s0 [|s1 rest]]; cbn in Hstd; try lia.
  destruct (updateWeights_run_gen unset sensor_range (s0 :: s1 :: rest)
              observations map_landmarks pf Hok)
    as (ps & Hlen & Hget & Hrun).
  { intros p _. rewrite scored_shape. eauto. }
  eexists. split; [exact Hrun|]. split; [reflexivity|].
  cbn [particles set_particles]. unfold normalized.
  assert (Hlen_a : forall p,
            length (associations_of unset sensor_range observations
                      map_landmarks p) = length observations).
  { intros p.
    unfold associations_of, dataAssociation, observations_mapCoordinates.
    rewrite to_map_fold. cbn [app]. rewrite !length_map. reflexivity. }
  split.
  - destruct (Rgt_dec _ 1e-5); [rewrite length_map|]; exact Hlen.
  - intros n p Hn. specialize (Hget n p Hn). rewrite scored_shape in Hget.
    destruct (Rgt_dec _ 1e-5).
    + rewrite list_lookup_fmap, Hget. eexists. split; [reflexivity|].
      cbn. rewrite !length_map, Hlen_a. auto.
    + rewrite Hget. eexists. split; [reflexivity|].
      cbn. rewrite !length_map, Hlen_a. auto.
Qed.

(** X11 on one particle, one landmark and two observations. *)
Lemma updateWeights_bookkeeping_witness :
  exists pf',
    updateWeights (mkLandmarkObs (-1) 0 0) 50 [0.3; 0.3]
      [mkLandmarkObs 0 2 2; mkLandmarkObs 0 1 0] (mkMap [mkLandmark 1 6 7])
      (mkFilter 1 true [mkParticle 0 4 5 0 1 [] [] []]) = Some pf' /\
    exists p', particles pf' !! 0%nat = Some p' /\
      length (p_associations p') = 2%nat /\
      length (p_sense_x p') = 2%nat /\ length (p_sense_y p') = 2%nat.
Proof.
  destruct (updateWeights_bookkeeping (mkLandmarkObs (-1) 0 0) 50 [0.3; 0.3]
              [mkLandmarkObs 0 2 2; mkLandmarkObs 0 1 0]
              (mkMap [mkLandmark 1 6 7])
              (mkFilter 1 true [mkParticle 0 4 5 0 1 [] [] []]))
    as (pf' & Hrun & _ & _ & Hall).
  - reflexivity.
  - cbn. lia.
  - exists pf'. split; [exact Hrun|].
    destruct (Hall 0%nat (mkParticle 0 4 5 0 1 [] [] []) eq_refl)
      as (p' & Hp' & _ & _ & Ha & Hx & Hy).
    exists p'. repeat split; assumption.
Defined.

(** ** When the never-assigned locals are not read *)

Lemma find_match_matched (lmId : Z) (predictedLandMarks : list LandmarkObs)
    (unset1 unset2 : LandmarkObs) :
  (exists q, q ∈ predictedLandMarks /\ o_id q = lmId) ->
  find_match lmId predictedLandMarks unset1
  = find_match lmId predictedLandMarks unset2.
Proof.
  induction predictedLandMarks as [|a l IH]; intros (q & Hq & Hid).
  - inversion Hq.
  - cbn [find_match]. destruct (Z.eqb_spec lmId (o_id a)) as [_|Hne];
      [reflexivity|].
    apply IH. apply elem_of_cons in Hq as [->|Hq]; [congruence|eauto].
Qed.

Lemma CalculateParticleWeight_any_unset (unset1 unset2 : LandmarkObs)
    (particle : Particle) (std_landmark : list R)
    (predictedLandMarks : list LandmarkObs) :
  (forall a, a ∈ p_associations particle ->
     exists q, q ∈ predictedLandMarks /\ o_id q = a) ->
  CalculateParticleWeight unset1 particle std_landmark predictedLandMarks
  = CalculateParticleWeight unset2 particle std_landmark predictedLandMarks.
Proof.
  intros Hall. unfold CalculateParticleWeight.
  rewrite (for_upto_ext _
             (weight_body unset1 particle std_landmark predictedLandMarks)
             (weight_body unset2 particle std_landmark predictedLandMarks));
    [reflexivity|].
  intros k w. unfold weight_body.
  destruct (p_associations particle !! k) as [a|] eqn:Ha; [|reflexivity].
  cbn [mbind option_bind].
  rewrite (find_match_matched a predictedLandMarks unset1 unset2);
    [reflexivity|].
  apply Hall. apply list_elem_of_lookup. eauto.
Qed.

(** X12: when every association of the particle is carried by some
    candidate, [CalculateParticleWeight] does not read the never-assigned
    [pred_LM_match]: the candidate its search finds for each association is
    a candidate of the list that carries that identity, and the result is
    the same whatever the local holds. *)
Theorem CalculateParticleWeight_matched (unset1 unset2 : LandmarkObs)
    (particle : Particle) (std_landmark : list R)
    (predictedLandMarks : list LandmarkObs) :
  (forall a, a ∈ p_associations particle ->
     exists q, q ∈ predictedLandMarks /\ o_id q = a) ->
  (forall a, a ∈ p_associations particle ->
     find_match a predictedLandMarks unset1 ∈ predictedLandMarks /\
     o_id (find_match a predictedLandMarks unset1) = a) /\
  CalculateParticleWeight unset1 particle std_landmark predictedLandMarks
  = CalculateParticleWeight unset2 particle std_landmark predictedLandMarks.
Proof.
  intros Hall. split; [|apply CalculateParticleWeight_any_unset, Hall].
  intros a Ha. specialize (Hall a Ha). clear Ha.
  induction predictedLandMarks as [|c l IH].
  - destruct Hall as (q & Hq & _). inversion Hq.
  - cbn [find_match]. destruct (Z.eqb_spec a (o_id c)) as [Heq|Hne].
    + split; [left|congruence].
    + destruct IH as [Hin Hid].
      * destruct Hall as (q & Hq & Hid).
        apply elem_of_cons in Hq as [->|Hq]; [congruence|eauto].
      * split; [right; exact Hin|exact Hid].
Qed.

(** X12 on one association carried by the only candidate. *)
Lemma CalculateParticleWeight_matched_witness :
  CalculateParticleWeight (mkLandmarkObs (-1) 0 0)
    (mkParticle 0 4 5 0 1 [7%Z] [6] [7]) [0.3; 0.3] [mkLandmarkObs 7 6 7]
  = CalculateParticleWeight (mkLandmarkObs 5 100 100)
      (mkParticle 0 4 5 0 1 [7%Z] [6] [7]) [0.3; 0.3] [mkLandmarkObs 7 6 7].
Proof.
  apply (CalculateParticleWeight_matched (mkLandmarkObs (-1) 0 0)
           (mkLandmarkObs 5 100 100) (mkParticle 0 4 5 0 1 [7%Z] [6] [7])
           [0.3; 0.3] [mkLandmarkObs 7 6 7]).
  intros a Ha. cbn [p_associations] in Ha.
  apply list_elem_of_singleton in Ha as ->.
  exists (mkLandmarkObs 7 6 7). split; [left|reflexivity].
Defined.

Lemma observations_mapCoordinates_elem (p : Particle)
    (observations : list LandmarkObs) (o : LandmarkObs) :
  o ∈ observations_mapCoordinates p observations ->
  exists obs, obs ∈ observations /\
    o_x o = fst (local_to_map p obs) /\ o_y o = snd (local_to_map p obs).
Proof.
  unfold observations_mapCoordinates. rewrite to_map_fold. cbn [app].
  intros Ho. apply list_elem_of_fmap in Ho as (obs & -> & Hobs).
  exists obs. split; [exact Hobs|]. split; reflexivity.
Qed.

(** The particle loop does not read the never-assigned locals on a
    particle all of whose observations, in its map frame, have a candidate
    closer than the sentinel. *)
Lemma scored_any_unset (unset1 unset2 : LandmarkObs) (sensor_range : R)
    (std_landmark : list R) (observations : list LandmarkObs)
    (map_landmarks : Map) (p : Particle) :
  (forall obs, obs ∈ observations ->
     exists lm, lm ∈ predictedLMs sensor_range p map_landmarks /\
       dist (o_x lm) (o_y lm) (fst (local_to_map p obs))
         (snd (local_to_map p obs)) < minDist0) ->
  scored unset1 sensor_range std_landmark observations map_landmarks p
  = scored unset2 sensor_range std_landmark observations map_landmarks p.
Proof.
  intros Hnear. unfold scored.
  set (preds := predictedLMs sensor_range p map_landmarks) in *.
  set (O := observations_mapCoordinates p observations).
  assert (Hpick : forall unset o, o ∈ O ->
            exists i q, first_nearest preds o i q /\
              associate unset preds o = set_obs_id o (o_id q)).
  { intros unset o Ho.
    destruct (observations_mapCoordinates_elem p observations o Ho)
      as (obs & Hobs & Hx & Hy).
    destruct (Hnear obs Hobs) as (lm & Hlm & Hlt).
    destruct (associate_cases unset preds o)
      as [(i & q & Hfn & _ & Heq)|[Hfar _]]; [eauto|].
    specialize (Hfar lm Hlm). unfold dto in Hfar. rewrite Hx, Hy in Hfar. lra. }
  assert (HdA : dataAssociation unset1 preds O = dataAssociation unset2 preds O).
  { unfold dataAssociation. apply list_eq. intros k.
    rewrite !list_lookup_fmap. destruct (O !! k) as [o|] eqn:Hk; [|reflexivity].
    cbn [fmap option_fmap option_map]. f_equal.
    assert (Ho : o ∈ O) by (apply list_elem_of_lookup; eauto).
    destruct (Hpick unset1 o Ho) as (i1 & q1 & Hfn1 & ->).
    destruct (Hpick unset2 o Ho) as (i2 & q2 & Hfn2 & ->).
    destruct (first_nearest_unique preds o i1 i2 q1 q2 Hfn1 Hfn2) as [_ ->].
    reflexivity. }
  rewrite HdA. apply CalculateParticleWeight_any_unset.
  intros a Ha. rewrite record_obs_eq in Ha. cbn [p_associations set_sensed] in Ha.
  apply list_elem_of_fmap in Ha as (o' & -> & Ho').
  unfold dataAssociation in Ho'.
  apply list_elem_of_fmap in Ho' as (o & -> & Ho).
  destruct (Hpick unset2 o Ho) as (i & q & (Hi & _ & _) & ->).
  exists q. split; [apply list_elem_of_lookup; eauto|reflexivity].
Qed.

(** X13: [updateWeights] does not depend on what the never-assigned locals
    hold, on a well-formed filter where every observation, taken to the map
    frame of any particle, has a candidate landmark of that particle closer
    than 9.9e50. *)
Theorem updateWeights_any_unset (unset1 unset2 : LandmarkObs)
    (sensor_range : R) (std_landmark : list R)
    (observations : list LandmarkObs) (map_landmarks : Map)
    (pf : ParticleFilter) :
  population_ok pf ->
  (2 <= length std_landmark)%nat ->
  (forall p obs, p ∈ particles pf -> obs ∈ observations ->
     exists lm, lm ∈ predictedLMs sensor_range p map_landmarks /\
       dist (o_x lm) (o_y lm) (fst (local_to_map p obs))
         (snd (local_to_map p obs)) < minDist0) ->
  exists pf',
    updateWeights unset1 sensor_range std_landmark observations map_landmarks
      pf = Some pf' /\
    updateWeights unset2 sensor_range std_landmark observations map_landmarks
      pf = Some pf'.
Proof.
  intros Hok Hstd Hnear.
  destruct std_landmark as [|s0 [|s1 rest]]; cbn in Hstd; try lia.
  destruct (updateWeights_run_gen unset1 sensor_range (s0 :: s1 :: rest)
              observations map_landmarks pf Hok)
    as (ps1 & Hlen1 & Hget1 & Hrun1).
  { intros p _. rewrite scored_shape. eauto. }
  destruct (updateWeights_run_gen unset2 sensor_range (s0 :: s1 :: rest)
              observations map_landmarks pf Hok)
    as (ps2 & Hlen2 & Hget2 & Hrun2).
  { intros p _. rewrite scored_shape. eauto. }
  assert (Heq : ps1 = ps2).
  { apply list_eq. intros j.
    destruct (particles pf !! j) as [p|] eqn:Hj.
    - rewrite (Hget1 j p Hj), (Hget2 j p Hj).
      apply scored_any_unset. intros obs Hobs.
      apply Hnear; [apply list_elem_of_lookup; eauto|exact Hobs].
    - apply lookup_ge_None in Hj.
      rewrite !lookup_ge_None_2 by lia. reflexivity. }
  eexists. split; [exact Hrun1|]. rewrite Hrun2, Heq. reflexivity.
Qed.

Lemma predictedLMs_elem (sensor_range : R) (p : Particle)
    (map_landmarks : Map) (landmark : single_landmark_s) :
  landmark ∈ landmark_list map_landmarks ->
  dist (x_f landmark) (y_f landmark) (p_x p) (p_y p) < sensor_range ->
  landmark_obs landmark ∈ predictedLMs sensor_range p map_landmarks.
Proof.
  intros Hin Hlt. unfold predictedLMs. rewrite in_range_fold. cbn [app].
  apply list_elem_of_In, filter_In. split.
  - apply in_map, list_elem_of_In, Hin.
  - unfold within. cbn [landmark_obs o_x o_y].
    destruct (Rlt_dec _ sensor_range); [reflexivity|contradiction].
Qed.

(** X13 on one particle at (4, 5) heading 0, one landmark at (6, 5) and
    one observation that falls on it. *)
Lemma updateWeights_any_unset_witness :
  exists pf',
    updateWeights (mkLandmarkObs (-1) 0 0) 50 [0.3; 0.3]
      [mkLandmarkObs 0 2 0] (mkMap [mkLandmark 1 6 5])
      (mkFilter 1 true [mkParticle 0 4 5 0 1 [] [] []]) = Some pf' /\
    updateWeights (mkLandmarkObs 5 100 100) 50 [0.3; 0.3]
      [mkLandmarkObs 0 2 0] (mkMap [mkLandmark 1 6 5])
      (mkFilter 1 true [mkParticle 0 4 5 0 1 [] [] []]) = Some pf'.
Proof.
  apply (updateWeights_any_unset (mkLandmarkObs (-1) 0 0)
           (mkLandmarkObs 5 100 100) 50 [0.3; 0.3] [mkLandmarkObs 0 2 0]
           (mkMap [mkLandmark 1 6 5])
           (mkFilter 1 true [mkParticle 0 4 5 0 1 [] [] []])).
  - reflexivity.
  - cbn. lia.
  - intros p obs Hp Hobs. cbn [particles] in Hp.
    apply list_elem_of_singleton in Hp as ->.
    apply list_elem_of_singleton in Hobs as ->.
    exists (landmark_obs (mkLandmark 1 6 5)). split.
    + apply predictedLMs_elem; [left|].
      cbn [x_f y_f p_x p_y]. rewrite dist_horizontal, Rabs_left by lra. lra.
    + unfold local_to_map, translate, rotate.
      cbn [fst snd p_x p_y p_theta o_x o_y landmark_obs x_f y_f].
      rewrite cos_0, sin_0.
      replace (4 + (1 * 2 - 0 * 0)) with 6 by ring.
      replace (5 + (0 * 2 + 1 * 0)) with 5 by ring.
      rewrite dist_horizontal.
      replace (6 - 6) with 0 by ring. rewrite Rabs_R0. unfold minDist0. lra.
Defined.

(** ** Weights are never negative, and a cycle keeps the filter well formed *)

Lemma multiv_prob_pos (sig_x sig_y x_obs y_obs mu_x mu_y : R) :
  0 < sig_x -> 0 < sig_y ->
  0 < multiv_prob sig_x sig_y x_obs y_obs mu_x mu_y.
Proof.
  intros Hx Hy. unfold multiv_prob. apply Rdiv_lt_0_compat; [apply exp_pos|].
  pose proof PI_RGT_0. apply Rmult_lt_0_compat; [|exact Hy].
  apply Rmult_lt_0_compat; [lra|exact Hx].
Qed.

Lemma weight_product_pos (unset : LandmarkObs) (s0 s1 : R)
    (predictedLandMarks : list LandmarkObs) (associations : list Z) :
  0 < s0 -> 0 < s1 ->
  forall (sense_x sense_y : list R) (weight : R),
    0 < weight ->
    0 < weight_product unset s0 s1 predictedLandMarks associations sense_x
          sense_y weight.
Proof.
  intros H0 H1. induction associations as [|a l IH];
    intros [|x xs] [|y ys] weight Hw; cbn [weight_product]; try exact Hw.
  apply IH. apply Rmult_lt_0_compat; [exact Hw|].
  apply multiv_prob_pos; assumption.
Qed.

Lemma fold_plus_pos (ws : list R) :
  (forall w, w ∈ ws -> 0 < w) ->
  forall acc, 0 <= acc -> acc <= fold_left Rplus ws acc.
Proof.
  induction ws as [|w l IH]; intros Hpos acc Hacc; cbn [fold_left]; [lra|].
  pose proof (Hpos w ltac:(left)).
  pose proof (IH ltac:(intros v Hv; apply Hpos; right; exact Hv)
                (acc + w) ltac:(lra)).
  lra.
Qed.

Lemma sum_list_pos (ws : list R) :
  ws <> [] -> (forall w, w ∈ ws -> 0 < w) -> 0 < sum_list ws.
Proof.
  intros Hne Hpos. induction ws as [|w l IH]; [contradiction|].
  cbn [sum_list fold_right]. fold (sum_list l).
  pose proof (Hpos w ltac:(left)).
  destruct l as [|v l'].
  - cbn. lra.
  - pose proof (IH ltac:(discriminate)
                  ltac:(intros u Hu; apply Hpos; right; exact Hu)).
    lra.
Qed.

(** With positive deviations, over the reals, a whole call of
    [updateWeights] leaves positive weights. *)
Lemma updateWeights_positive_run (unset : LandmarkObs) (sensor_range : R)
    (s0 s1 : R) (rest : list R) (observations : list LandmarkObs)
    (map_landmarks : Map) (pf : ParticleFilter) :
  population_ok pf -> 0 < s0 -> 0 < s1 ->
  exists pf',
    updateWeights unset sensor_range (s0 :: s1 :: rest) observations
      map_landmarks pf = Some pf' /\
    num_particles pf' = num_particles pf /\
    length (particles pf') = length (particles pf) /\
    forall p', p' ∈ particles pf' -> 0 < p_weight p'.
Proof.
  intros Hok H0 H1.
  destruct (updateWeights_run_gen unset sensor_range (s0 :: s1 :: rest)
              observations map_landmarks pf Hok)
    as (ps & Hlen & Hget & Hrun).
  { intros p _. rewrite scored_shape. eauto. }
  assert (Hpos : forall q, q ∈ ps -> 0 < p_weight q).
  { intros q Hq. apply list_elem_of_lookup in Hq as [j Hj].
    destruct (lookup_lt_is_Some_2 (particles pf) j) as [p Hp].
    { apply lookup_lt_Some in Hj. lia. }
    rewrite (Hget j p Hp), scored_shape in Hj. injection Hj as <-.
    cbn [p_weight set_weight]. apply weight_product_pos; [assumption..|lra]. }
  eexists. split; [exact Hrun|]. split; [reflexivity|].
  cbn [particles set_particles]. unfold normalized.
  destruct (Rgt_dec (weight_sum (length (particles pf)) ps) 1e-5) as [Hgt|_].
  - split; [rewrite length_map; exact Hlen|].
    intros p' Hp'. apply list_elem_of_fmap in Hp' as (q & -> & Hq).
    cbn [scaled set_weight p_weight].
    apply Rdiv_lt_0_compat; [apply Hpos, Hq|lra].
  - split; [exact Hlen|exact Hpos].
Qed.

(** X14: [updateWeights] never leaves a negative weight.  On a well-formed
    filter, with positive landmark deviations and every observation, taken
    to the map frame of any particle, having a candidate landmark of that
    particle closer than 9.9e50 (so that no never-assigned local is read),
    it returns and every weight is at least 0. *)
Theorem updateWeights_weights_nonnegative (unset : LandmarkObs)
    (sensor_range s0 s1 : R) (rest : list R)
    (observations : list LandmarkObs) (map_landmarks : Map)
    (pf : ParticleFilter) :
  population_ok pf -> 0 < s0 -> 0 < s1 ->
  (forall p obs, p ∈ particles pf -> obs ∈ observations ->
     exists lm, lm ∈ predictedLMs sensor_range p map_landmarks /\
       dist (o_x lm) (o_y lm) (fst (local_to_map p obs))
         (snd (local_to_map p obs)) < minDist0) ->
  exists pf',
    updateWeights unset sensor_range (s0 :: s1 :: rest) observations
      map_landmarks pf = Some pf' /\
    forall p', p' ∈ particles pf' -> 0 <= p_weight p'.
Proof.
  intros Hok H0 H1 _.
  destruct (updateWeights_positive_run unset sensor_range s0 s1 rest
              observations map_landmarks pf Hok H0 H1)
    as (pf' & Hrun & _ & _ & Hpos).
  exists pf'. split; [exact Hrun|].
  intros p' Hp'. left. apply Hpos, Hp'.
Qed.

(** X14 on one particle at (4, 5) heading 0, one landmark at (6, 5) and
    one observation that falls on it. *)
Lemma updateWeights_weights_nonnegative_witness :
  exists pf',
    updateWeights (mkLandmarkObs (-1) 0 0) 50 [0.3; 0.3]
      [mkLandmarkObs 0 2 0] (mkMap [mkLandmark 1 6 5])
      (mkFilter 1 true [mkParticle 0 4 5 0 1 [] [] []]) = Some pf' /\
    forall p', p' ∈ particles pf' -> 0 <= p_weight p'.
Proof.
  apply (updateWeights_weights_nonnegative (mkLandmarkObs (-1) 0 0) 50
           0.3 0.3 [] [mkLandmarkObs 0 2 0] (mkMap [mkLandmark 1 6 5])
           (mkFilter 1 true [mkParticle 0 4 5 0 1 [] [] []])).
  - reflexivity.
  - lra.
  - lra.
  - intros p obs Hp Hobs. cbn [particles] in Hp.
    apply list_elem_of_singleton in Hp as ->.
    apply list_elem_of_singleton in Hobs as ->.
    exists (landmark_obs (mkLandmark 1 6 5)). split.
    + apply predictedLMs_elem; [left|].
      cbn [x_f y_f p_x p_y]. rewrite dist_horizontal, Rabs_left by lra. lra.
    + unfold local_to_map, translate, rotate.
      cbn [fst snd p_x p_y p_theta o_x o_y landmark_obs x_f y_f].
      rewrite cos_0, sin_0.
      replace (4 + (1 * 2 - 0 * 0)) with 6 by ring.
      replace (5 + (0 * 2 + 1 * 0)) with 5 by ring.
      rewrite dist_horizontal.
      replace (6 - 6) with 0 by ring. rewrite Rabs_R0. unfold minDist0. lra.
Defined.

(** X15: a cycle keeps the filter well formed.  On a well-formed filter,
    with three motion deviations and two landmark deviations, [prediction]
    then [updateWeights] return and leave a well-formed filter with the
    same count and size.  If the weights they leave are non-negative with
    a positive sum, then, the uniform deviates being in [[0, 1)],
    [resample] returns too: the filter is well formed again, with the same
    count and size, and every particle it holds is a copy of one that
    [updateWeights] left. *)
Theorem filter_cycle_well_formed (L : RandomLib) (unset : LandmarkObs)
    (delta_t : R) (std_pos : list R) (velocity yaw_rate : R)
    (sensor_range : R) (std_landmark : list R)
    (observations : list LandmarkObs) (map_landmarks : Map)
    (pf : ParticleFilter) :
  population_ok pf -> canonical_unit L ->
  (3 <= length std_pos)%nat -> (2 <= length std_landmark)%nat ->
  exists pf1 pf2,
    prediction L delta_t std_pos velocity yaw_rate pf = Some pf1 /\
    updateWeights unset sensor_range std_landmark observations
      map_landmarks pf1 = Some pf2 /\
    population_ok pf2 /\
    num_particles pf2 = num_particles pf /\
    length (particles pf2) = length (particles pf) /\
    ((forall p, p ∈ particles pf2 -> 0 <= p_weight p) ->
     0 < sum_list (map p_weight (particles pf2)) ->
     exists pf3,
       resample L pf2 = Some pf3 /\
       population_ok pf3 /\
       num_particles pf3 = num_particles pf /\
       length (particles pf3) = length (particles pf) /\
       forall p, p ∈ particles pf3 -> p ∈ particles pf2).
Proof.
  intros Hok Hunit Hstd Hstd2.
  destruct (@prediction_fixed_noise L delta_t velocity yaw_rate std_pos pf
              Hok Hstd) as (pf1 & Hrun1 & Hnum1 & Hps1).
  assert (Hlen1 : length (particles pf1) = length (particles pf))
    by (rewrite Hps1; apply length_imap).
  assert (Hok1 : population_ok pf1).
  { unfold population_ok, trips in *. rewrite Hnum1, Hlen1. exact Hok. }
  destruct (updateWeights_run unset sensor_range std_landmark observations
              map_landmarks pf1 Hok1 Hstd2)
    as (ps & pf2 & _ & Hlen & _ & Hrun2 & Hnum2 & Hgt & Hle).
  assert (Hlen2 : length (particles pf2) = length (particles pf1)).
  { destruct (Rgt_dec (weight_sum (trips pf1) ps) 1e-5) as [H|H].
    - rewrite (Hgt H), length_map. exact Hlen.
    - rewrite (Hle ltac:(lra)). exact Hlen. }
  assert (Hok2 : population_ok pf2).
  { unfold population_ok, trips in *. rewrite Hnum2, Hlen2. exact Hok1. }
  exists pf1, pf2.
  split; [exact Hrun1|]. split; [exact Hrun2|]. split; [exact Hok2|].
  split; [congruence|]. split; [congruence|].
  intros _ Hsum.
  pose proof (@drawn_index_interval L (particles pf2) Hunit Hsum) as Hpick.
  destruct (@resample_run L pf2 Hok2) as (pf3 & Hrun3 & Hnum3 & Hlen3 & Hget).
  { intros n. destruct (Hpick n) as (p & Hp & _). eauto. }
  exists pf3. split; [exact Hrun3|].
  split; [unfold population_ok, trips in *; rewrite Hnum3, Hlen3; exact Hok2|].
  split; [congruence|]. split; [congruence|].
  intros p Hp. apply list_elem_of_lookup in Hp as [n Hn].
  rewrite Hget in Hn by (apply lookup_lt_Some in Hn; lia).
  apply list_elem_of_lookup. eauto.
Qed.

(** X15 on one particle and the concrete engine. *)
Lemma filter_cycle_well_formed_witness :
  exists pf1 pf2,
    prediction lehmer_lib 0.1 [0.3; 0.3; 0.01] 2 0.5
      (mkFilter 1 true [mkParticle 0 4 5 0 1 [] [] []]) = Some pf1 /\
    updateWeights (mkLandmarkObs (-1) 0 0) 50 [0.3; 0.3]
      [mkLandmarkObs 0 2 2] (mkMap [mkLandmark 1 6 7]) pf1 = Some pf2 /\
    population_ok pf2 /\
    num_particles pf2 = 1%Z /\
    length (particles pf2) = 1%nat.
Proof.
  destruct (filter_cycle_well_formed lehmer_lib (mkLandmarkObs (-1) 0 0) 0.1
              [0.3; 0.3; 0.01] 2 0.5 50 [0.3; 0.3] [mkLandmarkObs 0 2 2]
              (mkMap [mkLandmark 1 6 7])
              (mkFilter 1 true [mkParticle 0 4 5 0 1 [] [] []]))
    as (pf1 & pf2 & Hrun1 & Hrun2 & Hok2 & Hnum2 & Hlen2 & _).
  - reflexivity.
  - exact lehmer_unit.
  - cbn. lia.
  - cbn. lia.
  - exists pf1, pf2. repeat split; assumption.
Defined.

(** ** What [updateWeights] reads *)

Lemma scored_reads_pose (unset : LandmarkObs) (sensor_range s0 s1 : R)
    (rest : list R) (observations : list LandmarkObs) (map_landmarks : Map)
    (p q : Particle) :
  pose p = pose q ->
  bookkeeping <$> scored unset sensor_range (s0 :: s1 :: rest) observations
                    map_landmarks p
  = bookkeeping <$> scored unset sensor_range (s0 :: s1 :: rest) observations
                      map_landmarks q.
Proof.
  intros Hpose. destruct p as [pi px py pt pw pa psx psy].
  destruct q as [qi qx qy qt qw qa qsx qsy].
  unfold pose in Hpose. cbn [p_x p_y p_theta] in Hpose.
  injection Hpose as -> -> ->.
  rewrite !scored_shape. reflexivity.
Qed.

Lemma weight_sum_bookkeeping (count : nat) (ps qs : list Particle) :
  map bookkeeping ps = map bookkeeping qs ->
  weight_sum count ps = weight_sum count qs.
Proof.
  intros Heq. unfold weight_sum. f_equal.
  assert (Hw : map p_weight ps = map p_weight qs).
  { apply (f_equal (map (fun b : R * list Z * list R * list R =>
                           fst (fst (fst b))))) in Heq.
    rewrite !map_map in Heq. exact Heq. }
  rewrite <- !firstn_map, Hw. reflexivity.
Qed.

Lemma normalized_bookkeeping (count : nat) (ps qs : list Particle) :
  map bookkeeping ps = map bookkeeping qs ->
  map bookkeeping (normalized count ps) = map bookkeeping (normalized count qs).
Proof.
  intros Heq. unfold normalized.
  rewrite (weight_sum_bookkeeping count ps qs Heq).
  destruct (Rgt_dec (weight_sum count qs) 1e-5) as [_|_]; [|exact Heq].
  generalize (weight_sum count qs). intros s. revert qs Heq.
  induction ps as [|p ps IH]; intros [|q qs] Heq; try discriminate Heq;
    [reflexivity|].
  cbn [map] in *. injection Heq as Hw Ha Hx Hy Ht. f_equal; [|apply IH, Ht].
  unfold bookkeeping, scaled.
  cbn [set_weight p_weight p_associations p_sense_x p_sense_y].
  rewrite Hw, Ha, Hx, Hy. reflexivity.
Qed.

(** The candidates of a particle and the map frame of its observations
    are functions of its pose. *)
Lemma frame_of_pose (sensor_range : R) (map_landmarks : Map)
    (p q : Particle) :
  pose p = pose q ->
  predictedLMs sensor_range p map_landmarks
  = predictedLMs sensor_range q map_landmarks /\
  forall obs, local_to_map p obs = local_to_map q obs.
Proof.
  intros Hpose. destruct p as [pi px py pt pw pa psx psy].
  destruct q as [qi qx qy qt qw qa qsx qsy].
  unfold pose in Hpose. cbn [p_x p_y p_theta] in Hpose.
  injection Hpose as -> -> ->. split; reflexivity.
Qed.

(** X16: [updateWeights] reads each particle's pose only.  On two
    well-formed filters whose particles have the same poses, whatever their
    previous weights, associations and sensed coordinates, it leaves the
    same weights, associations and sensed coordinates; every observation,
    taken to the map frame of any particle, having a candidate landmark of
    that particle closer than 9.9e50, and whatever the never-assigned
    locals of either call hold. *)
Theorem updateWeights_reads_pose_only (unset1 unset2 : LandmarkObs)
    (sensor_range : R) (std_landmark : list R)
    (observations : list LandmarkObs) (map_landmarks : Map)
    (pf1 pf2 : ParticleFilter) :
  population_ok pf1 -> population_ok pf2 ->
  (2 <= length std_landmark)%nat ->
  map pose (particles pf1) = map pose (particles pf2) ->
  (forall p obs, p ∈ particles pf1 -> obs ∈ observations ->
     exists lm, lm ∈ predictedLMs sensor_range p map_landmarks /\
       dist (o_x lm) (o_y lm) (fst (local_to_map p obs))
         (snd (local_to_map p obs)) < minDist0) ->
  exists pf1' pf2',
    updateWeights unset1 sensor_range std_landmark observations map_landmarks
      pf1 = Some pf1' /\
    updateWeights unset2 sensor_range std_landmark observations map_landmarks
      pf2 = Some pf2' /\
    map bookkeeping (particles pf1') = map bookkeeping (particles pf2').
Proof.
  intros Hok1 Hok2 Hstd Hpose Hnear.
  destruct std_landmark as [|s0 [|s1 rest]]; cbn in Hstd; try lia.
  destruct (updateWeights_run_gen unset1 sensor_range (s0 :: s1 :: rest)
              observations map_landmarks pf1 Hok1)
    as (ps1 & Hlen1 & Hget1 & Hrun1).
  { intros p _. rewrite scored_shape. eauto. }
  destruct (updateWeights_run_gen unset2 sensor_range (s0 :: s1 :: rest)
              observations map_landmarks pf2 Hok2)
    as (ps2 & Hlen2 & Hget2 & Hrun2).
  { intros p _. rewrite scored_shape. eauto. }
  assert (Hlen : length (particles pf1) = length (particles pf2)).
  { apply (f_equal length) in Hpose. rewrite !length_map in Hpose. exact Hpose. }
  assert (Hbk : map bookkeeping ps1 = map bookkeeping ps2).
  { apply list_eq. intros j. rewrite !list_lookup_fmap.
    destruct (particles pf1 !! j) as [p|] eqn:Hp.
    - destruct (lookup_lt_is_Some_2 (particles pf2) j) as [q Hq].
      { apply lookup_lt_Some in Hp. lia. }
      assert (Hpq : pose p = pose q).
      { apply (f_equal (fun l => l !! j)) in Hpose.
        rewrite !list_lookup_fmap, Hp, Hq in Hpose. cbn in Hpose. congruence. }
      rewrite (Hget1 j p Hp), (Hget2 j q Hq).
      rewrite (scored_any_unset unset2 unset1 sensor_range (s0 :: s1 :: rest)
                 observations map_landmarks q).
      + apply scored_reads_pose, Hpq.
      + intros obs Hobs.
        destruct (frame_of_pose sensor_range map_landmarks p q Hpq)
          as [<- Hframe].
        rewrite <- Hframe. apply Hnear; [|exact Hobs].
        apply list_elem_of_lookup. eauto.
    - apply lookup_ge_None in Hp.
      rewrite !lookup_ge_None_2 by lia. reflexivity. }
  eexists. eexists. split; [exact Hrun1|]. split; [exact Hrun2|].
  cbn [particles set_particles]. rewrite Hlen.
  apply normalized_bookkeeping, Hbk.
Qed.

(** X16 on two particles at one pose with different histories, one
    landmark at (6, 5) and one observation that falls on it. *)
Lemma updateWeights_reads_pose_only_witness :
  exists pf1' pf2',
    updateWeights (mkLandmarkObs (-1) 0 0) 50 [0.3; 0.3]
      [mkLandmarkObs 0 2 0] (mkMap [mkLandmark 1 6 5])
      (mkFilter 1 true [mkParticle 0 4 5 0 1 [] [] []]) = Some pf1' /\
    updateWeights (mkLandmarkObs 5 100 100) 50 [0.3; 0.3]
      [mkLandmarkObs 0 2 0] (mkMap [mkLandmark 1 6 5])
      (mkFilter 1 true [mkParticle 9 4 5 0 0.125 [3%Z] [1] [2]]) = Some pf2' /\
    map bookkeeping (particles pf1') = map bookkeeping (particles pf2').
Proof.
  apply (updateWeights_reads_pose_only (mkLandmarkObs (-1) 0 0)
           (mkLandmarkObs 5 100 100) 50 [0.3; 0.3]
           [mkLandmarkObs 0 2 0] (mkMap [mkLandmark 1 6 5])
           (mkFilter 1 true [mkParticle 0 4 5 0 1 [] [] []])
           (mkFilter 1 true [mkParticle 9 4 5 0 0.125 [3%Z] [1] [2]])).
  - reflexivity.
  - reflexivity.
  - cbn. lia.
  - reflexivity.
  - intros p obs Hp Hobs. cbn [particles] in Hp.
    apply list_elem_of_singleton in Hp as ->.
    apply list_elem_of_singleton in Hobs as ->.
    exists (landmark_obs (mkLandmark 1 6 5)). split.
    + apply predictedLMs_elem; [left|].
      cbn [x_f y_f p_x p_y]. rewrite dist_horizontal, Rabs_left by lra. lra.
    + unfold local_to_map, translate, rotate.
      cbn [fst snd p_x p_y p_theta o_x o_y landmark_obs x_f y_f].
      rewrite cos_0, sin_0.
      replace (4 + (1 * 2 - 0 * 0)) with 6 by ring.
      replace (5 + (0 * 2 + 1 * 0)) with 5 by ring.
      rewrite dist_horizontal.
      replace (6 - 6) with 0 by ring. rewrite Rabs_R0. unfold minDist0. lra.
Defined.

(** ** Edge cases of [updateWeights] *)

Lemma fold_plus_ones (ws : list R) :
  (forall w, w ∈ ws -> w = 1) ->
  forall acc, fold_left Rplus ws acc = acc + INR (length ws).
Proof.
  induction ws as [|w l IH]; intros Hone acc.
  - cbn. ring.
  - cbn [fold_left length]. rewrite IH, S_INR.
    + rewrite (Hone w ltac:(left)). ring.
    + intros v Hv. apply Hone. right. exact Hv.
Qed.

(** X17: with no observation, [updateWeights] on a well-formed, non-empty
    filter empties the three bookkeeping vectors of every particle and
    gives every particle the weight [1 / N], [N] the size of the
    population; the landmark deviations are not read. *)
Theorem updateWeights_no_observations (unset : LandmarkObs)
    (sensor_range : R) (std_landmark : list R) (map_landmarks : Map)
    (pf : ParticleFilter) :
  population_ok pf -> particles pf <> [] ->
  exists pf',
    updateWeights unset sensor_range std_landmark [] map_landmarks pf
    = Some pf' /\
    forall n p, particles pf !! n = Some p ->
      particles pf' !! n
      = Some (set_weight (set_sensed p [] [] [])
                (1 / INR (length (particles pf)))).
Proof.
  intros Hok Hne.
  destruct (updateWeights_run_gen unset sensor_range std_landmark []
              map_landmarks pf Hok) as (ps & Hlen & Hget & Hrun).
  { intros p _. eexists. reflexivity. }
  assert (Hps : ps = map (fun p => set_weight (set_sensed p [] [] []) 1)
                       (particles pf)).
  { apply list_eq. intros j. rewrite list_lookup_fmap.
    destruct (particles pf !! j) as [p|] eqn:Hp.
    - rewrite (Hget j p Hp). reflexivity.
    - apply lookup_ge_None in Hp. rewrite lookup_ge_None_2 by lia. reflexivity. }
  assert (Hsum : weight_sum (length (particles pf)) ps
                 = INR (length (particles pf))).
  { unfold weight_sum. rewrite take_ge by lia.
    rewrite fold_plus_ones.
    - rewrite length_map, Hlen. ring.
    - intros w Hw. apply list_elem_of_fmap in Hw as (q & -> & Hq).
      rewrite Hps in Hq. apply list_elem_of_fmap in Hq as (p & -> & _).
      reflexivity. }
  assert (Hone : 1 <= INR (length (particles pf))).
  { change 1 with (INR 1). apply le_INR.
    destruct (particles pf); [contradiction|cbn; lia]. }
  eexists. split; [exact Hrun|].
  intros n p Hn. cbn [particles set_particles]. unfold normalized.
  rewrite Hsum.
  destruct (Rgt_dec (INR (length (particles pf))) 1e-5) as [_|Hle]; [|lra].
  rewrite list_lookup_fmap, Hps, list_lookup_fmap, Hn. reflexivity.
Qed.

(** X17 on two particles: each ends with weight one half. *)
Lemma updateWeights_no_observations_witness :
  exists pf',
    updateWeights (mkLandmarkObs (-1) 0 0) 50 [] [] (mkMap [mkLandmark 1 6 7])
      (mkFilter 2 true [mkParticle 0 4 5 0 0.3 [1%Z] [6] [7];
                        mkParticle 1 1 1 0 0.9 [] [] []]) = Some pf' /\
    particles pf' !! 0%nat
    = Some (mkParticle 0 4 5 0 (1 / INR 2) [] [] []).
Proof.
  destruct (updateWeights_no_observations (mkLandmarkObs (-1) 0 0) 50 []
              (mkMap [mkLandmark 1 6 7])
              (mkFilter 2 true [mkParticle 0 4 5 0 0.3 [1%Z] [6] [7];
                                mkParticle 1 1 1 0 0.9 [] [] []]))
    as (pf' & Hrun & Hall).
  - reflexivity.
  - discriminate.
  - exists pf'. split; [exact Hrun|].
    apply (Hall 0%nat (mkParticle 0 4 5 0 0.3 [1%Z] [6] [7]) eq_refl).
Defined.

Lemma dist_nonneg (x1 y1 x2 y2 : R) : 0 <= dist x1 y1 x2 y2.
Proof. unfold dist. apply sqrt_pos. Qed.

(** X18: with a sensor range of zero or less no landmark is a candidate,
    whatever the map and wherever the particle is. *)
Theorem predictedLMs_no_range (sensor_range : R) (p : Particle)
    (map_landmarks : Map) :
  sensor_range <= 0 ->
  predictedLMs sensor_range p map_landmarks = [].
Proof.
  intros Hr. unfold predictedLMs.
  assert (Hfold : forall l acc, fold_left (in_range sensor_range p) l acc = acc).
  { induction l as [|a l IH]; intros acc; [reflexivity|].
    cbn [fold_left]. unfold in_range at 2. cbn [o_x o_y].
    destruct (Rlt_dec _ sensor_range) as [Hlt|_]; [|apply IH].
    pose proof (dist_nonneg (x_f a) (y_f a) (p_x p) (p_y p)). lra. }
  apply Hfold.
Qed.

(** X18 at range zero, the particle sitting on the landmark. *)
Lemma predictedLMs_no_range_witness :
  predictedLMs 0 (mkParticle 0 6 7 0 1 [] [] []) (mkMap [mkLandmark 1 6 7])
  = [].
Proof.
  apply (predictedLMs_no_range 0 (mkParticle 0 6 7 0 1 [] [] [])
           (mkMap [mkLandmark 1 6 7])).
  lra.
Defined.

(** ** Resampling, again *)

(** A whole call of [resample], with the filter it returns. *)
Lemma resample_run_gen (L : RandomLib) (pf : ParticleFilter) :
  population_ok pf ->
  (forall n, is_Some (particles pf
                        !! drawn_index L (map p_weight (particles pf)) n)) ->
  exists news,
    resample L pf = Some (set_particles pf news) /\
    length news = length (particles pf) /\
    forall n, (n < length (particles pf))%nat ->
      news !! n
      = particles pf !! drawn_index L (map p_weight (particles pf)) n.
Proof.
  intros Hok Hidx. unfold population_ok in Hok.
  destruct (@resample_loop L (particles pf) (map p_weight (particles pf))
              (trips pf) Hidx) as (st & Hrun & Hlen & Hget).
  exists (fst st). split.
  { unfold resample. rewrite weights_loop by lia.
    cbn [mbind option_bind].
    rewrite (take_ge (particles pf) (trips pf)) by lia.
    rewrite Hrun. reflexivity. }
  split; [lia|]. intros n Hn. apply Hget. lia.
Qed.

(** X19: [resample] never draws a particle of weight zero.  On a
    well-formed filter with non-negative weights of positive sum, every
    particle of the new population is a particle of the current one whose
    weight is strictly positive. *)
Theorem resample_skips_zero_weight (L : RandomLib) (pf : ParticleFilter) :
  population_ok pf ->
  canonical_unit L ->
  (forall p, p ∈ particles pf -> 0 <= p_weight p) ->
  0 < sum_list (map p_weight (particles pf)) ->
  exists pf',
    resample L pf = Some pf' /\
    forall p', p' ∈ particles pf' ->
      p' ∈ particles pf /\ 0 < p_weight p'.
Proof.
  intros Hok Hunit _ Hsum.
  pose proof (@drawn_index_interval L (particles pf) Hunit Hsum) as Hpick.
  destruct (resample_run_gen L pf Hok) as (news & Hrun & Hlen & Hget).
  { intros n. destruct (Hpick n) as (p & Hp & _). eauto. }
  eexists. split; [exact Hrun|]. cbn [particles set_particles].
  intros p' Hp'. apply list_elem_of_lookup in Hp' as [n Hn].
  rewrite Hget in Hn by (apply lookup_lt_Some in Hn; lia).
  destruct (Hpick n) as (p & Hp & Hin).
  assert (p' = p) by congruence. subst p'.
  split; [apply list_elem_of_lookup; eauto|].
  set (t := sum_list (map p_weight (particles pf))) in *.
  set (a := sum_list (take _ _)) in *.
  assert (Hlt : a / t < (a + p_weight p) / t) by lra.
  apply (Rmult_lt_compat_r t) in Hlt; [|exact Hsum].
  unfold Rdiv in Hlt. rewrite !Rmult_assoc, Rinv_l in Hlt by lra. lra.
Qed.

(** X19 on a population of two with one zero weight. *)
Lemma resample_skips_zero_weight_witness :
  exists pf',
    resample lehmer_lib
      (mkFilter 2 true [mkParticle 0 1 1 0 0 [] [] [];
                        mkParticle 1 4 5 0 0.5 [] [] []]) = Some pf' /\
    forall p', p' ∈ particles pf' ->
      p' ∈ [mkParticle 0 1 1 0 0 [] [] []; mkParticle 1 4 5 0 0.5 [] [] []]
      /\ 0 < p_weight p'.
Proof.
  apply (resample_skips_zero_weight lehmer_lib
           (mkFilter 2 true [mkParticle 0 1 1 0 0 [] [] [];
                             mkParticle 1 4 5 0 0.5 [] [] []])).
  - reflexivity.
  - exact lehmer_unit.
  - intros p Hp. cbn [particles] in Hp.
    apply elem_of_cons in Hp as [->|Hp]; [cbn; lra|].
    apply list_elem_of_singleton in Hp as ->. cbn. lra.
  - cbn. lra.
Defined.

Lemma sum_list_scaled (s : R) (ws : list R) :
  sum_list (map (fun w => w / s) ws) = sum_list ws / s.
Proof.
  induction ws as [|w l IH]; cbn [map sum_list fold_right].
  - unfold Rdiv. ring.
  - fold (sum_list (map (fun w => w / s) l)). fold (sum_list l).
    rewrite IH. unfold Rdiv. ring.
Qed.

Lemma cumulative_scaled (s total : R) (ws : list R) :
  s <> 0 -> total <> 0 ->
  forall acc,
    cumulative (total / s) (acc / s) (map (fun w => w / s) ws)
    = cumulative total acc ws.
Proof.
  intros Hs Ht. induction ws as [|w l IH]; intros acc; [reflexivity|].
  cbn [map cumulative].
  replace (acc / s + w / s) with ((acc + w) / s) by (unfold Rdiv; ring).
  rewrite IH. f_equal. field. split; assumption.
Qed.

Lemma drawn_index_scaled (L : RandomLib) (s : R) (ps : list Particle)
    (n : nat) :
  0 < s -> 0 < sum_list (map p_weight ps) ->
  drawn_index L (map p_weight (map (scaled s) ps)) n
  = drawn_index L (map p_weight ps) n.
Proof.
  intros Hs Hsum. unfold drawn_index. f_equal.
  rewrite map_map. cbn [scaled set_weight p_weight].
  change (map (fun p => p_weight p / s) ps)
    with (map (fun p => (fun w => w / s) (p_weight p)) ps).
  rewrite <- (map_map p_weight (fun w => w / s)).
  rewrite sum_list_scaled.
  replace 0 with (0 / s) at 1 by (unfold Rdiv; ring).
  apply cumulative_scaled; lra.
Qed.

(** X20: [resample] depends on the ratios of the weights only.  Dividing
    every weight by a positive constant, as the normalisation of
    [updateWeights] does, changes nothing in what is drawn: the rescaled
    population resamples to the rescaled new population. *)
Theorem resample_scale_invariant (L : RandomLib) (s : R)
    (pf : ParticleFilter) :
  population_ok pf ->
  canonical_unit L ->
  (forall p, p ∈ particles pf -> 0 <= p_weight p) ->
  0 < sum_list (map p_weight (particles pf)) ->
  0 < s ->
  exists pf',
    resample L pf = Some pf' /\
    resample L (set_particles pf (map (scaled s) (particles pf)))
    = Some (set_particles pf (map (scaled s) (particles pf'))).
Proof.
  intros Hok Hunit _ Hsum Hs.
  pose proof (@drawn_index_interval L (particles pf) Hunit Hsum) as Hpick.
  destruct (resample_run_gen L pf Hok) as (news & Hrun & Hlen & Hget).
  { intros n. destruct (Hpick n) as (p & Hp & _). eauto. }
  set (pfs := set_particles pf (map (scaled s) (particles pf))).
  assert (Hoks : population_ok pfs).
  { unfold population_ok, trips, pfs in *. cbn. rewrite length_map. exact Hok. }
  destruct (resample_run_gen L pfs Hoks) as (newss & Hruns & Hlens & Hgets).
  { intros n. unfold pfs. cbn [particles set_particles].
    rewrite drawn_index_scaled by assumption. rewrite list_lookup_fmap.
    destruct (Hpick n) as (p & -> & _). eauto. }
  eexists. split; [exact Hrun|]. rewrite Hruns.
  cbn [particles set_particles]. unfold pfs, set_particles.
  cbn [num_particles is_initialized particles]. do 2 f_equal.
  apply list_eq. intros n. unfold pfs in Hlens, Hgets.
  cbn [particles set_particles] in Hlens, Hgets.
  rewrite length_map in Hlens, Hgets.
  destruct (Nat.lt_ge_cases n (length (particles pf))) as [Hlt|Hge].
  - rewrite (Hgets n Hlt), drawn_index_scaled by assumption.
    rewrite !list_lookup_fmap, (Hget n Hlt). reflexivity.
  - rewrite lookup_ge_None_2 by lia.
    rewrite lookup_ge_None_2 by (rewrite length_map; lia). reflexivity.
Qed.

(** X20 on a population of two, the weights divided by 4. *)
Lemma resample_scale_invariant_witness :
  exists pf',
    resample lehmer_lib
      (mkFilter 2 true [mkParticle 0 1 1 0 1 [] [] [];
                        mkParticle 1 4 5 0 3 [] [] []]) = Some pf' /\
    resample lehmer_lib
      (set_particles
         (mkFilter 2 true [mkParticle 0 1 1 0 1 [] [] [];
                           mkParticle 1 4 5 0 3 [] [] []])
         (map (scaled 4) [mkParticle 0 1 1 0 1 [] [] [];
                          mkParticle 1 4 5 0 3 [] [] []]))
    = Some (set_particles
              (mkFilter 2 true [mkParticle 0 1 1 0 1 [] [] [];
                                mkParticle 1 4 5 0 3 [] [] []])
              (map (scaled 4) (particles pf'))).
Proof.
  apply (resample_scale_invariant lehmer_lib 4
           (mkFilter 2 true [mkParticle 0 1 1 0 1 [] [] [];
                             mkParticle 1 4 5 0 3 [] [] []])).
  - reflexivity.
  - exact lehmer_unit.
  - intros p Hp. cbn [particles] in Hp.
    apply elem_of_cons in Hp as [->|Hp]; [cbn; lra|].
    apply list_elem_of_singleton in Hp as ->. cbn. lra.
  - cbn. lra.
  - lra.
Defined.

(** ** Before initialisation *)

(** X21: on a filter whose count is zero or less, as before any [init], no
    loop runs: [prediction] and [updateWeights] return the filter as it is
    and [resample] returns it with an empty population, whatever the
    population held. *)
Theorem operations_before_init (L : RandomLib) (unset : LandmarkObs)
    (delta_t : R) (std_pos : list R) (velocity yaw_rate sensor_range : R)
    (std_landmark : list R) (observations : list LandmarkObs)
    (map_landmarks : Map) (pf : ParticleFilter) :
  (num_particles pf <= 0)%Z ->
  (3 <= length std_pos)%nat ->
  prediction L delta_t std_pos velocity yaw_rate pf = Some pf /\
  updateWeights unset sensor_range std_landmark observations map_landmarks pf
  = Some pf /\
  resample L pf = Some (set_particles pf []).
Proof.
  intros Hnum Hstd.
  assert (Htrips : trips pf = 0%nat) by (unfold trips; lia).
  assert (Hpf : set_particles pf (particles pf) = pf) by (destruct pf; reflexivity).
  split; [|split].
  - destruct std_pos as [|s0 [|s1 [|s2 rest]]]; cbn in Hstd; try lia.
    unfold prediction. rewrite Htrips. cbn. rewrite Hpf. reflexivity.
  - unfold updateWeights, score_all, normalize. rewrite Htrips.
    cbn [for_upto seq fold_left mbind option_bind].
    destruct (Rgt_dec 0 1e-5) as [Hgt|_]; [lra|].
    cbn [mbind option_bind]. rewrite Hpf. reflexivity.
  - unfold resample. rewrite Htrips. reflexivity.
Qed.

(** X21 on a filter of count 0 that holds a stray particle. *)
Lemma operations_before_init_witness :
  prediction lehmer_lib 0.1 [0.3; 0.3; 0.01] 2 0.5
    (mkFilter 0 false [mkParticle 0 4 5 0 1 [] [] []])
  = Some (mkFilter 0 false [mkParticle 0 4 5 0 1 [] [] []]) /\
  updateWeights (mkLandmarkObs (-1) 0 0) 50 [0.3; 0.3] [mkLandmarkObs 0 2 2]
    (mkMap [mkLandmark 1 6 7])
    (mkFilter 0 false [mkParticle 0 4 5 0 1 [] [] []])
  = Some (mkFilter 0 false [mkParticle 0 4 5 0 1 [] [] []]) /\
  resample lehmer_lib (mkFilter 0 false [mkParticle 0 4 5 0 1 [] [] []])
  = Some (mkFilter 0 false []).
Proof.
  apply (operations_before_init lehmer_lib (mkLandmarkObs (-1) 0 0) 0.1
           [0.3; 0.3; 0.01] 2 0.5 50 [0.3; 0.3] [mkLandmarkObs 0 2 2]
           (mkMap [mkLandmark 1 6 7])
           (mkFilter 0 false [mkParticle 0 4 5 0 1 [] [] []])).
  - cbn. lia.
  - cbn. lia.
Defined.

(** ** Reporting accessors *)

Lemma for_upto_fails {S : Type} (count k : nat)
    (body : nat -> S -> option S) (s : S) :
  (k < count)%nat -> (forall st, body k st = None) ->
  for_upto count body s = None.
Proof.
  intros Hk Hnone. induction count as [|n IH]; [lia|].
  rewrite for_upto_S. destruct (decide (k = n)) as [->|Hne].
  - destruct (for_upto n body s); [apply Hnone|reflexivity].
  - rewrite IH by lia. reflexivity.
Qed.

(** X22: [SetAssociations] checks nothing.  Given fewer sensed x or y
    coordinates than associations it stores them as they are, and
    [CalculateParticleWeight] on that particle then indexes a vector out
    of range. *)
Theorem SetAssociations_unchecked (unset : LandmarkObs) (particle : Particle)
    (associations : list Z) (sense_x sense_y : list R)
    (std_landmark : list R) (predictedLandMarks : list LandmarkObs) :
  (length sense_x < length associations)%nat
  \/ (length sense_y < length associations)%nat ->
  p_associations (SetAssociations particle associations sense_x sense_y)
  = associations /\
  p_sense_x (SetAssociations particle associations sense_x sense_y)
  = sense_x /\
  p_sense_y (SetAssociations particle associations sense_x sense_y)
  = sense_y /\
  CalculateParticleWeight unset
    (SetAssociations particle associations sense_x sense_y) std_landmark
    predictedLandMarks = None.
Proof.
  intros Hshort. repeat split.
  unfold CalculateParticleWeight, SetAssociations.
  cbn [p_associations set_sensed].
  rewrite (for_upto_fails (length associations)
             (Nat.min (length sense_x) (length sense_y))); [reflexivity|lia|].
  intros w. unfold weight_body. cbn [p_associations p_sense_x p_sense_y set_sensed].
  destruct (associations !! _); [|reflexivity]. cbn [mbind option_bind].
  destruct (std_landmark !! 0%nat); [|reflexivity]. cbn [mbind option_bind].
  destruct (std_landmark !! 1%nat); [|reflexivity]. cbn [mbind option_bind].
  destruct (sense_x !! _) as [sx|] eqn:Hsx; [|reflexivity].
  cbn [mbind option_bind].
  apply lookup_lt_Some in Hsx.
  rewrite (lookup_ge_None_2 sense_y) by lia. reflexivity.
Qed.

(** X22 on two associations and one sensed x coordinate. *)
Lemma SetAssociations_unchecked_witness :
  CalculateParticleWeight (mkLandmarkObs (-1) 0 0)
    (SetAssociations (mkParticle 0 4 5 0 1 [] [] []) [7%Z; 9%Z] [6] [7; 2])
    [0.3; 0.3] [mkLandmarkObs 7 6 7] = None.
Proof.
  apply (SetAssociations_unchecked (mkLandmarkObs (-1) 0 0)
           (mkParticle 0 4 5 0 1 [] [] []) [7%Z; 9%Z] [6] [7; 2]
           [0.3; 0.3] [mkLandmarkObs 7 6 7]).
  left. cbn. lia.
Defined.

Module ReportingProperties.

Import Ascii String Reporting.
Local Open Scope string_scope.

Lemma append_empty_r (s : string) : s ++ "" = s.
Proof. induction s as [|c s IH]; cbn; [reflexivity|rewrite IH; reflexivity]. Qed.

Lemma append_assoc (s t u : string) : (s ++ t) ++ u = s ++ (t ++ u).
Proof. induction s as [|c s IH]; cbn; [reflexivity|rewrite IH; reflexivity]. Qed.

Lemma length_append (s t : string) :
  String.length (s ++ t) = (String.length s + String.length t)%nat.
Proof. induction s as [|c s IH]; cbn; [reflexivity|rewrite IH; reflexivity]. Qed.

Lemma substring_prefix (s t : string) :
  substring 0 (String.length s) (s ++ t) = s.
Proof.
  induction s as [|c s IH]; cbn.
  - destruct t; reflexivity.
  - rewrite IH. reflexivity.
Qed.

Lemma stream_from {A : Type} (show : A -> string) (v : list A) :
  forall acc,
    fold_left (fun ss a => ss ++ show a ++ " ") v acc = acc ++ stream show v.
Proof.
  unfold stream. induction v as [|a v IH]; intros acc; cbn [fold_left].
  - rewrite append_empty_r. reflexivity.
  - rewrite IH, (IH ("" ++ show a ++ " ")). cbn [append].
    rewrite !append_assoc. reflexivity.
Qed.

(** What the stream holds after the copy: the elements joined by single
    spaces, and one more space. *)
Lemma stream_joined {A : Type} (show : A -> string) (v : list A) :
  v <> [] -> stream show v = String.concat " " (map show v) ++ " ".
Proof.
  induction v as [|a v IH]; intros Hne; [contradiction|].
  unfold stream. cbn [fold_left]. rewrite stream_from. cbn [append].
  destruct v as [|b v].
  - cbn. rewrite append_empty_r. reflexivity.
  - rewrite IH by discriminate. cbn [map String.concat].
    rewrite !append_assoc. reflexivity.
Qed.

Lemma drop_trailing_space (s : string) :
  (Z.of_nat (String.length s) + 1 < 2 ^ 64)%Z ->
  drop_trailing (s ++ " ") = s.
Proof.
  intros Hlen. unfold drop_trailing, substr0.
  rewrite length_append. cbn [String.length].
  replace (Z.of_nat (String.length s + 1) - 1)%Z
    with (Z.of_nat (String.length s)) by lia.
  rewrite Z.mod_small by lia.
  rewrite Z.min_l by lia. rewrite Nat2Z.id. apply substring_prefix.
Qed.

Lemma drop_trailing_empty : drop_trailing "" = "".
Proof. reflexivity. Qed.

(** The rendering of a vector: its elements joined by single spaces,
    nothing before the first and nothing after the last; the empty string
    for the empty vector, on which the wrapped count takes nothing. *)
Lemma rendered {A : Type} (show : A -> string) (v : list A) :
  (Z.of_nat (String.length (stream show v)) < 2 ^ 64)%Z ->
  drop_trailing (stream show v) = String.concat " " (map show v).
Proof.
  intros Hlen. destruct v as [|a v]; [reflexivity|].
  rewrite stream_joined in * by discriminate.
  apply drop_trailing_space.
  rewrite length_append in Hlen. cbn [String.length] in Hlen. lia.
Qed.

(** X23: [getAssociations] returns the decimal identities of the
    particle's associations joined by single spaces, with no space after
    the last one, and the empty string when the particle has no
    association (the count [length() - 1] wraps around and [substr] takes
    the whole, empty, stream); the stream being shorter than 2^64
    characters. *)
Theorem getAssociations_joined (best : Particle) :
  (Z.of_nat (String.length (stream show_int (p_associations best)))
   < 2 ^ 64)%Z ->
  getAssociations best
  = String.concat " " (map show_int (p_associations best)).
Proof. intros Hlen. unfold getAssociations. apply rendered, Hlen. Qed.

(** X23 on three associations, one of them negative. *)
Lemma getAssociations_joined_witness :
  getAssociations (mkParticle 0 4 5 0 1 [12%Z; (-3)%Z; 7%Z] [] [])
  = "12 -3 7".
Proof.
  apply (getAssociations_joined
           (mkParticle 0 4 5 0 1 [12%Z; (-3)%Z; 7%Z] [] [])).
  vm_compute. reflexivity.
Defined.

(** X24: [getSenseCoord] compares its argument with ["X"] exactly.  On
    ["X"] it returns the sensed x coordinates, each as the library prints
    it, joined by single spaces; on every other string, lower-case ["x"]
    and the empty string included, it returns the sensed y coordinates so
    joined; the streams being shorter than 2^64 characters. *)
Theorem getSenseCoord_selects (show_float : R -> string) (best : Particle)
    (coord : string) :
  (Z.of_nat (String.length (stream show_float (p_sense_x best))) < 2 ^ 64)%Z ->
  (Z.of_nat (String.length (stream show_float (p_sense_y best))) < 2 ^ 64)%Z ->
  (coord = "X" ->
   getSenseCoord show_float best coord
   = String.concat " " (map show_float (p_sense_x best))) /\
  (coord <> "X" ->
   getSenseCoord show_float best coord
   = String.concat " " (map show_float (p_sense_y best))).
Proof.
  intros Hx Hy. unfold getSenseCoord. split.
  - intros ->. rewrite String.eqb_refl. apply rendered, Hx.
  - intros Hne. apply String.eqb_neq in Hne. rewrite Hne. apply rendered, Hy.
Qed.

(** X24 on a lower-case ["x"], with a printer that tells 6 from the rest. *)
Lemma getSenseCoord_selects_witness :
  getSenseCoord (fun r => if Req_dec_T r 6 then "6" else "7")
    (mkParticle 0 4 5 0 1 [1%Z] [6] [7]) "x" = "7".
Proof.
  destruct (getSenseCoord_selects
              (fun r => if Req_dec_T r 6 then "6" else "7")
              (mkParticle 0 4 5 0 1 [1%Z] [6] [7]) "x") as [_ Hy].
  - cbn [p_sense_x stream fold_left]. destruct (Req_dec_T 6 6); cbn; lia.
  - cbn [p_sense_y stream fold_left]. destruct (Req_dec_T 7 6); cbn; lia.
  - rewrite Hy by discriminate. cbn [p_sense_y map String.concat].
    destruct (Req_dec_T 7 6) as [Heq|_]; [lra|reflexivity].
Defined.

(** The decimal digits of an [int] hold no space, are at least one, and
    tell the number. *)
Lemma uint_space_free (d : Decimal.uint) :
  space_free (DecimalString.NilEmpty.string_of_uint d).
Proof. induction d; cbn; try split; try discriminate; assumption. Qed.

Lemma show_int_space_free (i : Z) : space_free (show_int i).
Proof.
  unfold show_int, DecimalString.NilZero.string_of_int,
    DecimalString.NilZero.string_of_uint.
  destruct (Z.to_int i) as [d|d]; destruct d; cbn;
    repeat split; try discriminate; apply uint_space_free.
Qed.

Lemma show_int_nonempty (i : Z) : show_int i <> "".
Proof.
  unfold show_int, DecimalString.NilZero.string_of_int,
    DecimalString.NilZero.string_of_uint.
  destruct (Z.to_int i) as [d|d]; destruct d; discriminate.
Qed.

Lemma show_int_inj (i j : Z) : show_int i = show_int j -> i = j.
Proof.
  unfold show_int. intros Heq.
  assert (Hnil : forall z, Z.to_int z <> Decimal.Pos Decimal.Nil
                           /\ Z.to_int z <> Decimal.Neg Decimal.Nil).
  { intros [|q|q]; cbn; split; try discriminate;
      intros H; injection H as H;
      exact (DecimalPos.Unsigned.to_uint_nonnil q H). }
  apply (f_equal DecimalString.NilZero.int_of_string) in Heq.
  rewrite !DecimalString.NilZero.isi in Heq by apply Hnil.
  injection Heq as Heq. apply (f_equal Z.of_int) in Heq.
  rewrite !DecimalZ.of_to in Heq. exact Heq.
Qed.

Lemma space_not_free (s r : string) : ~ space_free (s ++ " " ++ r).
Proof.
  induction s as [|c s IH]; cbn; intros [Hc Hs]; [congruence|exact (IH Hs)].
Qed.

Lemma split_at_space (s1 s2 r1 r2 : string) :
  space_free s1 -> space_free s2 ->
  s1 ++ " " ++ r1 = s2 ++ " " ++ r2 -> s1 = s2 /\ r1 = r2.
Proof.
  revert s2. induction s1 as [|c s1 IH]; intros [|d s2] H1 H2 Heq;
    cbn in *.
  - injection Heq as ->. split; reflexivity.
  - injection Heq as <- _. destruct H2 as [H2 _]. congruence.
  - injection Heq as -> _. destruct H1 as [H1 _]. congruence.
  - injection Heq as -> Heq. destruct H1 as [_ H1], H2 as [_ H2].
    destruct (IH s2 H1 H2 Heq) as [-> ->]. split; reflexivity.
Qed.

(** Joining by single spaces loses nothing, on non-empty strings that
    hold no space. *)
Lemma joined_inj (l1 : list string) :
  forall l2,
    Forall (fun s => space_free s /\ s <> "") l1 ->
    Forall (fun s => space_free s /\ s <> "") l2 ->
    String.concat " " l1 = String.concat " " l2 -> l1 = l2.
Proof.
  induction l1 as [|x1 l1 IH]; intros [|x2 l2] H1 H2 Heq.
  - reflexivity.
  - apply Forall_cons in H2 as [[_ Hne] _]. exfalso. apply Hne.
    destruct l2; cbn in Heq; [congruence|].
    destruct x2; [reflexivity|discriminate Heq].
  - apply Forall_cons in H1 as [[_ Hne] _]. exfalso. apply Hne.
    destruct l1; cbn in Heq; [congruence|].
    destruct x1; [reflexivity|discriminate Heq].
  - apply Forall_cons in H1 as [[Hf1 _] H1].
    apply Forall_cons in H2 as [[Hf2 _] H2].
    destruct l1 as [|y1 l1], l2 as [|y2 l2].
    + cbn in Heq. congruence.
    + cbn [String.concat] in Heq. exfalso. rewrite Heq in Hf1.
      exact (space_not_free _ _ Hf1).
    + cbn [String.concat] in Heq. exfalso. rewrite <- Heq in Hf2.
      exact (space_not_free _ _ Hf2).
    + change (x1 ++ " " ++ String.concat " " (y1 :: l1)
              = x2 ++ " " ++ String.concat " " (y2 :: l2)) in Heq.
      destruct (split_at_space _ _ _ _ Hf1 Hf2 Heq) as [-> Hrest].
      f_equal. apply IH; assumption.
Qed.

Lemma map_show_int_inj (l1 : list Z) :
  forall l2, map show_int l1 = map show_int l2 -> l1 = l2.
Proof.
  induction l1 as [|a l IH]; intros [|b l'] Heq; try discriminate Heq;
    [reflexivity|].
  cbn [map] in Heq. injection Heq as Hab Hl.
  f_equal; [apply show_int_inj, Hab|apply IH, Hl].
Qed.

(** X28: [getAssociations] loses nothing.  Two particles with the same
    rendering have the same associations, in the same order; the streams
    being shorter than 2^64 characters. *)
Theorem getAssociations_injective (best1 best2 : Particle) :
  (Z.of_nat (String.length (stream show_int (p_associations best1)))
   < 2 ^ 64)%Z ->
  (Z.of_nat (String.length (stream show_int (p_associations best2)))
   < 2 ^ 64)%Z ->
  getAssociations best1 = getAssociations best2 ->
  p_associations best1 = p_associations best2.
Proof.
  intros H1 H2 Heq. unfold getAssociations in Heq.
  rewrite !rendered in Heq by assumption.
  apply joined_inj in Heq.
  - apply map_show_int_inj, Heq.
  - apply Forall_forall. intros s Hs.
    apply list_elem_of_fmap in Hs as (i & -> & _).
    split; [apply show_int_space_free|apply show_int_nonempty].
  - apply Forall_forall. intros s Hs.
    apply list_elem_of_fmap in Hs as (i & -> & _).
    split; [apply show_int_space_free|apply show_int_nonempty].
Qed.

(** X28 on two particles that differ in everything but the associations. *)
Lemma getAssociations_injective_witness :
  p_associations (mkParticle 0 4 5 0 1 [12%Z; (-3)%Z] [] [])
  = p_associations (mkParticle 9 1 1 2 0.5 [12%Z; (-3)%Z] [6; 1] [7; 2]).
Proof.
  apply (getAssociations_injective
           (mkParticle 0 4 5 0 1 [12%Z; (-3)%Z] [] [])
           (mkParticle 9 1 1 2 0.5 [12%Z; (-3)%Z] [6; 1] [7; 2])).
  - vm_compute. reflexivity.
  - vm_compute. reflexivity.
  - reflexivity.
Defined.

End ReportingProperties.

(** ** The same draws on every call *)

Lemma move_still (delta_t : R) (nz : R * R * R) (p : Particle) :
  move delta_t 0 0 nz p
  = set_pose p (p_x p + fst (fst nz)) (p_y p + snd (fst nz))
      (p_theta p + snd nz).
Proof.
  destruct nz as [[nx ny] nt]. unfold move.
  destruct (Rgt_dec (Rabs 0) 0.0001) as [Hgt|_].
  - rewrite Rabs_R0 in Hgt. lra.
  - cbn [fst snd]. unfold set_pose. f_equal; ring.
Qed.

(** X25: [prediction] draws the same noise on every call.  For a vehicle
    standing still (velocity and yaw rate 0), two calls in a row displace
    particle [n] by exactly twice the noise of draw [n]: the noise of the
    second call repeats that of the first. *)
Theorem prediction_repeats_noise (L : RandomLib) (delta_t : R)
    (std_pos : list R) (pf : ParticleFilter) :
  population_ok pf -> (3 <= length std_pos)%nat ->
  exists pf1 pf2,
    prediction L delta_t std_pos 0 0 pf = Some pf1 /\
    prediction L delta_t std_pos 0 0 pf1 = Some pf2 /\
    forall n p, particles pf !! n = Some p ->
      exists p2, particles pf2 !! n = Some p2 /\
        p_x p2 = p_x p + 2 * fst (fst (prediction_noise L std_pos n)) /\
        p_y p2 = p_y p + 2 * snd (fst (prediction_noise L std_pos n)) /\
        p_theta p2 = p_theta p + 2 * snd (prediction_noise L std_pos n).
Proof.
  intros Hok Hstd.
  destruct (@prediction_fixed_noise L delta_t 0 0 std_pos pf Hok Hstd)
    as (pf1 & Hrun1 & Hnum1 & Hps1).
  assert (Hok1 : population_ok pf1).
  { unfold population_ok, trips in *. rewrite Hnum1, Hps1, length_imap.
    exact Hok. }
  destruct (@prediction_fixed_noise L delta_t 0 0 std_pos pf1 Hok1 Hstd)
    as (pf2 & Hrun2 & _ & Hps2).
  exists pf1, pf2. split; [exact Hrun1|]. split; [exact Hrun2|].
  intros n p Hn. rewrite Hps2, list_lookup_imap, Hps1, list_lookup_imap, Hn.
  eexists. split; [reflexivity|]. rewrite !move_still.
  cbn [set_pose p_x p_y p_theta]. repeat split; ring.
Qed.

(** X25 on one particle and the concrete engine. *)
Lemma prediction_repeats_noise_witness :
  exists pf1 pf2,
    prediction lehmer_lib 0.1 [0.3; 0.3; 0.01] 0 0
      (mkFilter 1 true [mkParticle 0 4 5 0 1 [] [] []]) = Some pf1 /\
    prediction lehmer_lib 0.1 [0.3; 0.3; 0.01] 0 0 pf1 = Some pf2 /\
    forall n p, [mkParticle 0 4 5 0 1 [] [] []] !! n = Some p ->
      exists p2, particles pf2 !! n = Some p2 /\
        p_x p2 = p_x p
                 + 2 * fst (fst (prediction_noise lehmer_lib
                                   [0.3; 0.3; 0.01] n)) /\
        p_y p2 = p_y p
                 + 2 * snd (fst (prediction_noise lehmer_lib
                                   [0.3; 0.3; 0.01] n)) /\
        p_theta p2 = p_theta p
                     + 2 * snd (prediction_noise lehmer_lib
                                  [0.3; 0.3; 0.01] n).
Proof.
  apply (prediction_repeats_noise lehmer_lib 0.1 [0.3; 0.3; 0.01]
           (mkFilter 1 true [mkParticle 0 4 5 0 1 [] [] []])).
  - reflexivity.
  - cbn. lia.
Defined.

(** The loop of [init] pushes the same particles behind any population. *)
Lemma init_loop_from {L : RandomLib} (k : nat) (ps0 : list Particle)
    (ns : Noise L) :
  exists news ns',
    length news = k /\
    for_upto k init_body ([], ns) = Some (news, ns') /\
    for_upto k init_body (ps0, ns) = Some (ps0 ++ news, ns').
Proof.
  induction k as [|k IH].
  - exists [], ns. rewrite app_nil_r. repeat split.
  - destruct IH as (news & ns' & Hlen & Hnil & Hps0).
    rewrite !for_upto_S, Hnil, Hps0. cbn [mbind option_bind].
    unfold init_body. cbn [fst snd].
    destruct (draw3 ns') as [[[nx ny] nt] ns''].
    eexists. eexists. split; [|split; [reflexivity|]].
    + rewrite length_app. cbn. lia.
    + rewrite <- app_assoc. reflexivity.
Qed.

(** X26: [init] draws the same hundred particles on every call.  With the
    same arguments, the particles it pushes do not depend on the filter
    it is called on, so calling it again on an initialised filter pushes
    a second copy of the first hundred. *)
Theorem init_same_samples (L : RandomLib) (x y theta : R) (std : list R)
    (pf1 pf2 : ParticleFilter) :
  (3 <= length std)%nat ->
  exists news pf1' pf2',
    length news = 100%nat /\
    init L x y theta std pf1 = Some pf1' /\
    init L x y theta std pf2 = Some pf2' /\
    particles pf1' = particles pf1 ++ news /\
    particles pf2' = particles pf2 ++ news.
Proof.
  intros Hstd.
  destruct std as [|s0 [|s1 [|s2 rest]]]; cbn in Hstd; try lia.
  unfold init. cbn [lookup list_lookup mbind option_bind].
  destruct (init_loop_from (Z.to_nat 100) (particles pf1)
              (@fresh_noise L x y theta s0 s1 s2))
    as (news & ns' & Hlen & Hnil & Hrun1).
  destruct (init_loop_from (Z.to_nat 100) (particles pf2)
              (@fresh_noise L x y theta s0 s1 s2))
    as (news2 & ns2 & _ & Hnil2 & Hrun2).
  rewrite Hnil in Hnil2. injection Hnil2 as <- <-.
  rewrite Hrun1, Hrun2. cbn [mbind option_bind].
  exists news. eexists. eexists.
  split; [exact Hlen|]. repeat split.
Qed.

(** X26 on a fresh filter and on one that holds a particle. *)
Lemma init_same_samples_witness :
  exists news pf1' pf2',
    length news = 100%nat /\
    init lehmer_lib 4 5 0 [2; 2; 0.05] (mkFilter 0 false []) = Some pf1' /\
    init lehmer_lib 4 5 0 [2; 2; 0.05]
      (mkFilter 1 true [mkParticle 7 1 1 0 0.5 [] [] []]) = Some pf2' /\
    particles pf1' = [] ++ news /\
    particles pf2' = [mkParticle 7 1 1 0 0.5 [] [] []] ++ news.
Proof.
  apply (init_same_samples lehmer_lib 4 5 0 [2; 2; 0.05]
           (mkFilter 0 false [])
           (mkFilter 1 true [mkParticle 7 1 1 0 0.5 [] [] []])).
  cbn. lia.
Defined.

(** ** [updateWeights] twice *)

Lemma scored_same_pose_id (unset : LandmarkObs) (sensor_range s0 s1 : R)
    (rest : list R) (observations : list LandmarkObs) (map_landmarks : Map)
    (p q : Particle) :
  pose p = pose q -> p_id p = p_id q ->
  scored unset sensor_range (s0 :: s1 :: rest) observations map_landmarks p
  = scored unset sensor_range (s0 :: s1 :: rest) observations map_landmarks q.
Proof.
  intros Hpose Hid. destruct p as [pi px py pt pw pa psx psy].
  destruct q as [qi qx qy qt qw qa qsx qsy].
  unfold pose in Hpose. cbn [p_x p_y p_theta p_id] in *.
  injection Hpose as -> -> ->. subst qi.
  rewrite !scored_shape. reflexivity.
Qed.

(** X27: [updateWeights] is idempotent.  It reads poses only and writes
    weights and bookkeeping only, so on a well-formed filter a second call
    with the same arguments leaves the filter the first call left; every
    observation, taken to the map frame of any particle, having a
    candidate landmark of that particle closer than 9.9e50, and whatever
    the never-assigned locals of either call hold. *)
Theorem updateWeights_idempotent (unset1 unset2 : LandmarkObs)
    (sensor_range : R) (std_landmark : list R)
    (observations : list LandmarkObs) (map_landmarks : Map)
    (pf : ParticleFilter) :
  population_ok pf ->
  (2 <= length std_landmark)%nat ->
  (forall p obs, p ∈ particles pf -> obs ∈ observations ->
     exists lm, lm ∈ predictedLMs sensor_range p map_landmarks /\
       dist (o_x lm) (o_y lm) (fst (local_to_map p obs))
         (snd (local_to_map p obs)) < minDist0) ->
  exists pf',
    updateWeights unset1 sensor_range std_landmark observations map_landmarks
      pf = Some pf' /\
    updateWeights unset2 sensor_range std_landmark observations map_landmarks
      pf' = Some pf'.
Proof.
  intros Hok Hstd Hnear.
  destruct std_landmark as [|s0 [|s1 rest]]; cbn in Hstd; try lia.
  destruct (updateWeights_run_gen unset1 sensor_range (s0 :: s1 :: rest)
              observations map_landmarks pf Hok)
    as (ps & Hlen & Hget & Hrun).
  { intros p _. rewrite scored_shape. eauto. }
  set (qs := normalized (length (particles pf)) ps) in *.
  set (pf' := set_particles pf qs) in *.
  assert (Hlenq : length qs = length (particles pf)).
  { unfold qs, normalized.
    destruct (Rgt_dec _ 1e-5); [rewrite length_map|]; exact Hlen. }
  assert (Hok' : population_ok pf').
  { unfold population_ok, trips, pf' in *. cbn. lia. }
  destruct (updateWeights_run_gen unset2 sensor_range (s0 :: s1 :: rest)
              observations map_landmarks pf' Hok')
    as (ps2 & Hlen2 & Hget2 & Hrun2).
  { intros p _. rewrite scored_shape. eauto. }
  exists pf'. split; [exact Hrun|]. rewrite Hrun2.
  unfold pf' in Hlen2, Hget2 |- *. cbn [particles set_particles] in *.
  assert (Hps : ps2 = ps).
  { apply list_eq. intros j.
    destruct (particles pf !! j) as [p|] eqn:Hp.
    - specialize (Hget j p Hp).
      assert (Hq : exists q, qs !! j = Some q /\ pose q = pose p
                             /\ p_id q = p_id p).
      { rewrite scored_shape in Hget. unfold qs, normalized.
        destruct (Rgt_dec _ 1e-5).
        - rewrite list_lookup_fmap, Hget. eexists. split; [reflexivity|].
          split; reflexivity.
        - rewrite Hget. eexists. split; [reflexivity|]. split; reflexivity. }
      destruct Hq as (q & Hq & Hpose & Hid).
      rewrite (Hget2 j q Hq), Hget.
      rewrite (scored_any_unset unset2 unset1 sensor_range (s0 :: s1 :: rest)
                 observations map_landmarks q).
      + apply scored_same_pose_id; assumption.
      + intros obs Hobs.
        destruct (frame_of_pose sensor_range map_landmarks q p Hpose)
          as [-> Hframe].
        rewrite Hframe. apply Hnear; [|exact Hobs].
        apply list_elem_of_lookup. eauto.
    - apply lookup_ge_None in Hp.
      rewrite !lookup_ge_None_2 by lia. reflexivity. }
  rewrite Hps, Hlenq. reflexivity.
Qed.

(** X27 on one particle at (4, 5) heading 0, one landmark at (6, 5) and
    one observation that falls on it. *)
Lemma updateWeights_idempotent_witness :
  exists pf',
    updateWeights (mkLandmarkObs (-1) 0 0) 50 [0.3; 0.3]
      [mkLandmarkObs 0 2 0] (mkMap [mkLandmark 1 6 5])
      (mkFilter 1 true [mkParticle 0 4 5 0 1 [] [] []]) = Some pf' /\
    updateWeights (mkLandmarkObs 5 100 100) 50 [0.3; 0.3]
      [mkLandmarkObs 0 2 0] (mkMap [mkLandmark 1 6 5]) pf' = Some pf'.
Proof.
  apply (updateWeights_idempotent (mkLandmarkObs (-1) 0 0)
           (mkLandmarkObs 5 100 100) 50 [0.3; 0.3]
           [mkLandmarkObs 0 2 0] (mkMap [mkLandmark 1 6 5])
           (mkFilter 1 true [mkParticle 0 4 5 0 1 [] [] []])).
  - reflexivity.
  - cbn. lia.
  - intros p obs Hp Hobs. cbn [particles] in Hp.
    apply list_elem_of_singleton in Hp as ->.
    apply list_elem_of_singleton in Hobs as ->.
    exists (landmark_obs (mkLandmark 1 6 5)). split.
    + apply predictedLMs_elem; [left|].
      cbn [x_f y_f p_x p_y]. rewrite dist_horizontal, Rabs_left by lra. lra.
    + unfold local_to_map, translate, rotate.
      cbn [fst snd p_x p_y p_theta o_x o_y landmark_obs x_f y_f].
      rewrite cos_0, sin_0.
      replace (4 + (1 * 2 - 0 * 0)) with 6 by ring.
      replace (5 + (0 * 2 + 1 * 0)) with 5 by ring.
      rewrite dist_horizontal.
      replace (6 - 6) with 0 by ring. rewrite Rabs_R0. unfold minDist0. lra.
Defined.

(** ** The never-assigned [bestFit], on the code *)

Lemma dist_same_point (x y : R) : dist x y x y = 0.
Proof.
  rewrite dist_horizontal. replace (x - x) with 0 by ring. apply Rabs_R0.
Qed.

(** C2, on the code: a predicted set whose only entry is 1e51 away from the
    observation is not empty, yet the scan, which starts from the finite
    "large number" 9.9e50, selects nothing; the observation gets the
    identity of the never-assigned [bestFit], whatever the identity of
    that one, nearest, entry is. *)
Theorem dataAssociation_far_entry_unassigned (unset : LandmarkObs) (i : Z) :
  dataAssociation unset [mkLandmarkObs i 1e51 0] [mkLandmarkObs 0 0 0]
  = [set_obs_id (mkLandmarkObs 0 0 0) (o_id unset)].
Proof.
  set (far := mkLandmarkObs i 1e51 0).
  set (origin := mkLandmarkObs 0 0 0).
  assert (Hd : dto origin far = 1e51).
  { unfold dto, far, origin. cbn [o_x o_y].
    rewrite dist_horizontal, Rabs_left by lra. lra. }
  unfold dataAssociation. cbn [map]. f_equal.
  unfold associate, scan. cbn [fold_left].
  change (scan_step origin (minDist0, unset) far)
    with (if Rlt_dec (dto origin far) minDist0
          then (dto origin far, far) else (minDist0, unset)).
  rewrite Hd. unfold minDist0.
  destruct (Rlt_dec 1e51 9.9e50) as [Hlt|_]; [lra|reflexivity].
Qed.

(** C7, on the code: with an empty predicted set the observation's
    identity is overwritten with the identity of the never-assigned
    [bestFit].  Whatever that local holds, the outcome is the one a
    genuine match with a landmark of that identity gives: no value the
    code writes marks the observation as unmatched. *)
Theorem dataAssociation_empty_no_sentinel (unset obs : LandmarkObs) :
  dataAssociation unset [] [obs] = [set_obs_id obs (o_id unset)] /\
  dataAssociation unset [mkLandmarkObs (o_id unset) (o_x obs) (o_y obs)] [obs]
  = [set_obs_id obs (o_id unset)].
Proof.
  split; [reflexivity|].
  set (q := mkLandmarkObs (o_id unset) (o_x obs) (o_y obs)).
  assert (Hd : dto obs q = 0).
  { unfold dto, q. cbn [o_x o_y]. apply dist_same_point. }
  unfold dataAssociation. cbn [map]. f_equal.
  unfold associate, scan. cbn [fold_left].
  change (scan_step obs (minDist0, unset) q)
    with (if Rlt_dec (dto obs q) minDist0
          then (dto obs q, q) else (minDist0, unset)).
  rewrite Hd. unfold minDist0.
  destruct (Rlt_dec 0 9.9e50) as [_|Hge]; [reflexivity|lra].
Qed.

(** ** The draws of every call *)

(** The hundred particles [init] pushes are one list, whatever the filter. *)
Lemma init_fixed_samples (L : RandomLib) (x y theta : R) (std : list R) :
  (3 <= length std)%nat ->
  exists news,
    length news = 100%nat /\
    forall pf, exists pf',
      init L x y theta std pf = Some pf' /\
      particles pf' = particles pf ++ news.
Proof.
  intros Hstd.
  destruct std as [|s0 [|s1 [|s2 rest]]]; cbn in Hstd; try lia.
  destruct (init_loop_from (Z.to_nat 100) []
              (@fresh_noise L x y theta s0 s1 s2))
    as (news & ns' & Hlen & Hnil & _).
  exists news. split; [exact Hlen|]. intros pf.
  destruct (init_loop_from (Z.to_nat 100) (particles pf)
              (@fresh_noise L x y theta s0 s1 s2))
    as (news2 & ns2 & _ & Hnil2 & Hrun).
  rewrite Hnil in Hnil2. injection Hnil2 as <- <-.
  unfold init. cbn [lookup list_lookup mbind option_bind].
  rewrite Hrun. cbn [mbind option_bind].
  eexists. split; reflexivity.
Qed.

(** C10: [init], [prediction] and [resample] build their engine from the
    library's default state on every call and read nothing else of it.
    Two calls with the same arguments on filters with the same count and
    population give the same result; and the draws are one fixed sequence
    on every call: the hundred particles [init] pushes are the same list
    whatever the filter, the noise [prediction] adds to particle [n] is a
    function of the standard deviations and of [n] only, and the particle
    [resample] puts at position [n] is the one at the index that deviate
    [n] of the default engine selects among the weights. *)
Theorem fresh_engine_deterministic (L : RandomLib) (x y theta : R)
    (std : list R) (delta_t velocity yaw_rate : R) (std_pos : list R)
    (pf1 pf2 : ParticleFilter) :
  num_particles pf1 = num_particles pf2 ->
  particles pf1 = particles pf2 ->
  init L x y theta std pf1 = init L x y theta std pf2 /\
  particles <$> prediction L delta_t std_pos velocity yaw_rate pf1
  = particles <$> prediction L delta_t std_pos velocity yaw_rate pf2 /\
  particles <$> resample L pf1 = particles <$> resample L pf2 /\
  ((3 <= length std)%nat ->
   exists news,
     length news = 100%nat /\
     forall pf, exists pf',
       init L x y theta std pf = Some pf' /\
       particles pf' = particles pf ++ news) /\
  (forall pf dt v w, population_ok pf -> (3 <= length std_pos)%nat ->
     exists pf', prediction L dt std_pos v w pf = Some pf' /\
       particles pf'
       = imap (fun n => move dt v w (prediction_noise L std_pos n))
           (particles pf)) /\
  (canonical_unit L ->
   forall pf, population_ok pf ->
     (forall p, p ∈ particles pf -> 0 <= p_weight p) ->
     0 < sum_list (map p_weight (particles pf)) ->
     exists pf', resample L pf = Some pf' /\
       length (particles pf') = length (particles pf) /\
       forall n, (n < length (particles pf))%nat ->
         particles pf' !! n
         = particles pf !! drawn_index L (map p_weight (particles pf)) n).
Proof.
  intros Hnum Hps.
  assert (Htrips : trips pf1 = trips pf2) by (unfold trips; congruence).
  split; [|split; [|split; [|split; [|split]]]].
  - unfold init. rewrite Hps. reflexivity.
  - unfold prediction. rewrite Htrips, Hps.
    destruct (std_pos !! 0%nat), (std_pos !! 1%nat), (std_pos !! 2%nat);
      cbn [mbind option_bind fmap option_fmap option_map]; try reflexivity.
    destruct (for_upto (trips pf2) _ _); reflexivity.
  - unfold resample. rewrite Htrips, Hps.
    destruct (for_upto (trips pf2) _ []) as [ws|];
      cbn [mbind option_bind fmap option_fmap option_map]; [|reflexivity].
    destruct (for_upto (trips pf2) _ _); reflexivity.
  - apply init_fixed_samples.
  - intros pf dt v w Hok Hstd.
    destruct (@prediction_fixed_noise L dt v w std_pos pf Hok Hstd)
      as (pf' & Hrun & _ & Hmoved).
    exists pf'. split; assumption.
  - intros Hunit pf Hok _ Hsum.
    destruct (@resample_run L pf Hok) as (pf' & Hrun & _ & Hlen & Hget).
    { intros n.
      destruct (@drawn_index_interval L (particles pf) Hunit Hsum n)
        as (p & Hp & _). eauto. }
    exists pf'. split; [exact Hrun|]. split; [exact Hlen|exact Hget].
Qed.

(** C10 on two filters that differ in their initialisation flag only, with
    the concrete engine. *)
Lemma fresh_engine_deterministic_witness :
  init lehmer_lib 4 5 0 [2; 2; 0.05]
    (mkFilter 1 false [mkParticle 0 4 5 0 1 [] [] []])
  = init lehmer_lib 4 5 0 [2; 2; 0.05]
      (mkFilter 1 true [mkParticle 0 4 5 0 1 [] [] []]) /\
  (exists news,
     length news = 100%nat /\
     forall pf, exists pf',
       init lehmer_lib 4 5 0 [2; 2; 0.05] pf = Some pf' /\
       particles pf' = particles pf ++ news) /\
  (exists pf',
     resample lehmer_lib (mkFilter 1 true [mkParticle 0 4 5 0 1 [] [] []])
     = Some pf' /\
     particles pf' !! 0%nat
     = [mkParticle 0 4 5 0 1 [] [] []] !! drawn_index lehmer_lib [1] 0).
Proof.
  destruct (fresh_engine_deterministic lehmer_lib 4 5 0 [2; 2; 0.05]
              0.1 2 0.5 [0.3; 0.3; 0.01]
              (mkFilter 1 false [mkParticle 0 4 5 0 1 [] [] []])
              (mkFilter 1 true [mkParticle 0 4 5 0 1 [] [] []])
              eq_refl eq_refl)
    as (Hinit & _ & _ & Hfix & _ & Hres).
  split; [exact Hinit|]. split; [apply Hfix; cbn; lia|].
  destruct (Hres lehmer_unit
              (mkFilter 1 true [mkParticle 0 4 5 0 1 [] [] []]))
    as (pf' & Hrun & _ & Hget).
  - reflexivity.
  - intros p Hp. cbn [particles] in Hp.
    apply list_elem_of_singleton in Hp as ->. cbn. lra.
  - cbn. lra.
  - exists pf'. split; [exact Hrun|].
    apply (Hget 0%nat). cbn. lia.
Defined.
